(** * GVariant signature validator and reader of ell (src/ell/gvariant-util.c)

    A shallow embedding of the C code.  Memory is a family of blocks of
    bytes, each at a base address; pointers are a block and a byte offset,
    and every function that dereferences a pointer returns in the [res]
    monad: [Ok v] when the C code returns [v], [Fault] when it
    dereferences a pointer outside the object it points into (undefined
    behaviour in C), [OutOfFuel] when the recursion budget of the
    embedding is exhausted (shown below never to happen for the budgets
    the definitions pass).

    [size_t] values wrap modulo 2^64 where the code computes them, and
    pointers are compared as 64-bit machine addresses, which wrap too.  The
    [int] results of the signature functions are kept unbounded: over a
    signature of [n] bytes the child count is at most [n] and the fixed
    size below [16 * n].  The cursor fields [sig_len] and [sig_pos], whose
    declaration is not part of the sources, are unbounded as well. *)

From Stdlib Require Import Ascii String ZArith List Bool Lia.
Import ListNotations.
Local Open Scope Z_scope.

(** ** Results of memory-touching code *)

Inductive res (A : Type) : Type :=
| Ok (a : A)
| Fault
| OutOfFuel.
Arguments Ok {A} a.
Arguments Fault {A}.
Arguments OutOfFuel {A}.

Definition bind {A B : Type} (x : res A) (f : A -> res B) : res B :=
  match x with
  | Ok a => f a
  | Fault => Fault
  | OutOfFuel => OutOfFuel
  end.

Notation "x <- e ;; k" := (bind e (fun x => k))
  (at level 61, e at next level, right associativity).
Notation "' pat <- e ;; k" := (bind e (fun x => match x with pat => k end))
  (at level 61, pat pattern, e at next level, right associativity).

Definition ret {A : Type} (a : A) : res A := Ok a.

(** ** Characters and strings *)

Definition chr (a : ascii) : Z := Z.of_N (N_of_ascii a).

Fixpoint bytes_of_string (s : string) : list Z :=
  match s with
  | EmptyString => []
  | String a s' => chr a :: bytes_of_string s'
  end.

(** A C string literal: its characters followed by the terminator. *)
Definition cstring (s : string) : list Z := bytes_of_string s ++ [0].

(** [rd buf i] is [buf[i]]: the read faults outside the object. *)
Definition rd (buf : list Z) (i : Z) : res Z :=
  if i <? 0 then Fault
  else match nth_error buf (Z.to_nat i) with
       | Some c => Ok c
       | None => Fault
       end.

(** [strchr(str, c) != NULL]: the terminator of [str] matches [c = 0]. *)
Definition strchr (str : list Z) (c : Z) : bool :=
  (c =? 0) || existsb (Z.eqb c) str.

Definition simple_types : list Z := bytes_of_string "sogybnqiuxtdh".
Definition variable_types : list Z := bytes_of_string "sogav".
Definition fixed_types : list Z := bytes_of_string "bynqhiuxtd".

Definition is_chr (c : Z) (a : ascii) : bool := c =? chr a.

Definition get_basic_alignment (type : Z) : Z :=
  if is_chr type "b" then 1
  else if is_chr type "y" then 1
  else if is_chr type "n" || is_chr type "q" then 2
  else if is_chr type "i" || is_chr type "u" then 4
  else if is_chr type "x" || is_chr type "t" || is_chr type "d" then 8
  else if is_chr type "s" || is_chr type "g" || is_chr type "o" then 1
  else if is_chr type "h" then 4
  else if is_chr type "v" then 8
  else 0.

Definition get_basic_fixed_size (type : Z) : Z :=
  if is_chr type "b" then 1
  else if is_chr type "y" then 1
  else if is_chr type "n" || is_chr type "q" then 2
  else if is_chr type "i" || is_chr type "u" then 4
  else if is_chr type "x" || is_chr type "t" || is_chr type "d" then 8
  else if is_chr type "h" then 4
  else 0.

(** Modelled from the spec: the macro [align_len] of private.h is not part
    of the sources; the spec calls it align_up, the running size or position
    rounded up to the next multiple of the alignment. *)
Definition align_len (len boundary : Z) : Z :=
  (len + boundary - 1) / boundary * boundary.

(** ** Signature validator *)

(** The [while (sig && *sig != ')')] loop of the struct case, over the
    recursive call [rec]; [n] bounds the number of rounds.  A member that
    fails to validate makes [sig] NULL, which ends the loop and returns
    NULL. *)
Fixpoint struct_members (rec : Z -> res (option (Z * Z))) (buf : list Z)
         (n : nat) (sig max_alignment : Z) : res (option (Z * Z)) :=
  match n with
  | O => OutOfFuel
  | S n' =>
    c <- rd buf sig ;;
    if is_chr c ")" then ret (Some (sig + 1, max_alignment))
    else
      r <- rec sig ;;
      match r with
      | None => ret None
      | Some (sig', alignment) =>
        struct_members rec buf n' sig'
          (if alignment >? max_alignment then alignment else max_alignment)
      end
  end.

(** [validate_next_type(sig, &out_alignment)] on the object [buf], the
    pointer [sig] being the index [sig] into it.  [Ok None] is the NULL
    return, [Ok (Some (p, a))] the pointer past the type and the alignment
    written through [out_alignment]. *)
Fixpoint validate_next_type_fuel (fuel : nat) (buf : list Z) (sig : Z)
  : res (option (Z * Z)) :=
  match fuel with
  | O => OutOfFuel
  | S fuel' =>
    s <- rd buf sig ;;
    if s =? 0 then ret None
    else if strchr simple_types s || is_chr s "v" then
      ret (Some (sig + 1, get_basic_alignment s))
    else if is_chr s "a" then
      validate_next_type_fuel fuel' buf (sig + 1)
    else if is_chr s "{" then
      k <- rd buf (sig + 1) ;;
      (* Dictionary keys can only be simple types *)
      if negb (strchr simple_types k) then ret None
      else
        let alignment := get_basic_alignment k in
        r <- validate_next_type_fuel fuel' buf (sig + 1 + 1) ;;
        match r with
        | None => ret None
        | Some (sig', out_alignment) =>
          c <- rd buf sig' ;;
          if negb (is_chr c "}") then ret None
          else ret (Some (sig' + 1,
                          if alignment >? out_alignment then alignment
                          else out_alignment))
        end
    else if is_chr s "(" then
      struct_members (validate_next_type_fuel fuel' buf) buf fuel (sig + 1) 1
    else ret None
  end.

(** The budget: one level of recursion per byte of the object. *)
Definition validate_next_type (buf : list Z) (sig : Z) : res (option (Z * Z)) :=
  validate_next_type_fuel (S (length buf)) buf sig.

(** The do-while loop of [_gvariant_valid_signature]; [n] bounds the
    number of rounds. *)
Fixpoint valid_signature_loop (n : nat) (buf : list Z) (s : Z) : res bool :=
  match n with
  | O => OutOfFuel
  | S n' =>
    r <- validate_next_type buf s ;;
    match r with
    | None => ret false
    | Some (s', _) =>
      c <- rd buf s' ;;
      if c =? 0 then ret true else valid_signature_loop n' buf s'
    end
  end.

Definition _gvariant_valid_signature (buf : list Z) (sig : Z) : res bool :=
  valid_signature_loop (S (length buf)) buf sig.

(** The do-while loop of [_gvariant_num_children]. *)
Fixpoint num_children_loop (n : nat) (buf : list Z) (s : Z) (num_children : Z)
  : res Z :=
  match n with
  | O => OutOfFuel
  | S n' =>
    r <- validate_next_type buf s ;;
    match r with
    | None => ret (-1)
    | Some (s', _) =>
      c <- rd buf s' ;;
      if c =? 0 then ret (num_children + 1)
      else num_children_loop n' buf s' (num_children + 1)
    end
  end.

Definition _gvariant_num_children (buf : list Z) (sig : Z) : res Z :=
  num_children_loop (S (length buf)) buf sig 0.

Fixpoint get_alignment_loop (n : nat) (buf : list Z) (s max_alignment : Z)
  : res Z :=
  match n with
  | O => OutOfFuel
  | S n' =>
    c <- rd buf s ;;
    (* 8 is the largest alignment possible, so quit if we reach it *)
    if (c =? 0) || (max_alignment =? 8) then ret max_alignment
    else
      r <- validate_next_type buf s ;;
      match r with
      | None => ret 0
      | Some (s', alignment) =>
        get_alignment_loop n' buf s'
          (if alignment >? max_alignment then alignment else max_alignment)
      end
  end.

Definition _gvariant_get_alignment (buf : list Z) (sig : Z) : res Z :=
  get_alignment_loop (S (length buf)) buf sig 1.

Fixpoint is_fixed_size_loop (n : nat) (buf : list Z) (sig : Z) : res bool :=
  match n with
  | O => OutOfFuel
  | S n' =>
    c <- rd buf sig ;;
    if c =? 0 then ret true
    else if strchr variable_types c then ret false
    else is_fixed_size_loop n' buf (sig + 1)
  end.

Definition _gvariant_is_fixed_size (buf : list Z) (sig : Z) : res bool :=
  is_fixed_size_loop (S (length buf)) buf sig.

(** The [while] loop of [_gvariant_get_fixed_size] over the recursive call
    [rec]; [n] bounds the number of rounds. *)
Fixpoint fixed_size_scan (rec : Z -> res Z) (buf : list Z) (n : nat)
         (s size max_alignment : Z) : res Z :=
  match n with
  | O => OutOfFuel
  | S n' =>
    c <- rd buf s ;;
    if c =? 0 then ret (align_len size max_alignment)
    else if strchr variable_types c then ret 0
    else if strchr fixed_types c then
      let alignment := get_basic_alignment c in
      fixed_size_scan rec buf n' (s + 1)
        (align_len size alignment + get_basic_fixed_size c)
        (if alignment >? max_alignment then alignment else max_alignment)
    else if is_chr c "}" || is_chr c ")" then
      ret (align_len size max_alignment)
    else
      r <- validate_next_type buf s ;;
      match r with
      | None => ret 0
      | Some (p, alignment) =>
        let max_alignment' :=
          if alignment >? max_alignment then alignment else max_alignment in
        let size' := align_len size alignment in
        (* Handle special case of unit type *)
        unit <- (if is_chr c "("
                 then c1 <- rd buf (s + 1) ;; ret (is_chr c1 ")")
                 else ret false) ;;
        r <- (if unit : bool then ret 1 else rec (s + 1)) ;;
        if r =? 0 then ret 0
        else fixed_size_scan rec buf n' p (size' + r) max_alignment'
      end
  end.

Fixpoint get_fixed_size_fuel (fuel : nat) (buf : list Z) (sig : Z) : res Z :=
  match fuel with
  | O => OutOfFuel
  | S fuel' =>
    fixed_size_scan (get_fixed_size_fuel fuel' buf) buf fuel sig 0 1
  end.

Definition _gvariant_get_fixed_size (buf : list Z) (sig : Z) : res Z :=
  get_fixed_size_fuel (S (length buf)) buf sig.

(** ** Memory, pointers and machine integers *)

(** A memory is a family of objects (blocks of bytes), each placed at a
    base address of the 64-bit address space; a pointer is NULL or a block
    and a byte offset from its base.  Pointer arithmetic adds to the
    offset; the machine address of the result is taken modulo 2^64, and
    that address is what a pointer comparison compares.  A read through a
    pointer whose offset has left the block's bytes faults. *)
Record mem : Type := mk_mem {
  cells :> nat -> list Z;
  base : nat -> Z
}.

Inductive ptr : Type :=
| NULL
| Ptr (b : nat) (o : Z).

Definition ptr_add (p : ptr) (z : Z) : ptr :=
  match p with
  | NULL => NULL
  | Ptr b o => Ptr b (o + z)
  end.

(** [p - q] for pointers into one object. *)
Definition ptr_diff (p q : ptr) : res Z :=
  match p, q with
  | Ptr b o, Ptr b' o' => if Nat.eqb b b' then Ok (o - o') else Fault
  | _, _ => Fault
  end.

(** The machine address of [p + z]: 64 bits, wrapping.  NULL is the
    address 0. *)
Definition addr_add (m : mem) (p : ptr) (z : Z) : Z :=
  match p with
  | NULL => z mod 2 ^ 64
  | Ptr b o => (base m b + o + z) mod 2 ^ 64
  end.

Definition addr (m : mem) (p : ptr) : Z := addr_add m p 0.

Definition load (m : mem) (p : ptr) : res Z :=
  match p with
  | NULL => Fault
  | Ptr b o => rd (m b) o
  end.

(** The [n] bytes at [p], as [memcpy] and the multi-byte loads read them. *)
Definition load_bytes (m : mem) (p : ptr) (n : Z) : res (list Z) :=
  match p with
  | NULL => Fault
  | Ptr b o =>
    if (n <? 0) || (o <? 0) || (Z.of_nat (length (m b)) <? o + n) then Fault
    else Ok (firstn (Z.to_nat n) (skipn (Z.to_nat o) (m b)))
  end.

Definition size_t (z : Z) : Z := z mod 2 ^ 64.
Definition uint8_t (z : Z) : Z := z mod 2 ^ 8.

Fixpoint le_decode (bytes : list Z) : Z :=
  match bytes with
  | [] => 0
  | b :: rest => b + 256 * le_decode rest
  end.

(** Two's complement reading of a [w]-bit pattern. *)
Definition signed (w : Z) (z : Z) : Z :=
  if z <? 2 ^ (w - 1) then z else z - 2 ^ w.

Definition offset_length (size n_offsets : Z) : Z :=
  if size_t (size + n_offsets) <=? 255 then 1
  else if size_t (size + n_offsets * 2) <=? 65535 then 2
  else if size_t (size + n_offsets * 4) <=? 4294967295 then 4
  else 8.

Definition read_word_le (m : mem) (p : ptr) (sz : Z) : res Z :=
  bytes <- load_bytes m p sz ;;
  ret (le_decode bytes).

(** A local [char] array after [memcpy(buf, src, n); buf[n] = 0]: the cells
    past the terminator keep what [old] held there; cells never written are
    not part of the list, so reading them faults. *)
Definition buf_write (old bytes : list Z) : list Z :=
  bytes ++ [0] ++ skipn (S (length bytes)) old.

(** [buf[i] = c] on an initialised cell. *)
Fixpoint buf_set (buf : list Z) (i : nat) (c : Z) : list Z :=
  match buf, i with
  | [], _ => []
  | _ :: tl, O => c :: tl
  | x :: tl, S i' => x :: buf_set tl i' c
  end.

Fixpoint strlen_list (l : list Z) : res Z :=
  match l with
  | [] => Fault
  | c :: tl => if c =? 0 then Ok 0 else n <- strlen_list tl ;; ret (n + 1)
  end.

(** [memchr] over the bytes [l] that follow the start pointer: [n] bytes
    are searched for the terminator, [i] counts the bytes passed. *)
Fixpoint memchr_list (l : list Z) (n i : Z) : res (option Z) :=
  if n <=? 0 then Ok None
  else match l with
       | [] => Fault
       | c :: tl => if c =? 0 then Ok (Some i)
                    else memchr_list tl (n - 1) (i + 1)
       end.

(** [memchr(p, 0, n)]: the offset from [p] of the first NUL, if any. *)
Definition memchr0 (m : mem) (p : ptr) (n : Z) : res (option Z) :=
  match p with
  | NULL => Fault
  | Ptr b o =>
    if n <=? 0 then Ok None
    else if o <? 0 then Fault
    else memchr_list (skipn (Z.to_nat o) (m b)) n 0
  end.

(** [memrchr(p, 0, n)]: the offset from [p] of the last NUL, if any.  The
    search runs backwards from [p + n - 1]. *)
Definition memrchr0 (m : mem) (p : ptr) (n : Z) : res (option Z) :=
  match p with
  | NULL => Fault
  | Ptr b o =>
    if n <=? 0 then Ok None
    else if (o + n <? 0) || (Z.of_nat (length (m b)) <? o + n) then Fault
    else
      r <- memchr_list (rev (firstn (Z.to_nat (o + n)) (m b))) n 0 ;;
      match r with
      | None => ret None
      | Some j => ret (Some (n - 1 - j))
      end
  end.

(** ** The reader *)

(** Modelled from the spec: [enum dbus_container_type] is declared in
    dbus-private.h, which is not part of the sources; the spec lists the
    four container kinds. *)
Inductive dbus_container_type : Type :=
| DBUS_CONTAINER_TYPE_STRUCT
| DBUS_CONTAINER_TYPE_DICT_ENTRY
| DBUS_CONTAINER_TYPE_ARRAY
| DBUS_CONTAINER_TYPE_VARIANT.

Definition is_array (t : dbus_container_type) : bool :=
  match t with
  | DBUS_CONTAINER_TYPE_ARRAY => true
  | _ => false
  end.

(** Modelled from the spec: [struct l_dbus_message_iter] is declared in a
    header that is not part of the sources; these are the fields the spec
    lists and the code assigns.  [message] is an opaque handle. *)
Record l_dbus_message_iter : Type := mk_iter {
  message : Z;
  sig_start : ptr;
  sig_len : Z;
  sig_pos : Z;
  data : ptr;
  len : Z;
  pos : Z;
  container_type : dbus_container_type;
  offsets : ptr
}.

Record gvariant_type_info : Type := mk_info {
  ti_sig_start : Z;
  ti_sig_end : Z;
  ti_fixed_size : bool;
  ti_alignment : Z;
  ti_end : Z
}.

(** The copy of the signature window into [subsig] at the head of
    [gvariant_iter_init_internal]: [memcpy] up to [sig_end], or [strcpy]
    when [sig_end] is NULL.  [subsig] has 256 cells. *)
Definition copy_window (m : mem) (sig_start sig_end : ptr) : res (list Z) :=
  match sig_end with
  | NULL =>
    match sig_start with
    | NULL => Fault
    | Ptr b o =>
      if o <? 0 then Fault
      else
        n <- strlen_list (skipn (Z.to_nat o) (m b)) ;;
        if 255 <? n then Fault
        else bytes <- load_bytes m sig_start n ;; ret (bytes ++ [0])
    end
  | Ptr _ _ =>
    n <- ptr_diff sig_end sig_start ;;
    if 255 <? n then Fault
    else bytes <- load_bytes m sig_start n ;; ret (bytes ++ [0])
  end.

Definition set_sig_pos (it : l_dbus_message_iter) (v : Z) :=
  mk_iter (message it) (sig_start it) (sig_len it) v (data it) (len it)
          (pos it) (container_type it) (offsets it).

Definition set_pos (it : l_dbus_message_iter) (v : Z) :=
  mk_iter (message it) (sig_start it) (sig_len it) (sig_pos it) (data it)
          (len it) v (container_type it) (offsets it).

Definition set_offsets (it : l_dbus_message_iter) (v : ptr) :=
  mk_iter (message it) (sig_start it) (sig_len it) (sig_pos it) (data it)
          (len it) (pos it) (container_type it) v.

Definition set_container_type (it : l_dbus_message_iter)
           (v : dbus_container_type) :=
  mk_iter (message it) (sig_start it) (sig_len it) (sig_pos it) (data it)
          (len it) (pos it) v (offsets it).

(** First loop of [gvariant_iter_init_internal]: [k] children remain, [i]
    is the loop index, [p] the scanning pointer (an offset into block [b]),
    [sig0] the offset of [sig_start].  When [validate_next_type] returns
    NULL the code goes on to compute [p - sig_start] and, on the next
    round, to dereference [p]: undefined, hence [Fault]. *)
Fixpoint scan_children (k : nat) (m : mem) (b : nat) (sig0 n_children : Z)
         (i p : Z) (subsig : list Z) (num_variable : Z)
  : res (list gvariant_type_info * Z) :=
  match k with
  | O => ret ([], num_variable)
  | S k' =>
    let cs := uint8_t (p - sig0) in
    r <- validate_next_type (m b) p ;;
    match r with
    | None => Fault
    | Some (p', alignment) =>
      let ce := uint8_t (p' - sig0) in
      bytes <- load_bytes m (Ptr b (sig0 + cs)) (ce - cs) ;;
      let subsig' := buf_write subsig bytes in
      fixed_size <- _gvariant_is_fixed_size subsig' 0 ;;
      size <- (if fixed_size : bool then _gvariant_get_fixed_size subsig' 0
               else ret 0) ;;
      let num_variable' :=
        if negb fixed_size && (i + 1 <? n_children) then num_variable + 1
        else num_variable in
      '(rest, nv) <- scan_children k' m b sig0 n_children (i + 1) p'
                                   subsig' num_variable' ;;
      ret (mk_info cs ce fixed_size (alignment mod 16) size :: rest, nv)
    end
  end.

(** Second loop: [Ok false] is [goto fail].  [prev_end] is
    [children[i-1].end] as the loop has left it. *)
Fixpoint layout_children (m : mem) (data : ptr) (len offset_len last_offset : Z)
         (children : list gvariant_type_info) (i prev_end v num_variable : Z)
  : res bool :=
  match children with
  | [] => ret true
  | c :: rest =>
    if ti_fixed_size c then
      if i =? 0 then
        layout_children m data len offset_len last_offset rest (i + 1)
                        (ti_end c) v num_variable
      else
        let o := align_len prev_end (ti_alignment c) in
        let e := size_t (ti_end c + o) in
        if e >? len then ret false
        else layout_children m data len offset_len last_offset rest (i + 1)
                             e v num_variable
    else if num_variable =? 0 then
      layout_children m data len offset_len last_offset rest (i + 1)
                      last_offset v num_variable
    else
      let v' := v + 1 in
      e <- read_word_le m (ptr_add data (len - offset_len * v')) offset_len ;;
      if e >? len then ret false
      else layout_children m data len offset_len last_offset rest (i + 1)
                           e v' (num_variable - 1)
  end.

(** [iter] is what the output structure held before the call: the fields
    the code does not assign on a path keep that content. *)
Definition gvariant_iter_init_internal (m : mem) (iter : l_dbus_message_iter)
           (msg : Z) (type : dbus_container_type)
           (sig_start sig_end data : ptr) (len : Z)
  : res (bool * l_dbus_message_iter) :=
  let offset_len := offset_length len 0 in
  subsig <- copy_window m sig_start sig_end ;;
  slen <- strlen_list subsig ;;
  let iter1 := mk_iter msg sig_start slen 0 data len 0
                       (container_type iter) (offsets iter) in
  nc <- _gvariant_num_children subsig 0 ;;
  let n_children := uint8_t nc in
  match sig_start with
  | NULL => Fault
  | Ptr b sig0 =>
    '(children, num_variable) <-
       scan_children (Z.to_nat n_children) m b sig0 n_children 0 sig0
                     subsig 0 ;;
    if len <? num_variable * offset_len then ret (false, iter1)
    else
      let last_offset := len - num_variable * offset_len in
      let iter2 := set_offsets iter1
                     (if num_variable >? 0
                      then ptr_add data (len - offset_len) else NULL) in
      ok <- layout_children m data len offset_len last_offset children
                            0 0 0 num_variable ;;
      if negb ok then ret (false, iter2)
      else
        let iter3 := set_container_type iter2 type in
        match children with
        | [] => Fault
        | c0 :: _ =>
          if is_array type && negb (ti_fixed_size c0) then
            offset <- read_word_le m (ptr_add data (len - offset_len))
                                   offset_len ;;
            ret (true, set_offsets iter3 (ptr_add data offset))
          else ret (true, iter3)
        end
  end.

Definition _gvariant_iter_init (m : mem) (iter : l_dbus_message_iter)
           (msg : Z) (sig_start sig_end data : ptr) (len : Z)
  : res (bool * l_dbus_message_iter) :=
  gvariant_iter_init_internal m iter msg DBUS_CONTAINER_TYPE_STRUCT
                              sig_start sig_end data len.

(** The tail of [next_item] from the label [done]: the test
    [start >= iter->data + iter->len] compares two machine addresses.
    The function returns [start], and its callers take a NULL for its
    failure: a start whose address is 0 is returned after [pos] has been
    advanced, and is no item. *)
Definition next_item_done (m : mem) (iter : l_dbus_message_iter)
           (item_size : Z)
  : option (ptr * Z) * l_dbus_message_iter :=
  let start := ptr_add (data iter) (pos iter) in
  if addr_add m (data iter) (pos iter) >=? addr_add m (data iter) (len iter)
  then (None, iter)
  else
    let iter' := set_pos iter (size_t (pos iter + item_size)) in
    if addr_add m (data iter) (pos iter) =? 0 then (None, iter')
    else (Some (start, item_size), iter').

(** [next_item(iter, &item_size)]: the start pointer and the item size, or
    NULL, together with the reader as the call leaves it.  [sig] has 256
    cells. *)
Definition next_item (m : mem) (iter : l_dbus_message_iter)
  : res (option (ptr * Z) * l_dbus_message_iter) :=
  let n := sig_len iter - sig_pos iter in
  if 255 <? n then Fault
  else
    bytes <- load_bytes m (ptr_add (sig_start iter) (sig_pos iter)) n ;;
    let sig := bytes ++ [0] in
    r <- validate_next_type sig 0 ;;
    match r with
    | None => ret (None, iter)
    | Some (p, alignment) =>
      let sig_len' := p in
      c <- rd sig p ;;
      let last_member := c =? 0 in
      let sig' := buf_set sig (Z.to_nat sig_len') 0 in
      fixed_size <- _gvariant_is_fixed_size sig' 0 ;;
      let iter1 :=
        if is_array (container_type iter) then iter
        else set_sig_pos iter (sig_pos iter + sig_len') in
      let iter2 := set_pos iter1 (size_t (align_len (pos iter1) alignment)) in
      if fixed_size : bool then
        item_size <- _gvariant_get_fixed_size sig' 0 ;;
        ret (next_item_done m iter2 item_size)
      else if negb (is_array (container_type iter2)) && last_member then
        ret (next_item_done m iter2 (size_t (len iter2 - pos iter2)))
      else if addr m (offsets iter2) >=? addr_add m (data iter2) (len iter2)
      then ret (None, iter2)
      else
        let offset_len := offset_length (len iter2) 0 in
        w <- read_word_le m (offsets iter2) offset_len ;;
        let item_size := size_t (w - pos iter2) in
        (* In structures the offsets are in reverse order *)
        let iter3 :=
          set_offsets iter2
            (ptr_add (offsets iter2)
                     (if is_array (container_type iter2) then offset_len
                      else - offset_len)) in
        ret (next_item_done m iter3 item_size)
    end.

(** The character under the signature cursor, [iter->sig_start[iter->sig_pos]]. *)
Definition sig_char (m : mem) (it : l_dbus_message_iter) : res Z :=
  load m (ptr_add (sig_start it) (sig_pos it)).

(** What [_gvariant_iter_next_entry_basic] stores through [out]. *)
Inductive basic_value : Type :=
| VNone                       (* nothing is stored *)
| VString (p : ptr)           (* const char * *)
| VBool (b : bool)
| VInt (v : Z).

(** Modelled from the spec: the accessors [get_u8], [get_s16], [get_u16],
    [get_s32], [get_u32], [get_s64], [get_u64] come from a header that is
    not part of the sources; the spec has them read little-endian words. *)
Definition get_u (m : mem) (w : Z) (p : ptr) : res Z :=
  read_word_le m p (w / 8).

Definition get_s (m : mem) (w : Z) (p : ptr) : res Z :=
  v <- read_word_le m p (w / 8) ;; ret (signed w v).

(** The [switch (type)] of [_gvariant_iter_next_entry_basic]: [Ok None]
    is its [return false], [Ok (Some v)] the value stored before the final
    [return true]. *)
Definition decode_basic (m : mem) (type : Z) (start : ptr) (item_size : Z)
  : res (option basic_value) :=
  if is_chr type "o" || is_chr type "s" || is_chr type "g" then
    e <- memchr0 m start item_size ;;
    match e with
    | None => ret None
    | Some _ => ret (Some (VString start))
    end
  else if is_chr type "b" then
    v <- get_u m 8 start ;; ret (Some (VBool (negb (v =? 0))))
  else if is_chr type "y" then
    v <- get_u m 8 start ;; ret (Some (VInt v))
  else if is_chr type "n" then
    v <- get_s m 16 start ;; ret (Some (VInt v))
  else if is_chr type "q" then
    v <- get_u m 16 start ;; ret (Some (VInt v))
  else if is_chr type "i" then
    v <- get_s m 32 start ;; ret (Some (VInt v))
  else if is_chr type "h" || is_chr type "u" then
    v <- get_u m 32 start ;; ret (Some (VInt v))
  else if is_chr type "x" then
    v <- get_s m 64 start ;; ret (Some (VInt v))
  else if is_chr type "t" then
    v <- get_u m 64 start ;; ret (Some (VInt v))
  else if is_chr type "d" then
    v <- get_u m 64 start ;; ret (Some (VInt v))
  else ret (Some VNone).

Definition _gvariant_iter_next_entry_basic (m : mem)
           (iter : l_dbus_message_iter) (type : Z)
  : res (bool * l_dbus_message_iter * basic_value) :=
  if pos iter >=? len iter then ret (false, iter, VNone)
  else
    c <- sig_char m iter ;;
    if negb (c =? type) then ret (false, iter, VNone)
    else
      '(r, iter') <- next_item m iter ;;
      match r with
      | None => ret (false, iter', VNone)
      | Some (start, item_size) =>
        v <- decode_basic m type start item_size ;;
        match v with
        | None => ret (false, iter', VNone)
        | Some v => ret (true, iter', v)
        end
      end.

(** The [enter] operations return the verdict, the parent reader as the
    call leaves it, and the child reader; [child] is what the output
    structure held before the call. *)
Definition _gvariant_iter_enter_struct (m : mem)
           (iter structure : l_dbus_message_iter)
  : res (bool * l_dbus_message_iter * l_dbus_message_iter) :=
  c <- sig_char m iter ;;
  let is_dict := is_chr c "{" in
  let is_struct := is_chr c "(" in
  let sig_start' := ptr_add (ptr_add (sig_start iter) (sig_pos iter)) 1 in
  if negb is_dict && negb is_struct then ret (false, iter, structure)
  else
    '(r, iter') <- next_item m iter ;;
    match r with
    | None => ret (false, iter', structure)
    | Some (start, item_size) =>
      (* For ARRAY containers the sig_pos is never incremented *)
      let sig_end :=
        if is_array (container_type iter')
        then ptr_add (ptr_add (sig_start iter') (sig_len iter')) (-1)
        else ptr_add (ptr_add (sig_start iter') (sig_pos iter')) (-1) in
      let type := if is_dict then DBUS_CONTAINER_TYPE_DICT_ENTRY
                  else DBUS_CONTAINER_TYPE_STRUCT in
      '(ok, structure') <-
         gvariant_iter_init_internal m structure (message iter') type
                                     sig_start' sig_end start item_size ;;
      ret (ok, iter', structure')
    end.

Definition _gvariant_iter_enter_variant (m : mem)
           (iter variant : l_dbus_message_iter)
  : res (bool * l_dbus_message_iter * l_dbus_message_iter) :=
  c <- sig_char m iter ;;
  if negb (is_chr c "v") then ret (false, iter, variant)
  else
    '(r, iter') <- next_item m iter ;;
    match r with
    | None => ret (false, iter', variant)
    | Some (start, item_size) =>
      (* Find the signature *)
      let end_ := ptr_add start item_size in
      nul <- memrchr0 m start item_size ;;
      match nul with
      | None => ret (false, iter', variant)
      | Some k =>
        let n := item_size - k - 1 in
        if n >? 255 then ret (false, iter', variant)
        else
          bytes <- load_bytes m (ptr_add start (k + 1)) n ;;
          (* char signature[255]: the terminator of a 255-byte signature
             is stored one past the array *)
          if 254 <? n then Fault
          else
            let signature := bytes ++ [0] in
            valid <- _gvariant_valid_signature signature 0 ;;
            if negb valid then ret (false, iter', variant)
            else
              nc <- _gvariant_num_children signature 0 ;;
              if negb (nc =? 1) then ret (false, iter', variant)
              else
                '(ok, variant') <-
                   gvariant_iter_init_internal m variant (message iter')
                     DBUS_CONTAINER_TYPE_VARIANT (ptr_add start (k + 1))
                     end_ start k ;;
                ret (ok, iter', variant')
      end
    end.

Definition _gvariant_iter_enter_array (m : mem)
           (iter array : l_dbus_message_iter)
  : res (bool * l_dbus_message_iter * l_dbus_message_iter) :=
  c <- sig_char m iter ;;
  if negb (is_chr c "a") then ret (false, iter, array)
  else
    let sig_start' := ptr_add (ptr_add (sig_start iter) (sig_pos iter)) 1 in
    '(r, iter') <- next_item m iter ;;
    match r with
    | None => ret (false, iter', array)
    | Some (start, item_size) =>
      (* For ARRAY containers the sig_pos is never incremented *)
      let sig_end :=
        if is_array (container_type iter')
        then ptr_add (sig_start iter') (sig_len iter')
        else ptr_add (sig_start iter') (sig_pos iter') in
      '(ok, array') <-
         gvariant_iter_init_internal m array (message iter')
           DBUS_CONTAINER_TYPE_ARRAY sig_start' sig_end start item_size ;;
      ret (ok, iter', array')
    end.

(** The NUL-terminated string at [p]. *)
Definition load_cstring (m : mem) (p : ptr) : res (list Z) :=
  match p with
  | NULL => Fault
  | Ptr b o =>
    if o <? 0 then Fault
    else n <- strlen_list (skipn (Z.to_nat o) (m b)) ;; load_bytes m p n
  end.

(** ** Concrete memories for the scenarios *)

(** Block 0 holds the signature string, block 1 the bytes around the
    frame; every other block is empty.  Block [b] lies at the address
    [4096 * (b + 1)]. *)
Definition mem_of (sig frame : list Z) : mem :=
  mk_mem (fun b => match b with
                   | O => sig
                   | S O => frame
                   | _ => []
                   end)
         (fun b => 4096 * (Z.of_nat b + 1)).

(** The content of an output structure before the first call. *)
Definition blank_iter : l_dbus_message_iter :=
  mk_iter 0 NULL 0 0 NULL 0 0 DBUS_CONTAINER_TYPE_STRUCT NULL.

(** ** Predicates of the statements *)

(** The alignments of the format. *)
Definition is_alignment (a : Z) : Prop := a = 1 \/ a = 2 \/ a = 4 \/ a = 8.

(** [rec] moves forward inside the object [buf] and reports an alignment. *)
Definition advances (buf : list Z) (rec : Z -> res (option (Z * Z))) : Prop :=
  forall q j a, rec q = Ok (Some (j, a)) ->
                q < j <= Z.of_nat (length buf) /\ is_alignment a.

(** The fields no operation assigns after initialisation. *)
Definition same_frame (it it' : l_dbus_message_iter) : Prop :=
  message it' = message it /\ sig_start it' = sig_start it /\
  sig_len it' = sig_len it /\ data it' = data it /\ len it' = len it /\
  container_type it' = container_type it.

(** One operation applied to a reader: [step m it it'] when some
    operation that returns (with either verdict) turns [it] into [it']. *)
Inductive step (m : mem) (it it' : l_dbus_message_iter) : Prop :=
| step_next_item r :
    next_item m it = Ok (r, it') -> step m it it'
| step_next_basic t ok v :
    _gvariant_iter_next_entry_basic m it t = Ok (ok, it', v) ->
    step m it it'
| step_enter_struct c ok c' :
    _gvariant_iter_enter_struct m it c = Ok (ok, it', c') -> step m it it'
| step_enter_array c ok c' :
    _gvariant_iter_enter_array m it c = Ok (ok, it', c') -> step m it it'
| step_enter_variant c ok c' :
    _gvariant_iter_enter_variant m it c = Ok (ok, it', c') -> step m it it'.

Inductive steps (m : mem) : l_dbus_message_iter -> l_dbus_message_iter -> Prop :=
| steps_refl it : steps m it it
| steps_cons it it' it'' :
    step m it it' -> steps m it' it'' -> steps m it it''.

(** The claim as the specification states it: an operation that returns
    failure returns the reader it was given. *)
Definition failure_leaves_reader_unchanged : Prop :=
  (forall m it t it' v,
      _gvariant_iter_next_entry_basic m it t = Ok (false, it', v) ->
      it' = it) /\
  (forall m it c it' c',
      _gvariant_iter_enter_struct m it c = Ok (false, it', c') -> it' = it) /\
  (forall m it c it' c',
      _gvariant_iter_enter_array m it c = Ok (false, it', c') -> it' = it) /\
  (forall m it c it' c',
      _gvariant_iter_enter_variant m it c = Ok (false, it', c') -> it' = it).


(** The cursor lies where neither aligning [pos] nor adding it to [data]
    wraps: [pos], rounded up to a multiple of 8 and added to the address
    of [data], stays below 2^64. *)
Definition pos_in_range (m : mem) (it : l_dbus_message_iter) : Prop :=
  0 <= pos it /\ 0 <= len it /\
  addr m (data it) + align_len (pos it) 8 < 2 ^ 64.



(** [members buf s e]: the bytes of [buf] from [s] up to [e] are a
    sequence of complete types, each accepted by [validate_next_type]. *)
Inductive members (buf : list Z) : Z -> Z -> Prop :=
| members_nil s : members buf s s
| members_cons s p e al :
    validate_next_type buf s = Ok (Some (p, al)) ->
    members buf p e -> members buf s e.

(** No byte of [buf] from [s] up to [e] is a variable-size type
    character. *)
Definition no_variable (buf : list Z) (s e : Z) : Prop :=
  forall i c, s <= i < e -> rd buf i = Ok c -> strchr variable_types c = false.

(** No byte of [buf] from [s] up to [e] is NUL. *)
Definition no_nul (buf : list Z) (s e : Z) : Prop :=
  forall i c, s <= i < e -> rd buf i = Ok c -> c <> 0.

(** One child handed out: [yields m it it'] when [next_item] returns an
    item, [next_basic] returns true or an [enter] operation returns true,
    and leaves the reader [it']. *)
Inductive yields (m : mem) (it it' : l_dbus_message_iter) : Prop :=
| yields_next_item start item_size :
    next_item m it = Ok (Some (start, item_size), it') -> yields m it it'
| yields_next_basic t v :
    _gvariant_iter_next_entry_basic m it t = Ok (true, it', v) ->
    yields m it it'
| yields_enter_struct c c' :
    _gvariant_iter_enter_struct m it c = Ok (true, it', c') -> yields m it it'
| yields_enter_array c c' :
    _gvariant_iter_enter_array m it c = Ok (true, it', c') -> yields m it it'
| yields_enter_variant c c' :
    _gvariant_iter_enter_variant m it c = Ok (true, it', c') -> yields m it it'.

(** [k] children handed out in a row. *)
Inductive yields_n (m : mem)
  : nat -> l_dbus_message_iter -> l_dbus_message_iter -> Prop :=
| yields_0 it : yields_n m O it it
| yields_S k it it' it'' :
    yields m it it' -> yields_n m k it' it'' -> yields_n m (S k) it it''.

(** ** Readers and frames of the scenarios *)

(** The signature of a struct of [n] bytes, and the frame of a variant
    holding such a struct: [n] bytes of value, the NUL, the signature. *)
Definition bytes_struct_sig (n : nat) : list Z :=
  chr "(" :: repeat (chr "y") n ++ [chr ")"].

Definition variant_frame (n : nat) : list Z :=
  repeat 0 n ++ [0] ++ bytes_struct_sig n.

(** The array reader of scenario S4 (elements 1, 2, 3 of type [i]) before
    the first element and after the second. *)
Definition s4_mem : mem :=
  mem_of (cstring "ai") [1; 0; 0; 0; 2; 0; 0; 0; 3; 0; 0; 0].

Definition s4_array (p : Z) : l_dbus_message_iter :=
  mk_iter 0 (Ptr 0 1) 1 0 (Ptr 1 0) 12 p DBUS_CONTAINER_TYPE_ARRAY NULL.

(** Scenario S3 after both children have been read: the signature is
    consumed, one byte of the frame (the offset word) lies past [pos]. *)
Definition s3_mem : mem :=
  mem_of (cstring "si") [104; 105; 0; 0; 7; 0; 0; 0; 3].

Definition s3_done : l_dbus_message_iter :=
  mk_iter 0 (Ptr 0 0) 2 2 (Ptr 1 0) 9 8 DBUS_CONTAINER_TYPE_STRUCT (Ptr 1 7).

(** A reader over signature "s" and the 2-byte frame 68 69, which holds
    no NUL, before and after a failed [next_basic('s')]. *)
Definition nonul_mem : mem := mem_of (cstring "s") [104; 105].

Definition nonul_iter (sp p : Z) : l_dbus_message_iter :=
  mk_iter 0 (Ptr 0 0) 1 sp (Ptr 1 0) 2 p DBUS_CONTAINER_TYPE_STRUCT NULL.

(** The array reader of scenario S5 (the strings "a" and "bb"): the
    two offset words 2 and 5 and the word 5 that locates them follow the
    strings. *)
Definition s5_mem : mem :=
  mem_of (cstring "as") [97; 0; 98; 98; 0; 2; 5].

Definition s5_array (p o : Z) : l_dbus_message_iter :=
  mk_iter 0 (Ptr 0 1) 1 0 (Ptr 1 0) 7 p DBUS_CONTAINER_TYPE_ARRAY (Ptr 1 o).

(** A 5-byte extent that is no UTF-8 text, no object path and no
    signature: FF FE 2F 2F 00. *)
Definition junk_mem : mem := mem_of (cstring "o") [255; 254; 47; 47; 0].

Definition junk_iter (sp p : Z) : l_dbus_message_iter :=
  mk_iter 0 (Ptr 0 0) 1 sp (Ptr 1 0) 5 p DBUS_CONTAINER_TYPE_STRUCT NULL.



(** A variant holding the byte 7: the value, the NUL, the signature "y";
    its reader before and after [enter_variant], and the child reader. *)
Definition byte_variant_mem : mem := mem_of (cstring "v") [7; 0; 121].

Definition byte_variant_iter (sp p : Z) : l_dbus_message_iter :=
  mk_iter 0 (Ptr 0 0) 1 sp (Ptr 1 0) 3 p DBUS_CONTAINER_TYPE_STRUCT NULL.

Definition byte_variant_child : l_dbus_message_iter :=
  mk_iter 0 (Ptr 1 2) 1 0 (Ptr 1 0) 1 0 DBUS_CONTAINER_TYPE_VARIANT NULL.

(** * Properties *)

(** ** The [res] monad *)

Lemma bind_Ok {A B : Type} (e : res A) (f : A -> res B) (v : B) :
  bind e f = Ok v -> exists a, e = Ok a /\ f a = Ok v.
Proof.
  destruct e as [a | |]; simpl; intros H; try discriminate.
  exists a; split; [reflexivity | exact H].
Qed.

Lemma bind_total {A B : Type} (e : res A) (f : A -> res B) :
  e <> OutOfFuel -> (forall a, e = Ok a -> f a <> OutOfFuel) ->
  bind e f <> OutOfFuel.
Proof.
  destruct e as [a | |]; simpl; intros He Hf.
  - apply Hf; reflexivity.
  - discriminate.
  - contradiction.
Qed.

(** Peel one [bind] off a hypothesis [bind e f = Ok v]. *)
Ltac inv_bind H :=
  let a := fresh "a" in
  let Ha := fresh "E" in
  apply bind_Ok in H; destruct H as [a [Ha H]].

Lemma rd_total (buf : list Z) (i : Z) : rd buf i <> OutOfFuel.
Proof.
  unfold rd. destruct (i <? 0); [discriminate |].
  destruct (nth_error buf (Z.to_nat i)); discriminate.
Qed.

Lemma rd_Ok_range (buf : list Z) (i c : Z) :
  rd buf i = Ok c -> 0 <= i < Z.of_nat (length buf).
Proof.
  unfold rd. destruct (i <? 0) eqn:Hi; [discriminate |].
  destruct (nth_error buf (Z.to_nat i)) eqn:Hn; [| discriminate].
  intros _. apply Z.ltb_ge in Hi.
  assert (Hlt : (Z.to_nat i < length buf)%nat)
    by (apply nth_error_Some; rewrite Hn; discriminate).
  lia.
Qed.

(** ** Alignments *)

Lemma strchr_simple_cases (s : Z) :
  strchr simple_types s = true ->
  s = 0 \/ In s simple_types.
Proof.
  unfold strchr. intros H. apply orb_true_iff in H. destruct H as [H | H].
  - left. apply Z.eqb_eq; exact H.
  - right. apply existsb_exists in H. destruct H as [x [Hin Hx]].
    apply Z.eqb_eq in Hx. subst x. exact Hin.
Qed.

Lemma basic_alignment_simple (s : Z) :
  In s simple_types -> is_alignment (get_basic_alignment s).
Proof.
  unfold simple_types, is_alignment. simpl.
  intros H.
  repeat (destruct H as [H | H]; [subst s; vm_compute; tauto |]).
  contradiction.
Qed.

Lemma basic_alignment_ok (s : Z) :
  s <> 0 -> strchr simple_types s || is_chr s "v" = true ->
  is_alignment (get_basic_alignment s).
Proof.
  intros Hs H. apply orb_true_iff in H. destruct H as [H | H].
  - apply strchr_simple_cases in H. destruct H as [H | H]; [contradiction |].
    apply basic_alignment_simple; exact H.
  - unfold is_chr in H. apply Z.eqb_eq in H. subst s.
    unfold is_alignment. vm_compute. tauto.
Qed.

Lemma key_alignment_cases (k : Z) :
  strchr simple_types k = true ->
  get_basic_alignment k = 0 \/ is_alignment (get_basic_alignment k).
Proof.
  intros H. apply strchr_simple_cases in H. destruct H as [H | H].
  - subst k. left. reflexivity.
  - right. apply basic_alignment_simple; exact H.
Qed.

Lemma max_alignment_ok (a b : Z) :
  is_alignment a -> is_alignment b ->
  is_alignment (if a >? b then a else b).
Proof. intros Ha Hb. destruct (a >? b); assumption. Qed.

(** ** The validator makes progress and always returns *)

Lemma validate_fuel_S (fuel : nat) (buf : list Z) (sig : Z) :
  validate_next_type_fuel (S fuel) buf sig =
  (s <- rd buf sig ;;
   if s =? 0 then ret None
   else if strchr simple_types s || is_chr s "v" then
     ret (Some (sig + 1, get_basic_alignment s))
   else if is_chr s "a" then validate_next_type_fuel fuel buf (sig + 1)
   else if is_chr s "{" then
     k <- rd buf (sig + 1) ;;
     if negb (strchr simple_types k) then ret None
     else
       r <- validate_next_type_fuel fuel buf (sig + 1 + 1) ;;
       match r with
       | None => ret None
       | Some (sig', out_alignment) =>
         c <- rd buf sig' ;;
         if negb (is_chr c "}") then ret None
         else ret (Some (sig' + 1,
                         if get_basic_alignment k >? out_alignment
                         then get_basic_alignment k else out_alignment))
       end
   else if is_chr s "(" then
     struct_members (validate_next_type_fuel fuel buf) buf (S fuel)
                    (sig + 1) 1
   else ret None).
Proof. reflexivity. Qed.

Section Validator.

Variable buf : list Z.

Lemma struct_members_progress (rec : Z -> res (option (Z * Z))) :
  advances buf rec ->
  forall (n : nat) (p mx j a : Z),
    is_alignment mx ->
    struct_members rec buf n p mx = Ok (Some (j, a)) ->
    p < j <= Z.of_nat (length buf) /\ is_alignment a.
Proof.
  intros Hrec. induction n as [| n IH]; intros p mx j a Hmx H; simpl in H.
  - discriminate.
  - inv_bind H. pose proof (rd_Ok_range _ _ _ E) as Hr.
    destruct (is_chr a0 ")").
    + inversion H; subst. split; [lia | assumption].
    + inv_bind H. destruct a1 as [[p' al] |]; [| discriminate].
      destruct (Hrec _ _ _ E0) as [Hp Hal].
      apply IH in H; [| apply max_alignment_ok; assumption].
      split; [lia | tauto].
Qed.

Lemma validate_fuel_progress (n : nat) : advances buf (validate_next_type_fuel n buf).
Proof.
  induction n as [| n IH]; intros q j a H.
  - discriminate.
  - rewrite validate_fuel_S in H.
    inv_bind H. pose proof (rd_Ok_range _ _ _ E) as Hr.
    destruct (a0 =? 0) eqn:Hz; [discriminate |].
    apply Z.eqb_neq in Hz.
    destruct (strchr simple_types a0 || is_chr a0 "v") eqn:Hs.
    { inversion H; subst. split; [lia |].
      apply basic_alignment_ok; assumption. }
    destruct (is_chr a0 "a").
    { apply IH in H. split; [lia | tauto]. }
    destruct (is_chr a0 "{").
    { inv_bind H. destruct (strchr simple_types a1) eqn:Hk; simpl in H;
        [| discriminate].
      inv_bind H. destruct a2 as [[p' al] |]; [| discriminate].
      inv_bind H. pose proof (rd_Ok_range _ _ _ E2) as Hr2.
      destruct (is_chr a2 "}"); simpl in H; [| discriminate].
      inversion H; subst. destruct (IH _ _ _ E1) as [Hp Hal].
      split; [lia |].
      destruct (key_alignment_cases _ Hk) as [K | K].
      - rewrite K. destruct Hal as [-> | [-> | [-> | ->]]];
          simpl; unfold is_alignment; tauto.
      - apply max_alignment_ok; assumption. }
    destruct (is_chr a0 "(").
    { apply struct_members_progress in H; try assumption.
      - split; [lia | tauto].
      - unfold is_alignment; tauto. }
    discriminate.
Qed.

Lemma struct_members_total (rec : Z -> res (option (Z * Z))) (p0 : Z) :
  advances buf rec ->
  (forall q, p0 <= q -> rec q <> OutOfFuel) ->
  forall (n : nat) (p mx : Z),
    p0 <= p -> (0 < n)%nat -> Z.of_nat (length buf) - p < Z.of_nat n ->
    struct_members rec buf n p mx <> OutOfFuel.
Proof.
  intros Hadv Hrec. induction n as [| n IH]; intros p mx Hp Hn Hlen.
  - lia.
  - simpl. apply bind_total; [apply rd_total |].
    intros c Hc. pose proof (rd_Ok_range _ _ _ Hc) as Hr.
    destruct (is_chr c ")"); [discriminate |].
    apply bind_total; [apply Hrec; exact Hp |].
    intros [[p' al] |] Hr'; [| discriminate].
    destruct (Hadv _ _ _ Hr') as [Hp' _].
    apply IH; lia.
Qed.

Lemma validate_fuel_total (n : nat) :
  forall i, (0 < n)%nat -> Z.of_nat (length buf) - i < Z.of_nat n ->
            validate_next_type_fuel n buf i <> OutOfFuel.
Proof.
  induction n as [| n IH]; intros i Hn Hlen.
  - lia.
  - rewrite validate_fuel_S. apply bind_total; [apply rd_total |].
    intros s Hs. pose proof (rd_Ok_range _ _ _ Hs) as Hr.
    destruct (s =? 0); [discriminate |].
    destruct (strchr simple_types s || is_chr s "v"); [discriminate |].
    destruct (is_chr s "a"); [apply IH; lia |].
    destruct (is_chr s "{").
    { apply bind_total; [apply rd_total |].
      intros k Hk. pose proof (rd_Ok_range _ _ _ Hk) as Hrk.
      destruct (negb (strchr simple_types k)); [discriminate |].
      apply bind_total; [apply IH; lia |].
      intros [[p' al] |] _; [| discriminate].
      apply bind_total; [apply rd_total |].
      intros c _. destruct (negb (is_chr c "}")); discriminate. }
    destruct (is_chr s "("); [| discriminate].
    apply struct_members_total with (p0 := i + 1); try lia.
    + apply validate_fuel_progress.
    + intros q Hq. apply IH; lia.
Qed.

Lemma validate_next_type_total (i : Z) : validate_next_type buf i <> OutOfFuel.
Proof.
  unfold validate_next_type.
  destruct (Z.ltb_spec i 0) as [Hneg | Hpos].
  - simpl. unfold rd. apply Z.ltb_lt in Hneg. rewrite Hneg. discriminate.
  - apply validate_fuel_total; lia.
Qed.

Lemma validate_next_type_progress : advances buf (validate_next_type buf).
Proof. apply validate_fuel_progress. Qed.

End Validator.

Create HintDb total.

#[export] Hint Resolve rd_total validate_next_type_total : total.

(** Discharge a goal [e <> OutOfFuel] along the structure of [e]. *)
Ltac solve_total :=
  repeat first
    [ discriminate
    | assumption
    | solve [auto with total]
    | apply bind_total; [| intros ? ? ]
    | match goal with
      | |- (match ?x with _ => _ end) <> OutOfFuel => destruct x
      | |- (let '(_, _) := ?x in _) <> OutOfFuel => destruct x
      end ].

Lemma validate_Ok_first (buf : list Z) (s : Z) (r : Z * Z) :
  validate_next_type buf s = Ok (Some r) ->
  exists c, rd buf s = Ok c /\ c <> 0.
Proof.
  unfold validate_next_type. rewrite validate_fuel_S. intros H.
  inv_bind H. exists a. split; [assumption |].
  destruct (a =? 0) eqn:Hz; [discriminate |].
  apply Z.eqb_neq; exact Hz.
Qed.

Section Signature.

Variable buf : list Z.

Lemma valid_signature_loop_total (n : nat) :
  forall s, (0 < n)%nat -> Z.of_nat (length buf) - s < Z.of_nat n ->
            valid_signature_loop n buf s <> OutOfFuel.
Proof.
  induction n as [| n IH]; intros s Hn Hlen; [lia |].
  simpl. apply bind_total; [apply validate_next_type_total |].
  intros [[s' al] |] Hv; [| discriminate].
  destruct (validate_next_type_progress _ _ _ _ Hv) as [Hs' _].
  apply bind_total; [apply rd_total |].
  intros c' Hc'. pose proof (rd_Ok_range _ _ _ Hc').
  destruct (c' =? 0); [discriminate |].
  apply IH; lia.
Qed.

Lemma num_children_loop_total (n : nat) :
  forall s c, (0 < n)%nat -> Z.of_nat (length buf) - s < Z.of_nat n ->
              num_children_loop n buf s c <> OutOfFuel.
Proof.
  induction n as [| n IH]; intros s c Hn Hlen; [lia |].
  simpl. apply bind_total; [apply validate_next_type_total |].
  intros [[s' al] |] Hv; [| discriminate].
  destruct (validate_next_type_progress _ _ _ _ Hv) as [Hs' _].
  apply bind_total; [apply rd_total |].
  intros c' Hc'. pose proof (rd_Ok_range _ _ _ Hc').
  destruct (c' =? 0); [discriminate |].
  apply IH; lia.
Qed.

Lemma validate_negative (s : Z) : s < 0 -> validate_next_type buf s = Fault.
Proof.
  intros Hneg. unfold validate_next_type. rewrite validate_fuel_S.
  unfold rd. apply Z.ltb_lt in Hneg. rewrite Hneg. reflexivity.
Qed.

Lemma _gvariant_valid_signature_total (sig : Z) :
  _gvariant_valid_signature buf sig <> OutOfFuel.
Proof.
  unfold _gvariant_valid_signature.
  destruct (Z.ltb_spec sig 0) as [Hneg | Hpos].
  - simpl. rewrite (validate_negative _ Hneg). discriminate.
  - apply valid_signature_loop_total; lia.
Qed.

Lemma _gvariant_num_children_total (sig : Z) :
  _gvariant_num_children buf sig <> OutOfFuel.
Proof.
  unfold _gvariant_num_children.
  destruct (Z.ltb_spec sig 0) as [Hneg | Hpos].
  - simpl. rewrite (validate_negative _ Hneg). discriminate.
  - apply num_children_loop_total; lia.
Qed.

(** The counting loop walks the types the validating loop has accepted. *)
Lemma num_children_of_valid (n : nat) :
  forall s, valid_signature_loop n buf s = Ok true ->
            forall c, exists k, num_children_loop n buf s c = Ok k /\
                                c + 1 <= k.
Proof.
  induction n as [| n IH]; intros s H c; simpl in H; [discriminate |].
  inv_bind H. destruct a as [[s' al] |]; [| discriminate].
  inv_bind H. simpl. rewrite E. simpl. rewrite E0. simpl.
  destruct (a =? 0).
  - exists (c + 1). split; [reflexivity | lia].
  - destruct (IH _ H (c + 1)) as [k [Hk Hle]].
    exists k. split; [exact Hk | lia].
Qed.

Lemma get_alignment_loop_total (n : nat) :
  forall s mx, (0 < n)%nat -> Z.of_nat (length buf) - s < Z.of_nat n ->
               get_alignment_loop n buf s mx <> OutOfFuel.
Proof.
  induction n as [| n IH]; intros s mx Hn Hlen; [lia |].
  simpl. apply bind_total; [apply rd_total |].
  intros c Hc. pose proof (rd_Ok_range _ _ _ Hc).
  destruct ((c =? 0) || (mx =? 8)); [discriminate |].
  apply bind_total; [apply validate_next_type_total |].
  intros [[s' al] |] Hv; [| discriminate].
  destruct (validate_next_type_progress _ _ _ _ Hv) as [Hs' _].
  apply IH; lia.
Qed.

Lemma _gvariant_get_alignment_total (sig : Z) :
  _gvariant_get_alignment buf sig <> OutOfFuel.
Proof.
  unfold _gvariant_get_alignment.
  destruct (Z.ltb_spec sig 0) as [Hneg | Hpos].
  - simpl. unfold rd. apply Z.ltb_lt in Hneg. rewrite Hneg. discriminate.
  - apply get_alignment_loop_total; lia.
Qed.

(** The alignment loop walks the types the validating loop has
    accepted. *)
Lemma get_alignment_of_valid (n : nat) :
  forall s,
    valid_signature_loop n buf s = Ok true ->
    forall n' mx, is_alignment mx ->
                  Z.of_nat (length buf) - s < Z.of_nat n' ->
                  exists a, get_alignment_loop n' buf s mx = Ok a /\
                            is_alignment a.
Proof.
  induction n as [| n IH]; intros s H n' mx Hmx Hlen; simpl in H;
    [discriminate |].
  inv_bind H. destruct a as [[s' al] |]; [| discriminate].
  inv_bind H.
  destruct (validate_Ok_first _ _ _ E) as [c0 [Hc0 Hnz]].
  destruct (validate_next_type_progress _ _ _ _ E) as [Hs' Hal].
  pose proof (rd_Ok_range _ _ _ Hc0) as Hr0.
  pose proof (rd_Ok_range _ _ _ E0) as Hr1.
  destruct n' as [| n']; [lia |].
  simpl. rewrite Hc0. simpl.
  apply Z.eqb_neq in Hnz. rewrite Hnz. simpl.
  destruct (mx =? 8) eqn:H8.
  { exists mx. split; [reflexivity | assumption]. }
  rewrite E. simpl.
  assert (Hmx' : is_alignment (if al >? mx then al else mx))
    by (apply max_alignment_ok; assumption).
  destruct (a =? 0) eqn:Ha.
  - apply Z.eqb_eq in Ha. subst a.
    destruct n' as [| n']; [lia |].
    simpl. rewrite E0. simpl. eexists; split; [reflexivity | assumption].
  - eapply IH; [exact H | assumption | lia].
Qed.

Lemma is_fixed_size_loop_total (n : nat) :
  forall s, (0 < n)%nat -> Z.of_nat (length buf) - s < Z.of_nat n ->
            is_fixed_size_loop n buf s <> OutOfFuel.
Proof.
  induction n as [| n IH]; intros s Hn Hlen; [lia |].
  simpl. apply bind_total; [apply rd_total |].
  intros c Hc. pose proof (rd_Ok_range _ _ _ Hc).
  destruct (c =? 0); [discriminate |].
  destruct (strchr variable_types c); [discriminate |].
  apply IH; lia.
Qed.

Lemma _gvariant_is_fixed_size_total (sig : Z) :
  _gvariant_is_fixed_size buf sig <> OutOfFuel.
Proof.
  unfold _gvariant_is_fixed_size.
  destruct (Z.ltb_spec sig 0) as [Hneg | Hpos].
  - simpl. unfold rd. apply Z.ltb_lt in Hneg. rewrite Hneg. discriminate.
  - apply is_fixed_size_loop_total; lia.
Qed.

Lemma fixed_size_scan_total (rec : Z -> res Z) (p0 : Z) :
  (forall q, p0 < q -> rec q <> OutOfFuel) ->
  forall (n : nat) (s size mx : Z),
    p0 <= s -> (0 < n)%nat -> Z.of_nat (length buf) - s < Z.of_nat n ->
    fixed_size_scan rec buf n s size mx <> OutOfFuel.
Proof.
  intros Hrec. induction n as [| n IH]; intros s size mx Hs Hn Hlen; [lia |].
  simpl. apply bind_total; [apply rd_total |].
  intros c Hc. pose proof (rd_Ok_range _ _ _ Hc).
  destruct (c =? 0); [discriminate |].
  destruct (strchr variable_types c); [discriminate |].
  destruct (strchr fixed_types c); [apply IH; lia |].
  destruct (is_chr c "}" || is_chr c ")"); [discriminate |].
  apply bind_total; [apply validate_next_type_total |].
  intros [[p al] |] Hv; [| discriminate].
  destruct (validate_next_type_progress _ _ _ _ Hv) as [Hp _].
  apply bind_total.
  { destruct (is_chr c "("); [| discriminate].
    apply bind_total; [apply rd_total | discriminate]. }
  intros unit _. apply bind_total.
  { destruct unit; [discriminate | apply Hrec; lia]. }
  intros r _. destruct (r =? 0); [discriminate |].
  apply IH; lia.
Qed.

Lemma get_fixed_size_fuel_S (n : nat) (s : Z) :
  get_fixed_size_fuel (S n) buf s =
  fixed_size_scan (get_fixed_size_fuel n buf) buf (S n) s 0 1.
Proof. reflexivity. Qed.

Lemma get_fixed_size_fuel_total (n : nat) :
  forall s, (0 < n)%nat -> Z.of_nat (length buf) - s < Z.of_nat n ->
            get_fixed_size_fuel n buf s <> OutOfFuel.
Proof.
  induction n as [| n IH]; intros s Hn Hlen; [lia |].
  rewrite get_fixed_size_fuel_S.
  destruct (rd buf s) as [c | |] eqn:Hc.
  - pose proof (rd_Ok_range _ _ _ Hc).
    apply fixed_size_scan_total with (p0 := s); try lia.
    intros q Hq. apply IH; lia.
  - cbn [fixed_size_scan]. rewrite Hc. discriminate.
  - exfalso. revert Hc. apply rd_total.
Qed.

Lemma _gvariant_get_fixed_size_total (sig : Z) :
  _gvariant_get_fixed_size buf sig <> OutOfFuel.
Proof.
  unfold _gvariant_get_fixed_size.
  destruct (Z.ltb_spec sig 0) as [Hneg | Hpos].
  - rewrite get_fixed_size_fuel_S. cbn [fixed_size_scan].
    unfold rd. apply Z.ltb_lt in Hneg. rewrite Hneg. discriminate.
  - apply get_fixed_size_fuel_total; lia.
Qed.

End Signature.

#[export] Hint Resolve _gvariant_valid_signature_total
  _gvariant_num_children_total _gvariant_get_alignment_total
  _gvariant_is_fixed_size_total _gvariant_get_fixed_size_total : total.

(** ** The reader always returns *)

Lemma strlen_list_total (l : list Z) : strlen_list l <> OutOfFuel.
Proof.
  induction l as [| c tl IH]; simpl; [discriminate |].
  destruct (c =? 0); [discriminate |]. solve_total.
Qed.

Lemma memchr_list_total (l : list Z) :
  forall n i, memchr_list l n i <> OutOfFuel.
Proof.
  induction l as [| c tl IH]; intros n i; simpl.
  - destruct (n <=? 0); discriminate.
  - destruct (n <=? 0); [discriminate |].
    destruct (c =? 0); [discriminate | apply IH].
Qed.

Lemma load_bytes_total (m : mem) (p : ptr) (n : Z) :
  load_bytes m p n <> OutOfFuel.
Proof. unfold load_bytes. solve_total. Qed.

Lemma load_total (m : mem) (p : ptr) : load m p <> OutOfFuel.
Proof. unfold load. solve_total. Qed.

Lemma ptr_diff_total (p q : ptr) : ptr_diff p q <> OutOfFuel.
Proof. unfold ptr_diff. solve_total. Qed.


#[export] Hint Resolve strlen_list_total memchr_list_total load_bytes_total
  load_total ptr_diff_total : total.

Lemma read_word_le_total (m : mem) (p : ptr) (sz : Z) :
  read_word_le m p sz <> OutOfFuel.
Proof. unfold read_word_le. solve_total. Qed.

Lemma memchr0_total (m : mem) (p : ptr) (n : Z) : memchr0 m p n <> OutOfFuel.
Proof. unfold memchr0. solve_total. Qed.

Lemma memrchr0_total (m : mem) (p : ptr) (n : Z) : memrchr0 m p n <> OutOfFuel.
Proof. unfold memrchr0. solve_total. Qed.

Lemma copy_window_total (m : mem) (p q : ptr) : copy_window m p q <> OutOfFuel.
Proof. unfold copy_window. solve_total. Qed.

#[export] Hint Resolve read_word_le_total memchr0_total memrchr0_total
  copy_window_total : total.

Lemma scan_children_total (k : nat) (m : mem) (b : nat) (sig0 nc : Z) :
  forall i p subsig nv,
    scan_children k m b sig0 nc i p subsig nv <> OutOfFuel.
Proof.
  induction k as [| k IH]; intros i p subsig nv; simpl; [discriminate |].
  solve_total; try apply IH.
Qed.

Lemma layout_children_total (m : mem) (data : ptr) (len ol lo : Z)
      (children : list gvariant_type_info) :
  forall i pe v nv,
    layout_children m data len ol lo children i pe v nv <> OutOfFuel.
Proof.
  induction children as [| c rest IH]; intros i pe v nv; simpl;
    [discriminate |].
  solve_total; try apply IH.
Qed.

#[export] Hint Resolve scan_children_total layout_children_total : total.

Lemma gvariant_iter_init_internal_total m iter msg type sig_start sig_end
      data len :
  gvariant_iter_init_internal m iter msg type sig_start sig_end data len
  <> OutOfFuel.
Proof. unfold gvariant_iter_init_internal. solve_total. Qed.

Lemma next_item_total (m : mem) (iter : l_dbus_message_iter) :
  next_item m iter <> OutOfFuel.
Proof. unfold next_item. solve_total. Qed.

#[export] Hint Resolve gvariant_iter_init_internal_total next_item_total
  : total.

Lemma sig_char_total m it : sig_char m it <> OutOfFuel.
Proof. unfold sig_char. solve_total. Qed.

#[export] Hint Resolve sig_char_total : total.

Lemma get_u_total m w p : get_u m w p <> OutOfFuel.
Proof. unfold get_u. solve_total. Qed.

Lemma get_s_total m w p : get_s m w p <> OutOfFuel.
Proof. unfold get_s. solve_total. Qed.

#[export] Hint Resolve get_u_total get_s_total : total.

Lemma decode_basic_total m type start item_size :
  decode_basic m type start item_size <> OutOfFuel.
Proof. unfold decode_basic. solve_total. Qed.

#[export] Hint Resolve decode_basic_total : total.





(** * The claims *)

(** ** Scenario S3: the struct [(si)] of ("hi", 7) *)

(** C3: over the 9-byte frame 68 69 00 <pad> 07 00 00 00 03 read as a
    struct with signature "si", whatever the pad byte is,
    [next_basic('s')] succeeds with the pointer to offset 0 of the frame,
    where the NUL-terminated string "hi" lies, and the following
    [next_basic('i')] succeeds with the value 7. *)
Theorem C3_struct_si_reads_hi_then_7 :
  forall pad : Z,
    let m := mem_of (cstring "si") [104; 105; 0; pad; 7; 0; 0; 0; 3] in
    let it0 := mk_iter 0 (Ptr 0 0) 2 0 (Ptr 1 0) 9 0
                       DBUS_CONTAINER_TYPE_STRUCT (Ptr 1 8) in
    let it1 := mk_iter 0 (Ptr 0 0) 2 1 (Ptr 1 0) 9 3
                       DBUS_CONTAINER_TYPE_STRUCT (Ptr 1 7) in
    let it2 := mk_iter 0 (Ptr 0 0) 2 2 (Ptr 1 0) 9 8
                       DBUS_CONTAINER_TYPE_STRUCT (Ptr 1 7) in
    _gvariant_iter_init m blank_iter 0 (Ptr 0 0) NULL (Ptr 1 0) 9
      = Ok (true, it0) /\
    _gvariant_iter_next_entry_basic m it0 (chr "s")
      = Ok (true, it1, VString (Ptr 1 0)) /\
    load_cstring m (Ptr 1 0) = Ok (bytes_of_string "hi") /\
    _gvariant_iter_next_entry_basic m it1 (chr "i")
      = Ok (true, it2, VInt 7).
Proof.
  intros pad m it0 it1 it2. subst m it0 it1 it2.
  repeat split; vm_compute; reflexivity.
Qed.

(** ** Short frames *)

(** C2: a reader over signature "i" whose frame is the first byte of the
    four bytes 07 01 00 00.  Initialisation accepts the 1-byte frame (the
    bound check on a fixed child is skipped for the first child), and
    [next_basic('i')] returns true with 0x107 = 263: it has read the three
    bytes that follow the frame.  When nothing follows the frame the read
    leaves the object. *)
Theorem C2_one_byte_frame_is_read_past_its_end :
  let it0 := mk_iter 0 (Ptr 0 0) 1 0 (Ptr 1 0) 1 0
                     DBUS_CONTAINER_TYPE_STRUCT NULL in
  let it1 := mk_iter 0 (Ptr 0 0) 1 1 (Ptr 1 0) 1 4
                     DBUS_CONTAINER_TYPE_STRUCT NULL in
  (let m := mem_of (cstring "i") [7; 1; 0; 0] in
   _gvariant_iter_init m blank_iter 0 (Ptr 0 0) NULL (Ptr 1 0) 1
     = Ok (true, it0) /\
   _gvariant_iter_next_entry_basic m it0 (chr "i")
     = Ok (true, it1, VInt 263)) /\
  (let m := mem_of (cstring "i") [7] in
   _gvariant_iter_init m blank_iter 0 (Ptr 0 0) NULL (Ptr 1 0) 1
     = Ok (true, it0) /\
   _gvariant_iter_next_entry_basic m it0 (chr "i") = Fault).
Proof. repeat split; vm_compute; reflexivity. Qed.

(** ** Empty array of variable-size elements *)

(** C9: [gvariant_iter_init_internal] for an ARRAY reader with element
    signature "s" over an empty frame ([len = 0]) reads the word at
    [data + len - 1], the byte before the frame: with the frame at the
    start of its object the read leaves the object, and with a byte in
    front of the frame the reader's [offsets] is that byte's value (9 or
    3 here).  [enter_array] on the signature "asy" with the frame 05 00
    (an empty array, then the byte 5, then the offset word 0) reaches
    that call. *)
Theorem C9_empty_array_reads_before_the_frame :
  gvariant_iter_init_internal (mem_of (cstring "s") []) blank_iter 0
    DBUS_CONTAINER_TYPE_ARRAY (Ptr 0 0) (Ptr 0 1) (Ptr 1 0) 0 = Fault /\
  gvariant_iter_init_internal (mem_of (cstring "s") [9]) blank_iter 0
    DBUS_CONTAINER_TYPE_ARRAY (Ptr 0 0) (Ptr 0 1) (Ptr 1 1) 0
    = Ok (true, mk_iter 0 (Ptr 0 0) 1 0 (Ptr 1 1) 0 0
                        DBUS_CONTAINER_TYPE_ARRAY (Ptr 1 10)) /\
  gvariant_iter_init_internal (mem_of (cstring "s") [3]) blank_iter 0
    DBUS_CONTAINER_TYPE_ARRAY (Ptr 0 0) (Ptr 0 1) (Ptr 1 1) 0
    = Ok (true, mk_iter 0 (Ptr 0 0) 1 0 (Ptr 1 1) 0 0
                        DBUS_CONTAINER_TYPE_ARRAY (Ptr 1 4)) /\
  (let m := mem_of (cstring "asy") [5; 0] in
   let it0 := mk_iter 0 (Ptr 0 0) 3 0 (Ptr 1 0) 2 0
                      DBUS_CONTAINER_TYPE_STRUCT (Ptr 1 1) in
   _gvariant_iter_init m blank_iter 0 (Ptr 0 0) NULL (Ptr 1 0) 2
     = Ok (true, it0) /\
   _gvariant_iter_enter_array m it0 blank_iter = Fault).
Proof. repeat split; vm_compute; reflexivity. Qed.

(** ** The validator on a dangling dict entry *)

(** C4: on the string "{" the validator takes the terminator for the
    key of the dict entry ([strchr] finds the NUL of [simple_types]) and
    goes on to read the value type one past the terminator.  In an object
    that ends with the string the read leaves the object; when the bytes
    "i}" and a NUL follow the terminator, "{" is declared valid. *)
Theorem C4_validator_reads_past_the_terminator :
  _gvariant_valid_signature (cstring "{") 0 = Fault /\
  _gvariant_valid_signature (cstring "{" ++ cstring "i}") 0 = Ok true.
Proof. split; vm_compute; reflexivity. Qed.

(** ** The unit type *)

(** C5: the signature "()" is valid and of fixed size 1, alignment 1; a
    reader over a 1-byte frame initialises, but entering the unit struct
    hands an empty signature window to [gvariant_iter_init_internal]:
    [_gvariant_num_children] returns -1, which [n_children] holds as
    255, and the first loop runs [validate_next_type] to NULL on the
    closing parenthesis. *)
Theorem C5_unit_struct_cannot_be_entered :
  let m := mem_of (cstring "()") [0] in
  let it0 := mk_iter 0 (Ptr 0 0) 2 0 (Ptr 1 0) 1 0
                     DBUS_CONTAINER_TYPE_STRUCT NULL in
  _gvariant_valid_signature (cstring "()") 0 = Ok true /\
  _gvariant_is_fixed_size (cstring "()") 0 = Ok true /\
  _gvariant_get_fixed_size (cstring "()") 0 = Ok 1 /\
  _gvariant_get_alignment (cstring "()") 0 = Ok 1 /\
  _gvariant_iter_init m blank_iter 0 (Ptr 0 0) NULL (Ptr 1 0) 1
    = Ok (true, it0) /\
  _gvariant_num_children (cstring "") 0 = Ok (-1) /\
  _gvariant_iter_enter_struct m it0 blank_iter = Fault.
Proof. repeat split; vm_compute; reflexivity. Qed.

(** ** Variants *)

(** C6: a variant whose signature is 255 bytes long (a struct of 253
    bytes) passes the length check, and the terminator of its copy is
    stored at [signature[255]], one past the 255-cell array; the same
    variant with a 254-byte signature is entered. *)
Theorem C6_variant_signature_of_255_bytes_overflows :
  (let m := mem_of (cstring "v") (variant_frame 253) in
   let it0 := mk_iter 0 (Ptr 0 0) 1 0 (Ptr 1 0) 509 0
                      DBUS_CONTAINER_TYPE_STRUCT NULL in
   _gvariant_iter_init m blank_iter 0 (Ptr 0 0) NULL (Ptr 1 0) 509
     = Ok (true, it0) /\
   _gvariant_valid_signature (bytes_struct_sig 253 ++ [0]) 0 = Ok true /\
   _gvariant_num_children (bytes_struct_sig 253 ++ [0]) 0 = Ok 1 /\
   Z.of_nat (length (bytes_struct_sig 253)) = 255 /\
   _gvariant_iter_enter_variant m it0 blank_iter = Fault) /\
  (let m := mem_of (cstring "v") (variant_frame 252) in
   let it0 := mk_iter 0 (Ptr 0 0) 1 0 (Ptr 1 0) 507 0
                      DBUS_CONTAINER_TYPE_STRUCT NULL in
   _gvariant_iter_init m blank_iter 0 (Ptr 0 0) NULL (Ptr 1 0) 507
     = Ok (true, it0) /\
   _gvariant_iter_enter_variant m it0 blank_iter
     = Ok (true,
           mk_iter 0 (Ptr 0 0) 1 1 (Ptr 1 0) 507 507
                   DBUS_CONTAINER_TYPE_STRUCT NULL,
           mk_iter 0 (Ptr 1 253) 254 0 (Ptr 1 0) 252 0
                   DBUS_CONTAINER_TYPE_VARIANT NULL)).
Proof. repeat split; vm_compute; reflexivity. Qed.

(** ** What an operation leaves in place *)

Lemma same_frame_refl (it : l_dbus_message_iter) : same_frame it it.
Proof. unfold same_frame; tauto. Qed.

Lemma same_frame_trans (a b c : l_dbus_message_iter) :
  same_frame a b -> same_frame b c -> same_frame a c.
Proof.
  unfold same_frame. intros H1 H2.
  destruct H1 as (?&?&?&?&?&?), H2 as (?&?&?&?&?&?).
  repeat split; congruence.
Qed.

#[export] Hint Resolve same_frame_refl : core.

(** Take a hypothesis [e = Ok v] apart along the structure of [e]. *)
Ltac inv_res H :=
  repeat match type of H with
         | bind _ _ = Ok _ => inv_bind H
         | (if ?c then _ else _) = Ok _ => destruct c eqn:?
         | (match ?x with _ => _ end) = Ok _ => destruct x eqn:?
         | (let '(_, _) := ?x in _) = Ok _ => destruct x eqn:?
         | Fault = Ok _ => discriminate H
         | OutOfFuel = Ok _ => discriminate H
         end.

Lemma next_item_done_spec (m : mem) (it it' : l_dbus_message_iter) (sz : Z)
      (r : option (ptr * Z)) :
  next_item_done m it sz = (r, it') ->
  same_frame it it' /\ sig_pos it' = sig_pos it /\
  offsets it' = offsets it /\
  (forall s z, r = Some (s, z) ->
               0 < addr_add m (data it) (pos it)
               < addr_add m (data it) (len it) /\
               s = ptr_add (data it) (pos it) /\ z = sz /\
               pos it' = size_t (pos it + sz)).
Proof.
  unfold next_item_done.
  destruct (Z.geb_spec (addr_add m (data it) (pos it))
                       (addr_add m (data it) (len it))) as [Hge | Hlt];
    [| destruct (Z.eqb_spec (addr_add m (data it) (pos it)) 0)
         as [Hz | Hz]];
    intros H; inversion H; subst; clear H.
  - split; [apply same_frame_refl |].
    split; [reflexivity |]. split; [reflexivity | discriminate].
  - split; [unfold same_frame; simpl; tauto |].
    split; [reflexivity |]. split; [reflexivity | discriminate].
  - split; [unfold same_frame; simpl; tauto |].
    split; [reflexivity |]. split; [reflexivity |].
    intros s0 z0 Hs; inversion Hs; subst. simpl.
    assert (0 <= addr_add m (data it) (pos it)).
    { unfold addr_add. destruct (data it);
        apply Z.mod_pos_bound; reflexivity. }
    repeat split; try reflexivity; lia.
Qed.

(** The reader after the cursor updates of [next_item]. *)
Lemma cursor_updates_frame (it : l_dbus_message_iter) (k p : Z) :
  let iter1 := if is_array (container_type it) then it
               else set_sig_pos it k in
  let iter2 := set_pos iter1 p in
  same_frame it iter2 /\
  (is_array (container_type it) = true -> sig_pos iter2 = sig_pos it) /\
  len iter2 = len it /\ pos iter2 = p /\
  container_type iter2 = container_type it /\ offsets iter2 = offsets it /\
  data iter2 = data it.
Proof.
  destruct (is_array (container_type it)) eqn:Ha; unfold same_frame; simpl;
    repeat split; auto; discriminate.
Qed.

(** [next_item] assigns [sig_pos], [pos] and [offsets] only, and
    [sig_pos] only when the reader is not an array reader. *)
Lemma next_item_frame (m : mem) (it it' : l_dbus_message_iter)
      (r : option (ptr * Z)) :
  next_item m it = Ok (r, it') ->
  same_frame it it' /\
  (is_array (container_type it) = true -> sig_pos it' = sig_pos it).
Proof.
  unfold next_item. intros H.
  destruct (is_array (container_type it)) eqn:Ha;
    inv_res H; unfold ret in H;
    match type of H with
    | Ok (next_item_done _ _ _) = _ =>
      injection H as Hd; apply next_item_done_spec in Hd;
        destruct Hd as (Hf & Hsp & _);
        unfold same_frame in *; simpl in *;
        repeat split; try discriminate; try intros _; intuition congruence
    | _ =>
      inversion H; subst; clear H;
        unfold same_frame; simpl;
        repeat split; try discriminate; try intros _; reflexivity
    end.
Qed.

Lemma _gvariant_iter_next_entry_basic_frame m it t ok it' v :
  _gvariant_iter_next_entry_basic m it t = Ok (ok, it', v) ->
  same_frame it it' /\
  (is_array (container_type it) = true -> sig_pos it' = sig_pos it).
Proof.
  unfold _gvariant_iter_next_entry_basic. intros H. inv_res H;
    unfold ret in H; inversion H; subst; clear H; auto;
    eapply next_item_frame; eassumption.
Qed.

Lemma _gvariant_iter_enter_struct_frame m it c ok it' c' :
  _gvariant_iter_enter_struct m it c = Ok (ok, it', c') ->
  same_frame it it' /\
  (is_array (container_type it) = true -> sig_pos it' = sig_pos it).
Proof.
  unfold _gvariant_iter_enter_struct. intros H. inv_res H;
    unfold ret in H; inversion H; subst; clear H; auto;
    eapply next_item_frame; eassumption.
Qed.

Lemma _gvariant_iter_enter_variant_frame m it c ok it' c' :
  _gvariant_iter_enter_variant m it c = Ok (ok, it', c') ->
  same_frame it it' /\
  (is_array (container_type it) = true -> sig_pos it' = sig_pos it).
Proof.
  unfold _gvariant_iter_enter_variant. intros H. inv_res H;
    unfold ret in H; inversion H; subst; clear H; auto;
    eapply next_item_frame; eassumption.
Qed.

Lemma _gvariant_iter_enter_array_frame m it c ok it' c' :
  _gvariant_iter_enter_array m it c = Ok (ok, it', c') ->
  same_frame it it' /\
  (is_array (container_type it) = true -> sig_pos it' = sig_pos it).
Proof.
  unfold _gvariant_iter_enter_array. intros H. inv_res H;
    unfold ret in H; inversion H; subst; clear H; auto;
    eapply next_item_frame; eassumption.
Qed.

(** ** Array readers keep their signature cursor *)

Lemma step_frame (m : mem) (it it' : l_dbus_message_iter) :
  step m it it' ->
  same_frame it it' /\
  (is_array (container_type it) = true -> sig_pos it' = sig_pos it).
Proof.
  intros [r H | t ok v H | c ok c' H | c ok c' H | c ok c' H].
  - eapply next_item_frame; eassumption.
  - eapply _gvariant_iter_next_entry_basic_frame; eassumption.
  - eapply _gvariant_iter_enter_struct_frame; eassumption.
  - eapply _gvariant_iter_enter_array_frame; eassumption.
  - eapply _gvariant_iter_enter_variant_frame; eassumption.
Qed.

(** The reader an operation leaves is the one it was given or the one
    [next_item] has left. *)
Lemma step_via_next_item (m : mem) (it it' : l_dbus_message_iter) :
  step m it it' -> it' = it \/ exists r, next_item m it = Ok (r, it').
Proof.
  intros [r H | t ok v H | c ok c' H | c ok c' H | c ok c' H].
  - right. exists r. exact H.
  - unfold _gvariant_iter_next_entry_basic in H.
    inv_res H; subst; unfold ret in H; inversion H; subst;
      solve [left; reflexivity | right; eexists; eassumption].
  - unfold _gvariant_iter_enter_struct in H.
    inv_res H; subst; unfold ret in H; inversion H; subst;
      solve [left; reflexivity | right; eexists; eassumption].
  - unfold _gvariant_iter_enter_array in H.
    inv_res H; subst; unfold ret in H; inversion H; subst;
      solve [left; reflexivity | right; eexists; eassumption].
  - unfold _gvariant_iter_enter_variant in H.
    inv_res H; subst; unfold ret in H; inversion H; subst;
      solve [left; reflexivity | right; eexists; eassumption].
Qed.

(** C8: for a reader whose container type is ARRAY, no operation
    ([next_item], [next_basic], [enter_struct], [enter_array],
    [enter_variant]) and no sequence of them changes [sig_pos]; the
    reader stays an array reader, so the element signature is read from
    the same position for every element. *)
Theorem C8_array_reader_keeps_sig_pos :
  forall (m : mem) (it it' : l_dbus_message_iter),
    container_type it = DBUS_CONTAINER_TYPE_ARRAY ->
    steps m it it' ->
    sig_pos it' = sig_pos it /\
    container_type it' = DBUS_CONTAINER_TYPE_ARRAY.
Proof.
  intros m it it' Harr Hsteps. induction Hsteps as [it | it it1 it2 H1 _ IH].
  - split; [reflexivity | assumption].
  - destruct (step_frame _ _ _ H1) as [Hf Hsp].
    destruct Hf as (_ & _ & _ & _ & _ & Hct).
    assert (Harr1 : container_type it1 = DBUS_CONTAINER_TYPE_ARRAY)
      by congruence.
    destruct (IH Harr1) as [IH1 IH2].
    split; [| assumption].
    rewrite IH1. apply Hsp. rewrite Harr. reflexivity.
Qed.

Lemma C8_array_reader_keeps_sig_pos_witness :
  container_type (s4_array 0) = DBUS_CONTAINER_TYPE_ARRAY /\
  steps s4_mem (s4_array 0) (s4_array 8) /\
  sig_pos (s4_array 8) = sig_pos (s4_array 0) /\
  container_type (s4_array 8) = DBUS_CONTAINER_TYPE_ARRAY.
Proof.
  assert (H1 : container_type (s4_array 0) = DBUS_CONTAINER_TYPE_ARRAY)
    by reflexivity.
  assert (H2 : steps s4_mem (s4_array 0) (s4_array 8)).
  { apply steps_cons with (it' := s4_array 4).
    - apply (step_next_basic _ _ _ (chr "i") true (VInt 1)).
      vm_compute; reflexivity.
    - apply steps_cons with (it' := s4_array 8).
      + apply (step_next_basic _ _ _ (chr "i") true (VInt 2)).
        vm_compute; reflexivity.
      + apply steps_refl. }
  split; [exact H1 |]. split; [exact H2 |].
  exact (C8_array_reader_keeps_sig_pos s4_mem (s4_array 0) (s4_array 8) H1 H2).
Defined.

(** ** Failure and the state of the reader *)

(** C1, as stated, fails: [next_basic('s')] on the reader [nonul_iter 0 0]
    returns false after [next_item] has moved [sig_pos] from 0 to 1 and
    [pos] from 0 to 2. *)
Lemma C1_counterexample : ~ failure_leaves_reader_unchanged.
Proof.
  intros [H _].
  specialize (H nonul_mem (nonul_iter 0 0) (chr "s") (nonul_iter 1 2) VNone).
  assert (E : nonul_iter 1 2 = nonul_iter 0 0)
    by (apply H; vm_compute; reflexivity).
  discriminate E.
Qed.

(** C1 (amended): when an operation returns failure, the fields
    [message], [sig_start], [sig_len], [data], [len] and [container_type]
    of the reader are as before the call, and the reader is the one it
    was given or the one [next_item] has left (with [sig_pos], [pos] and
    [offsets] advanced); when the failure comes from the operation's own
    guard ([pos >= len] or a signature character that is not the
    expected one), the whole reader, and the output reader of an [enter]
    operation, are as before the call. *)
Theorem C1_failure_keeps_frame_and_guard_failure_keeps_reader :
  forall (m : mem) (it : l_dbus_message_iter),
    (forall t it' v,
        _gvariant_iter_next_entry_basic m it t = Ok (false, it', v) ->
        same_frame it it' /\
        (it' = it \/ exists r, next_item m it = Ok (r, it')) /\
        (pos it >= len it \/ sig_char m it <> Ok t -> it' = it)) /\
    (forall c it' c',
        _gvariant_iter_enter_struct m it c = Ok (false, it', c') ->
        same_frame it it' /\
        (it' = it \/ exists r, next_item m it = Ok (r, it')) /\
        (sig_char m it <> Ok (chr "(") /\ sig_char m it <> Ok (chr "{") ->
         it' = it /\ c' = c)) /\
    (forall c it' c',
        _gvariant_iter_enter_array m it c = Ok (false, it', c') ->
        same_frame it it' /\
        (it' = it \/ exists r, next_item m it = Ok (r, it')) /\
        (sig_char m it <> Ok (chr "a") -> it' = it /\ c' = c)) /\
    (forall c it' c',
        _gvariant_iter_enter_variant m it c = Ok (false, it', c') ->
        same_frame it it' /\
        (it' = it \/ exists r, next_item m it = Ok (r, it')) /\
        (sig_char m it <> Ok (chr "v") -> it' = it /\ c' = c)).
Proof.
  intros m it. split; [| split; [| split]].
  - intros t it' v H.
    split; [eapply _gvariant_iter_next_entry_basic_frame; eassumption |].
    split; [apply step_via_next_item; eapply step_next_basic; eassumption |].
    revert H. unfold _gvariant_iter_next_entry_basic, sig_char.
    destruct (pos it >=? len it) eqn:Hge.
    + intros H _. inversion H; reflexivity.
    + intros H [Hp | Hc].
      * destruct (Z.geb_spec (pos it) (len it)); [discriminate | lia].
      * inv_bind H. destruct (a =? t) eqn:Hat; simpl in H.
        -- apply Z.eqb_eq in Hat. subst a. contradiction.
        -- inversion H; reflexivity.
  - intros c it' c' H.
    split; [eapply _gvariant_iter_enter_struct_frame; eassumption |].
    split; [apply step_via_next_item; eapply step_enter_struct; eassumption |].
    revert H. unfold _gvariant_iter_enter_struct, sig_char.
    intros H [H1 H2]. inv_bind H.
    destruct (is_chr a "{") eqn:Hd.
    { apply Z.eqb_eq in Hd. subst a. contradiction. }
    destruct (is_chr a "(") eqn:Hs.
    { apply Z.eqb_eq in Hs. subst a. contradiction. }
    simpl in H. inversion H; split; reflexivity.
  - intros c it' c' H.
    split; [eapply _gvariant_iter_enter_array_frame; eassumption |].
    split; [apply step_via_next_item; eapply step_enter_array; eassumption |].
    revert H. unfold _gvariant_iter_enter_array, sig_char.
    intros H H1. inv_bind H.
    destruct (is_chr a "a") eqn:Hd.
    { apply Z.eqb_eq in Hd. subst a. contradiction. }
    simpl in H. inversion H; split; reflexivity.
  - intros c it' c' H.
    split; [eapply _gvariant_iter_enter_variant_frame; eassumption |].
    split; [apply step_via_next_item; eapply step_enter_variant; eassumption |].
    revert H. unfold _gvariant_iter_enter_variant, sig_char.
    intros H H1. inv_bind H.
    destruct (is_chr a "v") eqn:Hd.
    { apply Z.eqb_eq in Hd. subst a. contradiction. }
    simpl in H. inversion H; split; reflexivity.
Qed.

Lemma C1_failure_keeps_frame_and_guard_failure_keeps_reader_witness :
  (_gvariant_iter_next_entry_basic nonul_mem (nonul_iter 0 0) (chr "s")
   = Ok (false, nonul_iter 1 2, VNone) /\
   same_frame (nonul_iter 0 0) (nonul_iter 1 2)) /\
  (_gvariant_iter_next_entry_basic nonul_mem (nonul_iter 0 0) (chr "i")
   = Ok (false, nonul_iter 0 0, VNone) /\
   sig_char nonul_mem (nonul_iter 0 0) <> Ok (chr "i") /\
   nonul_iter 0 0 = nonul_iter 0 0).
Proof.
  assert (H1 : _gvariant_iter_next_entry_basic nonul_mem (nonul_iter 0 0)
                 (chr "s") = Ok (false, nonul_iter 1 2, VNone))
    by (vm_compute; reflexivity).
  assert (H2 : _gvariant_iter_next_entry_basic nonul_mem (nonul_iter 0 0)
                 (chr "i") = Ok (false, nonul_iter 0 0, VNone))
    by (vm_compute; reflexivity).
  assert (H3 : sig_char nonul_mem (nonul_iter 0 0) <> Ok (chr "i"))
    by (vm_compute; discriminate).
  pose proof (C1_failure_keeps_frame_and_guard_failure_keeps_reader
                nonul_mem (nonul_iter 0 0)) as [Hb _].
  split.
  - split; [exact H1 | exact (proj1 (Hb _ _ _ H1))].
  - split; [exact H2 |]. split; [exact H3 |].
    exact (proj2 (proj2 (Hb _ _ _ H2)) (or_intror H3)).
Defined.

(** ** Terminal readers *)

Lemma align_len_bounds (x a : Z) :
  is_alignment a -> x <= align_len x a <= x + 7.
Proof.
  unfold align_len, is_alignment.
  intros [-> | [-> | [-> | ->]]]; Z.to_euclidean_division_equations; lia.
Qed.

Lemma size_t_small (x : Z) : 0 <= x < 2 ^ 64 -> size_t x = x.
Proof. intros H. unfold size_t. apply Z.mod_small; exact H. Qed.


(** *** Addresses that do not wrap *)

Lemma addr_range (m : mem) (p : ptr) : 0 <= addr m p < 2 ^ 64.
Proof.
  unfold addr, addr_add. destruct p as [| b o];
    apply Z.mod_pos_bound; reflexivity.
Qed.

Lemma addr_add_exact (m : mem) (p : ptr) (z : Z) :
  0 <= z -> addr m p + z < 2 ^ 64 -> addr_add m p z = addr m p + z.
Proof.
  intros Hz Hlt. pose proof (addr_range m p) as Hr. revert Hlt Hr.
  unfold addr, addr_add. destruct p as [| b o]; intros Hlt Hr.
  - rewrite Zmod_0_l in *. apply Z.mod_small. lia.
  - rewrite Z.add_0_r in *.
    rewrite <- Zplus_mod_idemp_l. apply Z.mod_small. lia.
Qed.

Lemma addr_add_upper (m : mem) (p : ptr) (z : Z) :
  0 <= z -> addr_add m p z <= addr m p + z.
Proof.
  intros Hz. pose proof (addr_range m p) as Hr. revert Hr.
  unfold addr, addr_add. destruct p as [| b o]; intros Hr.
  - rewrite Zmod_0_l. apply Z.mod_le; [lia | reflexivity].
  - rewrite Z.add_0_r in *. rewrite <- Zplus_mod_idemp_l.
    apply Z.mod_le; [lia | reflexivity].
Qed.

(** An item is handed out only from a start that lies, as an address,
    before the end of the frame; where the start does not wrap, the
    cursor is then below [len]. *)
Lemma addr_lt_pos_lt (m : mem) (p : ptr) (q l : Z) :
  0 <= q -> 0 <= l -> addr m p + q < 2 ^ 64 ->
  addr_add m p q < addr_add m p l -> q < l.
Proof.
  intros Hq Hl Hfit Hlt.
  rewrite (addr_add_exact _ _ _ Hq Hfit) in Hlt.
  pose proof (addr_add_upper m p l Hl). lia.
Qed.

Lemma addr_lt_of_pos_lt (m : mem) (p : ptr) (q l : Z) :
  0 <= q -> q < l -> addr m p + l < 2 ^ 64 ->
  addr_add m p q < addr_add m p l.
Proof.
  intros Hq Hl Hfit.
  rewrite !addr_add_exact by lia. lia.
Qed.

Lemma align_len_le_8 (x a : Z) :
  is_alignment a -> align_len x a <= align_len x 8.
Proof.
  unfold align_len, is_alignment.
  intros [-> | [-> | [-> | ->]]]; Z.to_euclidean_division_equations; lia.
Qed.

Lemma align_len_8_idem (x a : Z) :
  is_alignment a -> align_len (align_len x a) 8 = align_len x 8.
Proof.
  unfold align_len, is_alignment.
  intros [-> | [-> | [-> | ->]]]; Z.to_euclidean_division_equations; lia.
Qed.

(** The aligned cursor of a reader in range: it is not negative, aligning
    it has not wrapped, and the reader that holds it is in range. *)
Lemma aligned_pos_in_range (m : mem) (it : l_dbus_message_iter) (al : Z) :
  pos_in_range m it -> is_alignment al ->
  size_t (align_len (pos it) al) = align_len (pos it) al /\
  pos it <= align_len (pos it) al /\
  addr m (data it) + align_len (pos it) al < 2 ^ 64 /\
  addr m (data it) + align_len (align_len (pos it) al) 8 < 2 ^ 64.
Proof.
  intros (Hp & Hl & Hfit) Hal.
  pose proof (align_len_bounds (pos it) al Hal) as Hb.
  pose proof (align_len_le_8 (pos it) al Hal) as H8.
  pose proof (addr_range m (data it)) as Ha.
  rewrite (align_len_8_idem _ _ Hal).
  split; [apply size_t_small; lia |]. lia.
Qed.











(** ** String-like values *)

Lemma memchr_list_spec (l : list Z) :
  forall n i, 0 <= n <= Z.of_nat (length l) ->
    (In 0 (firstn (Z.to_nat n) l) ->
     exists k, memchr_list l n i = Ok (Some k)) /\
    (~ In 0 (firstn (Z.to_nat n) l) -> memchr_list l n i = Ok None).
Proof.
  induction l as [| c tl IH]; intros n i Hn; simpl in Hn.
  - assert (n = 0) by lia. subst n. simpl. split; [contradiction | reflexivity].
  - simpl. destruct (Z.leb_spec n 0) as [Hz | Hp].
    + assert (n = 0) by lia. subst n. simpl.
      split; [contradiction | reflexivity].
    + assert (En : Z.to_nat n = S (Z.to_nat (n - 1))) by lia.
      rewrite En. simpl.
      destruct (Z.eqb_spec c 0) as [Hc | Hc].
      * split; [intros _; eexists; reflexivity |].
        intros Hnot. exfalso. apply Hnot. left. exact Hc.
      * destruct (IH (n - 1) (i + 1)) as [IH1 IH2]; [lia |].
        split.
        -- intros [Hin | Hin]; [contradiction | apply IH1; exact Hin].
        -- intros Hnot. apply IH2. intros Hin. apply Hnot. right. exact Hin.
Qed.

Lemma memchr0_spec (m : mem) (p : ptr) (n : Z) (bytes : list Z) :
  load_bytes m p n = Ok bytes ->
  (In 0 bytes -> exists k, memchr0 m p n = Ok (Some k)) /\
  (~ In 0 bytes -> memchr0 m p n = Ok None).
Proof.
  unfold load_bytes, memchr0. destruct p as [| b o]; [discriminate |].
  destruct (Z.ltb_spec n 0) as [Hn | Hn]; [discriminate |].
  destruct (Z.ltb_spec o 0) as [Ho | Ho]; [discriminate |].
  destruct (Z.ltb_spec (Z.of_nat (length (m b))) (o + n)) as [Hl | Hl];
    [discriminate |].
  simpl. intros H. inversion H; subst bytes; clear H.
  destruct (Z.leb_spec n 0) as [Hz | Hp].
  - assert (n = 0) by lia. subst n. simpl.
    split; [contradiction | reflexivity].
  - apply memchr_list_spec. rewrite length_skipn. lia.
Qed.

(** C10: the expected types 's', 'o' and 'g' are decoded by the same
    code, which only looks for a NUL in the child extent: whatever the
    bytes of the extent are, [next_basic] returns true exactly when one
    of them is NUL, and the value it stores is the start of the extent;
    there is no check of UTF-8, of object-path syntax or of signature
    validity. *)
Theorem C10_string_like_types_only_search_a_nul :
  (forall (m : mem) (start : ptr) (item_size : Z),
      decode_basic m (chr "s") start item_size
        = decode_basic m (chr "o") start item_size /\
      decode_basic m (chr "g") start item_size
        = decode_basic m (chr "o") start item_size) /\
  (forall (m : mem) (it it' : l_dbus_message_iter) (t : Z) (start : ptr)
          (item_size : Z) (bytes : list Z),
      t = chr "s" \/ t = chr "o" \/ t = chr "g" ->
      pos it < len it ->
      sig_char m it = Ok t ->
      next_item m it = Ok (Some (start, item_size), it') ->
      load_bytes m start item_size = Ok bytes ->
      (In 0 bytes ->
       _gvariant_iter_next_entry_basic m it t
         = Ok (true, it', VString start)) /\
      (~ In 0 bytes ->
       _gvariant_iter_next_entry_basic m it t = Ok (false, it', VNone))).
Proof.
  split.
  - intros m start item_size. split; reflexivity.
  - intros m it it' t start item_size bytes Ht Hpos Hc Hitem Hbytes.
    destruct (memchr0_spec _ _ _ _ Hbytes) as [Hin Hout].
    assert (Hdec : decode_basic m t start item_size =
                   (e <- memchr0 m start item_size ;;
                    match e with
                    | None => ret None
                    | Some _ => ret (Some (VString start))
                    end))
      by (destruct Ht as [-> | [-> | ->]]; reflexivity).
    assert (Hge : (pos it >=? len it) = false)
      by (destruct (Z.geb_spec (pos it) (len it)); [lia | reflexivity]).
    unfold _gvariant_iter_next_entry_basic.
    rewrite Hge, Hc. simpl. rewrite Z.eqb_refl. simpl.
    rewrite Hitem. simpl. rewrite Hdec.
    split.
    + intros H0. destruct (Hin H0) as [k Hk]. rewrite Hk. reflexivity.
    + intros H0. rewrite (Hout H0). reflexivity.
Qed.

Lemma C10_string_like_types_only_search_a_nul_witness :
  (chr "o" = chr "s" \/ chr "o" = chr "o" \/ chr "o" = chr "g") /\
  pos (junk_iter 0 0) < len (junk_iter 0 0) /\
  sig_char junk_mem (junk_iter 0 0) = Ok (chr "o") /\
  next_item junk_mem (junk_iter 0 0) = Ok (Some (Ptr 1 0, 5), junk_iter 1 5) /\
  load_bytes junk_mem (Ptr 1 0) 5 = Ok [255; 254; 47; 47; 0] /\
  In 0 [255; 254; 47; 47; 0] /\
  _gvariant_iter_next_entry_basic junk_mem (junk_iter 0 0) (chr "o")
    = Ok (true, junk_iter 1 5, VString (Ptr 1 0)).
Proof.
  assert (H1 : chr "o" = chr "s" \/ chr "o" = chr "o" \/ chr "o" = chr "g")
    by (right; left; reflexivity).
  assert (H2 : pos (junk_iter 0 0) < len (junk_iter 0 0)) by (simpl; lia).
  assert (H3 : sig_char junk_mem (junk_iter 0 0) = Ok (chr "o"))
    by (vm_compute; reflexivity).
  assert (H4 : next_item junk_mem (junk_iter 0 0)
               = Ok (Some (Ptr 1 0, 5), junk_iter 1 5))
    by (vm_compute; reflexivity).
  assert (H5 : load_bytes junk_mem (Ptr 1 0) 5 = Ok [255; 254; 47; 47; 0])
    by (vm_compute; reflexivity).
  assert (H6 : In 0 [255; 254; 47; 47; 0]) by (simpl; tauto).
  repeat (split; [assumption |]).
  exact (proj1 (proj2 C10_string_like_types_only_search_a_nul
                  junk_mem (junk_iter 0 0) (junk_iter 1 5) (chr "o")
                  (Ptr 1 0) 5 [255; 254; 47; 47; 0] H1 H2 H3 H4 H5) H6).
Defined.

(** ** What a valid signature guarantees *)

(** The part of the validator's contract that holds on every object: a
    signature declared valid has at least one child, and its alignment is
    1, 2, 4 or 8. *)
Lemma valid_signature_children_and_alignment (buf : list Z) (sig : Z) :
  _gvariant_valid_signature buf sig = Ok true ->
  (exists n, _gvariant_num_children buf sig = Ok n /\ 1 <= n) /\
  (exists a, _gvariant_get_alignment buf sig = Ok a /\ is_alignment a).
Proof.
  unfold _gvariant_valid_signature, _gvariant_num_children,
    _gvariant_get_alignment.
  intros H. split.
  - destruct (num_children_of_valid _ _ _ H 0) as [k [Hk Hle]].
    exists k. split; [exact Hk | lia].
  - assert (Hs : 0 <= sig).
    { destruct (Z.ltb_spec sig 0) as [Hneg | Hpos]; [| exact Hpos].
      simpl in H. rewrite (validate_negative _ _ Hneg) in H. discriminate. }
    eapply get_alignment_of_valid; [exact H | | lia].
    unfold is_alignment; tauto.
Qed.

Lemma align_len_multiple (x a : Z) : (align_len x a) mod a = 0.
Proof.
  unfold align_len. destruct (Z.eq_dec a 0) as [-> | Ha].
  - rewrite Z.mul_0_r. reflexivity.
  - apply Z.mod_mul. exact Ha.
Qed.

Lemma fixed_types_simple (c : Z) :
  c <> 0 -> strchr fixed_types c = true ->
  strchr simple_types c = true /\ is_alignment (get_basic_alignment c).
Proof.
  unfold strchr at 1. intros Hc H.
  apply orb_true_iff in H. destruct H as [H | H].
  - apply Z.eqb_eq in H. contradiction.
  - apply existsb_exists in H. destruct H as [x [Hin Hx]].
    apply Z.eqb_eq in Hx. subst x. unfold fixed_types in Hin. simpl in Hin.
    unfold is_alignment.
    repeat (destruct Hin as [Hin | Hin];
            [subst c; vm_compute; tauto |]).
    contradiction.
Qed.

Section FixedSize.

Variable buf : list Z.

(** The scan returns 0 or a size rounded up to an alignment that is at
    least the running maximum. *)
Lemma fixed_size_scan_shape (rec : Z -> res Z) (n : nat) :
  forall s size mx r,
    is_alignment mx ->
    fixed_size_scan rec buf n s size mx = Ok r ->
    r = 0 \/ exists sz M, r = align_len sz M /\ is_alignment M /\ mx <= M.
Proof.
  induction n as [| n IH]; intros s size mx r Hmx H; [discriminate |].
  cbn [fixed_size_scan] in H. inv_bind H.
  destruct (Z.eqb_spec a 0) as [Ha | Ha].
  { inversion H. right. exists size, mx. split; [reflexivity |].
    split; [assumption | lia]. }
  destruct (strchr variable_types a); [inversion H; left; reflexivity |].
  destruct (strchr fixed_types a) eqn:Hf.
  { destruct (fixed_types_simple _ Ha Hf) as [_ Hal].
    apply IH in H; [| apply max_alignment_ok; assumption].
    destruct H as [H | (sz & M & H1 & H2 & H3)]; [left; assumption |].
    right. exists sz, M. split; [assumption |]. split; [assumption |].
    destruct (get_basic_alignment a >? mx) eqn:Hc; lia. }
  destruct (is_chr a "}" || is_chr a ")").
  { inversion H. right. exists size, mx. split; [reflexivity |].
    split; [assumption | lia]. }
  inv_bind H. destruct a0 as [[p al] |]; [| inversion H; left; reflexivity].
  destruct (validate_next_type_progress _ _ _ _ E0) as [_ Hal].
  inv_bind H. inv_bind H.
  destruct (a1 =? 0); [inversion H; left; reflexivity |].
  apply IH in H; [| apply max_alignment_ok; assumption].
  destruct H as [H | (sz & M & H1 & H2 & H3)]; [left; assumption |].
  right. exists sz, M. split; [assumption |]. split; [assumption |].
  destruct (al >? mx) eqn:Hc; lia.
Qed.

Lemma validate_fixed_type (s c : Z) :
  rd buf s = Ok c -> c <> 0 -> strchr fixed_types c = true ->
  validate_next_type buf s = Ok (Some (s + 1, get_basic_alignment c)).
Proof.
  intros Hc Hnz Hf. destruct (fixed_types_simple _ Hnz Hf) as [Hs _].
  unfold validate_next_type. rewrite validate_fuel_S, Hc. simpl.
  apply Z.eqb_neq in Hnz. rewrite Hnz, Hs. reflexivity.
Qed.

Lemma validate_closing (s c : Z) :
  rd buf s = Ok c -> is_chr c "}" || is_chr c ")" = true ->
  validate_next_type buf s = Ok None.
Proof.
  intros Hc H. unfold validate_next_type. rewrite validate_fuel_S, Hc.
  apply orb_true_iff in H. unfold is_chr in H.
  destruct H as [H | H]; apply Z.eqb_eq in H; subst c; reflexivity.
Qed.

(** Over a valid signature the scan rounds its result to the value the
    alignment loop returns. *)
Lemma fixed_size_scan_alignment (rec : Z -> res Z) (k : nat) :
  forall s,
    valid_signature_loop k buf s = Ok true ->
    forall n n' size mx r a,
      is_alignment mx ->
      fixed_size_scan rec buf n s size mx = Ok r ->
      get_alignment_loop n' buf s mx = Ok a ->
      r = 0 \/ exists sz, r = align_len sz a.
Proof.
  induction k as [| k IH]; intros s Hcnt n n' size mx r a Hmx Hscan Hal;
    [discriminate |].
  simpl in Hcnt. inv_bind Hcnt. destruct a0 as [[s' al] |]; [| discriminate].
  inv_bind Hcnt.
  destruct (validate_Ok_first _ _ _ E) as [c0 [Hc0 Hnz]].
  destruct (validate_next_type_progress _ _ _ _ E) as [_ Hal'].
  assert (Hmx' : is_alignment (if al >? mx then al else mx))
    by (apply max_alignment_ok; assumption).
  (* the alignment loop *)
  destruct n' as [| n']; [discriminate |].
  simpl in Hal. rewrite Hc0 in Hal. simpl in Hal.
  pose proof Hnz as Hnz'. apply Z.eqb_neq in Hnz'. rewrite Hnz' in Hal.
  simpl in Hal. destruct (Z.eqb_spec mx 8) as [H8 | H8].
  { inversion Hal; subst a.
    destruct (fixed_size_scan_shape _ _ _ _ _ _ Hmx Hscan)
      as [H | (sz & M & H1 & H2 & H3)]; [left; assumption |].
    right. exists sz. rewrite H1.
    assert (M = mx) by (unfold is_alignment in H2; lia). subst M.
    reflexivity. }
  rewrite E in Hal. simpl in Hal.
  (* the scan *)
  destruct n as [| n]; [discriminate |].
  cbn [fixed_size_scan] in Hscan. rewrite Hc0 in Hscan. simpl in Hscan.
  rewrite Hnz' in Hscan.
  destruct (strchr variable_types c0); [inversion Hscan; left; reflexivity |].
  assert (Hrest : forall size1,
             fixed_size_scan rec buf n s' size1
                             (if al >? mx then al else mx) = Ok r ->
             r = 0 \/ exists sz, r = align_len sz a).
  { intros size1 Hs1. destruct (Z.eqb_spec a0 0) as [Ha0 | Ha0].
    - subst a0. destruct n as [| n]; [discriminate |].
      cbn [fixed_size_scan] in Hs1. rewrite E0 in Hs1. simpl in Hs1.
      destruct n' as [| n']; [discriminate |].
      simpl in Hal. rewrite E0 in Hal. simpl in Hal.
      inversion Hs1; inversion Hal; subst. right. eexists; reflexivity.
    - eapply IH; eassumption. }
  destruct (strchr fixed_types c0) eqn:Hf.
  { rewrite (validate_fixed_type _ _ Hc0 Hnz Hf) in E.
    inversion E; subst s' al. eapply Hrest; exact Hscan. }
  destruct (is_chr c0 "}" || is_chr c0 ")") eqn:Hcl.
  { rewrite (validate_closing _ _ Hc0 Hcl) in E. discriminate. }
  rewrite E in Hscan. simpl in Hscan.
  inv_bind Hscan. inv_bind Hscan.
  destruct (a2 =? 0); [inversion Hscan; left; reflexivity |].
  eapply Hrest; exact Hscan.
Qed.

(** The part of the fixed-size agreement that holds on every valid
    signature: the fixed size is a multiple of the alignment. *)
Lemma fixed_size_multiple_of_alignment (sig n a : Z) :
  _gvariant_valid_signature buf sig = Ok true ->
  _gvariant_get_fixed_size buf sig = Ok n ->
  _gvariant_get_alignment buf sig = Ok a ->
  n mod a = 0.
Proof.
  unfold _gvariant_valid_signature, _gvariant_get_fixed_size,
    _gvariant_get_alignment.
  intros Hv Hn Ha.
  rewrite get_fixed_size_fuel_S in Hn.
  assert (R : n = 0 \/ exists sz, n = align_len sz a).
  { eapply fixed_size_scan_alignment; try eassumption.
    unfold is_alignment; tauto. }
  destruct R as [-> | [sz ->]].
  - apply Zmod_0_l.
  - apply align_len_multiple.
Qed.

End FixedSize.

(** ** What a successful initialisation and a successful [enter_variant]
    establish *)

Lemma gvariant_iter_init_internal_success m iter msg type ss se d l iter' :
  gvariant_iter_init_internal m iter msg type ss se d l = Ok (true, iter') ->
  message iter' = msg /\ sig_start iter' = ss /\ sig_pos iter' = 0 /\
  data iter' = d /\ len iter' = l /\ pos iter' = 0 /\
  container_type iter' = type.
Proof.
  unfold gvariant_iter_init_internal. intros H.
  inv_res H; unfold ret in H; inversion H; subst; simpl; tauto.
Qed.

(** The part of the variant contract that holds below the 255-byte
    bound: a variant is entered only when the extent holds a NUL, the
    bytes after the last NUL are at most 254, form a valid signature and
    count one complete type; the child reads the bytes before that NUL
    under the signature that starts after it. *)
Lemma _gvariant_iter_enter_variant_success m it c it' c' :
  _gvariant_iter_enter_variant m it c = Ok (true, it', c') ->
  exists start item_size k bytes,
    sig_char m it = Ok (chr "v") /\
    next_item m it = Ok (Some (start, item_size), it') /\
    memrchr0 m start item_size = Ok (Some k) /\
    item_size - k - 1 <= 254 /\
    load_bytes m (ptr_add start (k + 1)) (item_size - k - 1) = Ok bytes /\
    _gvariant_valid_signature (bytes ++ [0]) 0 = Ok true /\
    _gvariant_num_children (bytes ++ [0]) 0 = Ok 1 /\
    data c' = start /\ len c' = k /\
    sig_start c' = ptr_add start (k + 1) /\
    sig_pos c' = 0 /\ pos c' = 0 /\
    container_type c' = DBUS_CONTAINER_TYPE_VARIANT.
Proof.
  unfold _gvariant_iter_enter_variant. intros H.
  inv_bind H. destruct (is_chr a "v") eqn:Hv; simpl in H;
    [| inversion H].
  apply Z.eqb_eq in Hv. subst a.
  inv_bind H. destruct a as [[[start item_size] |] it1]; [| inversion H].
  inv_bind H. destruct a as [k |]; [| inversion H].
  destruct (item_size - k - 1 >? 255); [inversion H |].
  inv_bind H. destruct (Z.ltb_spec 254 (item_size - k - 1)) as [Hn | Hn];
    [discriminate |].
  inv_bind H. destruct a0; simpl in H; [| inversion H].
  inv_bind H. destruct (Z.eqb_spec a0 1) as [-> | Hnc]; simpl in H;
    [| inversion H].
  inv_bind H. destruct a0 as [ok child]. inversion H; subst; clear H.
  match goal with
  | Hi : gvariant_iter_init_internal _ _ _ _ _ _ _ _ = Ok _ |- _ =>
    apply gvariant_iter_init_internal_success in Hi;
      destruct Hi as (_ & Hs & Hsp & Hd & Hl & Hp & Hct)
  end.
  exists start, item_size, k, a. repeat split; solve [assumption | lia].
Qed.

(** * Further properties of the code *)

(** ** The type tables *)

Lemma fixed_size_nonzero_cases (c : Z) :
  get_basic_fixed_size c <> 0 -> In c fixed_types.
Proof.
  unfold get_basic_fixed_size, is_chr, fixed_types. simpl.
  unfold chr; simpl.
  repeat match goal with
         | |- context [c =? ?k] =>
           destruct (Z.eqb_spec c k); [subst c; intros _; tauto |]
         end.
  simpl. intros H; contradiction.
Qed.

Lemma in_strchr (str : list Z) (c : Z) : In c str -> strchr str c = true.
Proof.
  intros H. unfold strchr. apply orb_true_iff. right.
  apply existsb_exists. exists c. split; [exact H | apply Z.eqb_refl].
Qed.

Lemma strchr_in (str : list Z) (c : Z) :
  c <> 0 -> strchr str c = true -> In c str.
Proof.
  unfold strchr. intros Hc H. apply orb_true_iff in H.
  destruct H as [H | H].
  - apply Z.eqb_eq in H. contradiction.
  - apply existsb_exists in H. destruct H as [x [Hin Hx]].
    apply Z.eqb_eq in Hx. subst x. exact Hin.
Qed.

(** X1: the three type strings and the two switches agree.  For every
    character other than NUL: it is in [fixed_types] exactly when
    [get_basic_fixed_size] is not 0, and then its fixed size equals its
    alignment and it is not in [variable_types]; it is in [simple_types]
    exactly when it is in [fixed_types] or one of 's', 'o', 'g'; and
    [get_basic_alignment] is not 0 exactly when it is a simple type or
    'v'. *)
Theorem X1_type_tables_agree :
  forall c : Z,
    c <> 0 ->
    (strchr fixed_types c = true <-> get_basic_fixed_size c <> 0) /\
    (strchr fixed_types c = true ->
     get_basic_fixed_size c = get_basic_alignment c /\
     strchr variable_types c = false) /\
    (strchr simple_types c = true <->
     strchr fixed_types c = true \/
     c = chr "s" \/ c = chr "o" \/ c = chr "g") /\
    (get_basic_alignment c <> 0 <->
     strchr simple_types c = true \/ c = chr "v").
Proof.
  intros c Hc. split; [| split; [| split]].
  - split.
    + intros H. apply (strchr_in _ _ Hc) in H.
      unfold fixed_types in H. simpl in H.
      repeat (destruct H as [H | H]; [subst c; vm_compute; discriminate |]).
      contradiction.
    + intros H. apply in_strchr. apply fixed_size_nonzero_cases. exact H.
  - intros H. apply (strchr_in _ _ Hc) in H.
    unfold fixed_types in H. simpl in H.
    repeat (destruct H as [H | H]; [subst c; vm_compute; tauto |]).
    contradiction.
  - split.
    + intros H. apply (strchr_in _ _ Hc) in H.
      unfold simple_types in H. simpl in H.
      repeat (destruct H as [H | H]; [subst c; vm_compute; tauto |]).
      contradiction.
    + intros [H | [H | [H | H]]].
      * apply (strchr_in _ _ Hc) in H.
        unfold fixed_types in H. simpl in H.
        repeat (destruct H as [H | H]; [subst c; reflexivity |]).
        contradiction.
      * subst c; reflexivity.
      * subst c; reflexivity.
      * subst c; reflexivity.
  - split.
    + unfold get_basic_alignment, is_chr. unfold chr; simpl.
      repeat match goal with
             | |- context [c =? ?k] =>
               destruct (Z.eqb_spec c k);
                 [subst c; intros _; vm_compute; tauto |]
             end.
      simpl. intros H; contradiction.
    + intros [H | H].
      * apply (strchr_in _ _ Hc) in H.
        unfold simple_types in H. simpl in H.
        repeat (destruct H as [H | H]; [subst c; vm_compute; discriminate |]).
        contradiction.
      * subst c. vm_compute. discriminate.
Qed.

Lemma X1_type_tables_agree_witness :
  chr "h" <> 0 /\
  (strchr fixed_types (chr "h") = true <->
   get_basic_fixed_size (chr "h") <> 0) /\
  (strchr fixed_types (chr "h") = true ->
   get_basic_fixed_size (chr "h") = get_basic_alignment (chr "h") /\
   strchr variable_types (chr "h") = false) /\
  (strchr simple_types (chr "h") = true <->
   strchr fixed_types (chr "h") = true \/
   chr "h" = chr "s" \/ chr "h" = chr "o" \/ chr "h" = chr "g") /\
  (get_basic_alignment (chr "h") <> 0 <->
   strchr simple_types (chr "h") = true \/ chr "h" = chr "v").
Proof.
  assert (H : chr "h" <> 0) by (vm_compute; discriminate).
  split; [exact H |].
  exact (X1_type_tables_agree (chr "h") H).
Defined.

(** ** Offset words *)

(** X2: for a frame of [size] bytes with [n] offsets, [offset_length]
    returns the smallest width among 1, 2, 4 and 8 bytes whose offsets
    can address the frame together with its offset table: the width [W]
    satisfies [size + n * W < 2^(8 W)], and a width above 1 is chosen
    only when the next smaller one does not. *)
Theorem X2_offset_length_smallest_fitting_width :
  forall size n : Z,
    0 <= size -> 0 <= n -> size + 8 * n < 2 ^ 64 ->
    let W := offset_length size n in
    (W = 1 \/ W = 2 \/ W = 4 \/ W = 8) /\
    size + n * W < 2 ^ (8 * W) /\
    (1 < W -> 2 ^ (4 * W) <= size + n * (W / 2)).
Proof.
  intros size n Hs Hn Hfit. unfold offset_length, size_t.
  change (2 ^ 64) with 18446744073709551616 in *.
  rewrite !Z.mod_small by lia.
  destruct (Z.leb_spec (size + n) 255).
  { simpl. split; [tauto |]. split; [change (2 ^ 8) with 256; lia | lia]. }
  destruct (Z.leb_spec (size + n * 2) 65535).
  { split; [tauto |].
    change (2 ^ (8 * 2)) with 65536. change (2 ^ (4 * 2)) with 256.
    change (2 / 2) with 1. lia. }
  destruct (Z.leb_spec (size + n * 4) 4294967295).
  { split; [tauto |].
    change (2 ^ (8 * 4)) with 4294967296. change (2 ^ (4 * 4)) with 65536.
    change (4 / 2) with 2. lia. }
  split; [tauto |].
  change (2 ^ (8 * 8)) with 18446744073709551616.
  change (2 ^ (4 * 8)) with 4294967296. change (8 / 2) with 4. lia.
Qed.

Lemma X2_offset_length_smallest_fitting_width_witness :
  0 <= 509 /\ 0 <= 0 /\ 509 + 8 * 0 < 2 ^ 64 /\
  (offset_length 509 0 = 1 \/ offset_length 509 0 = 2 \/
   offset_length 509 0 = 4 \/ offset_length 509 0 = 8) /\
  509 + 0 * offset_length 509 0 < 2 ^ (8 * offset_length 509 0) /\
  (1 < offset_length 509 0 ->
   2 ^ (4 * offset_length 509 0) <= 509 + 0 * (offset_length 509 0 / 2)).
Proof.
  assert (H1 : 0 <= 509) by lia.
  assert (H2 : 0 <= 0) by lia.
  assert (H3 : 509 + 8 * 0 < 2 ^ 64) by (vm_compute; reflexivity).
  split; [exact H1 |]. split; [exact H2 |]. split; [exact H3 |].
  exact (X2_offset_length_smallest_fitting_width 509 0 H1 H2 H3).
Defined.

(** ** The contract of the validator *)

Lemma struct_members_last (rec : Z -> res (option (Z * Z))) (buf : list Z)
      (n : nat) :
  forall p mx j a,
    struct_members rec buf n p mx = Ok (Some (j, a)) ->
    exists c, rd buf (j - 1) = Ok c /\ c <> 0.
Proof.
  induction n as [| n IH]; intros p mx j a H; simpl in H; [discriminate |].
  inv_bind H. destruct (is_chr a0 ")") eqn:Hc.
  - inversion H; subst. exists a0. rewrite Z.add_simpl_r.
    split; [assumption |]. apply Z.eqb_eq in Hc. subst a0.
    vm_compute; discriminate.
  - inv_bind H. destruct a1 as [[p' al] |]; [| discriminate].
    eapply IH; exact H.
Qed.

Lemma validate_fuel_last (buf : list Z) (n : nat) :
  forall s j a,
    validate_next_type_fuel n buf s = Ok (Some (j, a)) ->
    exists c, rd buf (j - 1) = Ok c /\ c <> 0.
Proof.
  induction n as [| n IH]; intros s j a H; [discriminate |].
  rewrite validate_fuel_S in H. inv_bind H.
  destruct (Z.eqb_spec a0 0) as [Hz | Hz]; [discriminate |].
  destruct (strchr simple_types a0 || is_chr a0 "v").
  { inversion H; subst. exists a0. rewrite Z.add_simpl_r. tauto. }
  destruct (is_chr a0 "a"); [eapply IH; exact H |].
  destruct (is_chr a0 "{").
  { inv_bind H. destruct (negb (strchr simple_types a1)); [discriminate |].
    inv_bind H. destruct a2 as [[p' al] |]; [| discriminate].
    inv_bind H. destruct (is_chr a2 "}") eqn:Hc; simpl in H; [| discriminate].
    inversion H; subst. exists a2. rewrite Z.add_simpl_r.
    split; [assumption |]. apply Z.eqb_eq in Hc. subst a2.
    vm_compute; discriminate. }
  destruct (is_chr a0 "("); [| discriminate].
  eapply struct_members_last; exact H.
Qed.

(** X3: when [validate_next_type] returns a pointer, the pointer lies
    strictly after [sig] and inside the object, the alignment it stores is
    1, 2, 4 or 8, and neither the first nor the last byte of the type it
    has accepted is NUL. *)
Theorem X3_validate_next_type_contract :
  forall (buf : list Z) (sig p a : Z),
    validate_next_type buf sig = Ok (Some (p, a)) ->
    0 <= sig /\ sig < p <= Z.of_nat (length buf) /\
    (a = 1 \/ a = 2 \/ a = 4 \/ a = 8) /\
    (exists c, rd buf sig = Ok c /\ c <> 0) /\
    (exists c, rd buf (p - 1) = Ok c /\ c <> 0).
Proof.
  intros buf sig p a H.
  destruct (validate_next_type_progress _ _ _ _ H) as [Hp Ha].
  destruct (validate_Ok_first _ _ _ H) as [c [Hc Hnz]].
  pose proof (rd_Ok_range _ _ _ Hc) as Hr.
  split; [lia |]. split; [exact Hp |]. split; [exact Ha |].
  split; [exists c; tauto |].
  eapply validate_fuel_last; exact H.
Qed.

Lemma X3_validate_next_type_contract_witness :
  validate_next_type (cstring "a{s(iy)}x") 0 = Ok (Some (8, 4)) /\
  0 <= 0 /\ 0 < 8 <= Z.of_nat (length (cstring "a{s(iy)}x")) /\
  (4 = 1 \/ 4 = 2 \/ 4 = 4 \/ 4 = 8) /\
  (exists c, rd (cstring "a{s(iy)}x") 0 = Ok c /\ c <> 0) /\
  (exists c, rd (cstring "a{s(iy)}x") (8 - 1) = Ok c /\ c <> 0).
Proof.
  assert (H : validate_next_type (cstring "a{s(iy)}x") 0 = Ok (Some (8, 4)))
    by (vm_compute; reflexivity).
  split; [exact H |].
  exact (X3_validate_next_type_contract (cstring "a{s(iy)}x") 0 8 4 H).
Defined.

(** ** Counting, validating and aligning agree *)

Lemma num_children_of_invalid (buf : list Z) (n : nat) :
  forall s, valid_signature_loop n buf s = Ok false ->
            forall c, num_children_loop n buf s c = Ok (-1).
Proof.
  induction n as [| n IH]; intros s H c; simpl in H; [discriminate |].
  inv_bind H. simpl. rewrite E. destruct a as [[s' al] |]; [| reflexivity].
  inv_bind H. simpl. rewrite E0. simpl.
  destruct (a =? 0); [discriminate |].
  apply IH; exact H.
Qed.

Lemma num_children_of_fault (buf : list Z) (n : nat) :
  forall s, valid_signature_loop n buf s = Fault ->
            forall c, num_children_loop n buf s c = Fault.
Proof.
  induction n as [| n IH]; intros s H c; simpl in H; [discriminate |].
  simpl. destruct (validate_next_type buf s) as [[[s' al] |] | |];
    simpl in *; try discriminate; try reflexivity.
  destruct (rd buf s') as [c' | |]; simpl in *; try discriminate;
    try reflexivity.
  destruct (c' =? 0); [discriminate |].
  apply IH; exact H.
Qed.

(** X4: [_gvariant_num_children] and [_gvariant_valid_signature] walk the
    same types: the signature is declared valid exactly when the count is
    at least 1, declared invalid exactly when the count is -1, and one
    leaves the object exactly when the other does. *)
Theorem X4_num_children_agrees_with_valid_signature :
  forall (buf : list Z) (sig : Z),
    (_gvariant_valid_signature buf sig = Ok true <->
     exists n, _gvariant_num_children buf sig = Ok n /\ 1 <= n) /\
    (_gvariant_valid_signature buf sig = Ok false <->
     _gvariant_num_children buf sig = Ok (-1)) /\
    (_gvariant_valid_signature buf sig = Fault <->
     _gvariant_num_children buf sig = Fault).
Proof.
  intros buf sig.
  pose proof (_gvariant_valid_signature_total buf sig) as Ht.
  unfold _gvariant_valid_signature, _gvariant_num_children in *.
  destruct (valid_signature_loop (S (length buf)) buf sig)
    as [[|] | |] eqn:Hv.
  - destruct (num_children_of_valid _ _ _ Hv 0) as [k [Hk Hle]].
    rewrite Hk. split; [| split]; split; intros H;
      try discriminate; try reflexivity.
    + exists k. split; [reflexivity | lia].
    + inversion H. lia.
  - rewrite (num_children_of_invalid _ _ _ Hv 0).
    split; [| split]; split; intros H; try discriminate; try reflexivity.
    destruct H as [n [Hn Hle]]. inversion Hn. lia.
  - rewrite (num_children_of_fault _ _ _ Hv 0).
    split; [| split]; split; intros H; try discriminate; try reflexivity.
    destruct H as [n [Hn Hle]]. discriminate.
  - contradiction.
Qed.

(** X5: on a signature that [_gvariant_valid_signature] accepts,
    [_gvariant_get_alignment] returns 1, 2, 4 or 8 (never the 0 of its
    error path), and [_gvariant_get_fixed_size] returns a multiple of that
    alignment. *)
Theorem X5_valid_signature_alignment_divides_fixed_size :
  forall (buf : list Z) (sig : Z),
    _gvariant_valid_signature buf sig = Ok true ->
    exists a,
      _gvariant_get_alignment buf sig = Ok a /\
      (a = 1 \/ a = 2 \/ a = 4 \/ a = 8) /\
      forall n, _gvariant_get_fixed_size buf sig = Ok n -> n mod a = 0.
Proof.
  intros buf sig H.
  destruct (valid_signature_children_and_alignment _ _ H)
    as [_ [a [Ha Hal]]].
  exists a. split; [exact Ha |]. split; [exact Hal |].
  intros n Hn. eapply fixed_size_multiple_of_alignment; eassumption.
Qed.

Lemma X5_valid_signature_alignment_divides_fixed_size_witness :
  _gvariant_valid_signature (cstring "y(nx)i") 0 = Ok true /\
  exists a,
    _gvariant_get_alignment (cstring "y(nx)i") 0 = Ok a /\
    (a = 1 \/ a = 2 \/ a = 4 \/ a = 8) /\
    forall n, _gvariant_get_fixed_size (cstring "y(nx)i") 0 = Ok n ->
              n mod a = 0.
Proof.
  assert (H : _gvariant_valid_signature (cstring "y(nx)i") 0 = Ok true)
    by (vm_compute; reflexivity).
  split; [exact H |].
  exact (X5_valid_signature_alignment_divides_fixed_size
           (cstring "y(nx)i") 0 H).
Defined.

(** ** What a handed-out item guarantees *)

Lemma load_bytes_length (m : mem) (p : ptr) (n : Z) (bytes : list Z) :
  load_bytes m p n = Ok bytes -> Z.of_nat (length bytes) = n.
Proof.
  unfold load_bytes. destruct p as [| b o]; [discriminate |].
  destruct (Z.ltb_spec n 0) as [Hn | Hn]; [discriminate |].
  destruct (Z.ltb_spec o 0) as [Ho | Ho]; [discriminate |].
  destruct (Z.ltb_spec (Z.of_nat (length (m b))) (o + n)) as [Hl | Hl];
    [discriminate |].
  simpl. intros H. inversion H; subst bytes.
  rewrite length_firstn, length_skipn. lia.
Qed.

Lemma rd_terminator (bytes : list Z) :
  rd (bytes ++ [0]) (Z.of_nat (length bytes)) = Ok 0.
Proof.
  unfold rd. destruct (Z.ltb_spec (Z.of_nat (length bytes)) 0); [lia |].
  rewrite Nat2Z.id, nth_error_app2 by lia.
  rewrite Nat.sub_diag. reflexivity.
Qed.

(** A type validated in a terminated copy ends before the terminator. *)
Lemma validate_in_copy (bytes : list Z) (p a : Z) :
  validate_next_type (bytes ++ [0]) 0 = Ok (Some (p, a)) ->
  1 <= p <= Z.of_nat (length bytes) /\ is_alignment a.
Proof.
  intros H.
  destruct (validate_next_type_progress _ _ _ _ H) as [Hp Ha].
  destruct (validate_fuel_last _ _ _ _ _ H) as [c [Hc Hnz]].
  rewrite length_app in Hp. simpl in Hp.
  split; [| exact Ha].
  destruct (Z.eq_dec p (Z.of_nat (length bytes) + 1)) as [-> | Hne]; [| lia].
  rewrite Z.add_simpl_r, rd_terminator in Hc. inversion Hc. congruence.
Qed.

(** What [next_item] has done when it returns an item. *)
Lemma next_item_success (m : mem) (it it' : l_dbus_message_iter)
      (start : ptr) (item_size : Z) :
  next_item m it = Ok (Some (start, item_size), it') ->
  exists bytes p al,
    load_bytes m (ptr_add (sig_start it) (sig_pos it))
               (sig_len it - sig_pos it) = Ok bytes /\
    validate_next_type (bytes ++ [0]) 0 = Ok (Some (p, al)) /\
    1 <= p <= sig_len it - sig_pos it /\ is_alignment al /\
    sig_pos it' = (if is_array (container_type it) then sig_pos it
                   else sig_pos it + p) /\
    start = ptr_add (data it) (size_t (align_len (pos it) al)) /\
    0 < addr_add m (data it) (size_t (align_len (pos it) al))
    < addr_add m (data it) (len it) /\
    pos it' = size_t (size_t (align_len (pos it) al) + item_size).
Proof.
  unfold next_item. intros H.
  destruct (255 <? sig_len it - sig_pos it); [discriminate |].
  inv_bind H. inv_bind H. destruct a0 as [[p al] |]; [| discriminate].
  destruct (validate_in_copy _ _ _ E0) as [Hp Hal].
  rewrite (load_bytes_length _ _ _ _ E) in Hp.
  exists a, p, al.
  split; [exact E |]. split; [exact E0 |]. split; [exact Hp |].
  split; [exact Hal |].
  destruct (is_array (container_type it)) eqn:Ha; simpl in H;
    inv_res H; unfold ret in H;
    match type of H with
    | Ok (next_item_done _ _ _) = _ =>
      injection H as Hd; apply next_item_done_spec in Hd;
        destruct Hd as (_ & Hsp & _ & Hsome);
        destruct (Hsome _ _ eq_refl) as (Hlt & Hst & Hsz & Hps);
        simpl in *; subst; repeat split; solve [assumption | lia]
    | _ => discriminate H
    end.
Qed.

(** Every operation that hands out a child has run [next_item] to an
    item and left the reader as [next_item] did. *)
Lemma yields_next_item_inv (m : mem) (it it' : l_dbus_message_iter) :
  yields m it it' ->
  exists start item_size,
    next_item m it = Ok (Some (start, item_size), it').
Proof.
  intros [st sz H | t v H | c c' H | c c' H | c c' H].
  - exists st, sz. exact H.
  - unfold _gvariant_iter_next_entry_basic in H.
    inv_res H; subst; unfold ret in H; inversion H; subst.
    eexists; eexists; eassumption.
  - unfold _gvariant_iter_enter_struct in H.
    inv_res H; subst; unfold ret in H; inversion H; subst.
    eexists; eexists; eassumption.
  - unfold _gvariant_iter_enter_array in H.
    inv_res H; subst; unfold ret in H; inversion H; subst.
    eexists; eexists; eassumption.
  - unfold _gvariant_iter_enter_variant in H.
    inv_res H; subst; unfold ret in H; inversion H; subst.
    eexists; eexists; eassumption.
Qed.

(** X6: a reader that is not an array reader moves its signature cursor
    forward by at least one character for every child it hands out, by
    whichever operation, and never past the end of its signature window:
    after [k] children, [sig_pos + k <= sig_pos' <= sig_len].  It hands
    out at most [sig_len - sig_pos] children. *)
Theorem X6_non_array_reader_cursor_bounds_children :
  forall (m : mem) (k : nat) (it it' : l_dbus_message_iter),
    is_array (container_type it) = false ->
    sig_pos it <= sig_len it ->
    yields_n m k it it' ->
    sig_pos it + Z.of_nat k <= sig_pos it' <= sig_len it.
Proof.
  intros m k it it' Harr Hle Hn. revert Harr Hle.
  induction Hn as [it | k it it1 it2 H1 _ IH]; intros Harr Hle.
  - simpl. lia.
  - destruct (yields_next_item_inv _ _ _ H1) as (st & sz & Hitem).
    destruct (next_item_success _ _ _ _ _ Hitem)
      as (bytes & p & al & _ & _ & Hp & _ & Hsp & _).
    destruct (next_item_frame _ _ _ _ Hitem) as [Hf _].
    destruct Hf as (_ & _ & Hsl & _ & _ & Hct).
    rewrite Harr in Hsp.
    assert (Harr1 : is_array (container_type it1) = false)
      by (rewrite Hct; exact Harr).
    assert (Hle1 : sig_pos it1 <= sig_len it1) by lia.
    specialize (IH Harr1 Hle1). lia.
Qed.

Lemma X6_non_array_reader_cursor_bounds_children_witness :
  is_array (container_type
              (mk_iter 0 (Ptr 0 0) 2 0 (Ptr 1 0) 9 0
                       DBUS_CONTAINER_TYPE_STRUCT (Ptr 1 8))) = false /\
  sig_pos (mk_iter 0 (Ptr 0 0) 2 0 (Ptr 1 0) 9 0
                   DBUS_CONTAINER_TYPE_STRUCT (Ptr 1 8))
  <= sig_len (mk_iter 0 (Ptr 0 0) 2 0 (Ptr 1 0) 9 0
                      DBUS_CONTAINER_TYPE_STRUCT (Ptr 1 8)) /\
  yields_n s3_mem 2
           (mk_iter 0 (Ptr 0 0) 2 0 (Ptr 1 0) 9 0
                    DBUS_CONTAINER_TYPE_STRUCT (Ptr 1 8))
           s3_done /\
  sig_pos (mk_iter 0 (Ptr 0 0) 2 0 (Ptr 1 0) 9 0
                   DBUS_CONTAINER_TYPE_STRUCT (Ptr 1 8)) + Z.of_nat 2
  <= sig_pos s3_done
  <= sig_len (mk_iter 0 (Ptr 0 0) 2 0 (Ptr 1 0) 9 0
                      DBUS_CONTAINER_TYPE_STRUCT (Ptr 1 8)).
Proof.
  assert (H1 : is_array (container_type
                 (mk_iter 0 (Ptr 0 0) 2 0 (Ptr 1 0) 9 0
                          DBUS_CONTAINER_TYPE_STRUCT (Ptr 1 8))) = false)
    by reflexivity.
  assert (H2 : sig_pos (mk_iter 0 (Ptr 0 0) 2 0 (Ptr 1 0) 9 0
                                DBUS_CONTAINER_TYPE_STRUCT (Ptr 1 8))
               <= sig_len (mk_iter 0 (Ptr 0 0) 2 0 (Ptr 1 0) 9 0
                                   DBUS_CONTAINER_TYPE_STRUCT (Ptr 1 8)))
    by (simpl; lia).
  assert (H3 : yields_n s3_mem 2
                 (mk_iter 0 (Ptr 0 0) 2 0 (Ptr 1 0) 9 0
                          DBUS_CONTAINER_TYPE_STRUCT (Ptr 1 8))
                 s3_done).
  { apply yields_S with
        (it' := mk_iter 0 (Ptr 0 0) 2 1 (Ptr 1 0) 9 3
                        DBUS_CONTAINER_TYPE_STRUCT (Ptr 1 7)).
    - apply (yields_next_basic _ _ _ (chr "s") (VString (Ptr 1 0))).
      vm_compute; reflexivity.
    - apply yields_S with (it' := s3_done); [| apply yields_0].
      apply (yields_next_basic _ _ _ (chr "i") (VInt 7)).
      vm_compute; reflexivity. }
  split; [exact H1 |]. split; [exact H2 |]. split; [exact H3 |].
  exact (X6_non_array_reader_cursor_bounds_children s3_mem 2 _ _ H1 H2 H3).
Defined.

Lemma memchr_list_found (l : list Z) :
  forall n i k,
    memchr_list l n i = Ok (Some k) ->
    exists pre rest,
      l = pre ++ 0 :: rest /\ ~ In 0 pre /\
      Z.of_nat (length pre) = k - i /\ k - i < n.
Proof.
  induction l as [| c tl IH]; intros n i k H; simpl in H.
  - destruct (n <=? 0); discriminate.
  - destruct (Z.leb_spec n 0) as [Hn | Hn]; [discriminate |].
    destruct (Z.eqb_spec c 0) as [Hc | Hc].
    + inversion H; subst. exists [], tl.
      split; [reflexivity |]. split; [intros []|]. simpl. lia.
    + apply IH in H. destruct H as (pre & rest & -> & Hnot & Hlen & Hlt).
      exists (c :: pre), rest. split; [reflexivity |].
      split; [intros [Hin | Hin]; [congruence | contradiction] |].
      simpl length. lia.
Qed.

Lemma strlen_list_prefix (pre rest : list Z) :
  ~ In 0 pre -> strlen_list (pre ++ 0 :: rest) = Ok (Z.of_nat (length pre)).
Proof.
  induction pre as [| c pre IH]; intros Hnot; simpl.
  - reflexivity.
  - destruct (Z.eqb_spec c 0) as [Hc | Hc].
    + exfalso. apply Hnot. left. exact Hc.
    + rewrite IH by (intros Hin; apply Hnot; right; exact Hin).
      simpl. unfold ret. f_equal. lia.
Qed.

(** A NUL found by [memchr] ends a string that starts at the pointer. *)
Lemma memchr0_found_cstring (m : mem) (p : ptr) (n k : Z) :
  memchr0 m p n = Ok (Some k) ->
  exists str, load_cstring m p = Ok str /\ ~ In 0 str /\
              Z.of_nat (length str) = k /\ 0 <= k < n.
Proof.
  unfold memchr0, load_cstring. destruct p as [| b o]; [discriminate |].
  destruct (n <=? 0); [discriminate |].
  destruct (Z.ltb_spec o 0) as [Ho | Ho]; [discriminate |].
  intros H. apply memchr_list_found in H.
  destruct H as (pre & rest & Hl & Hnot & Hlen & Hlt).
  rewrite Hl, (strlen_list_prefix _ _ Hnot). simpl.
  exists pre. split; [| split; [exact Hnot | split; lia]].
  unfold load_bytes.
  assert (Hsk : length (skipn (Z.to_nat o) (m b)) = length (pre ++ 0 :: rest))
    by (rewrite Hl; reflexivity).
  rewrite length_skipn, length_app in Hsk. simpl in Hsk.
  destruct (Z.ltb_spec (Z.of_nat (length pre)) 0) as [Hx | Hx]; [lia |].
  destruct (Z.ltb_spec o 0) as [Hy | Hy]; [lia |].
  destruct (Z.ltb_spec (Z.of_nat (length (m b))) (o + Z.of_nat (length pre)))
    as [Hz | Hz]; [lia |].
  simpl. rewrite Hl, Nat2Z.id, firstn_app, Nat.sub_diag, firstn_all.
  simpl. rewrite app_nil_r. reflexivity.
Qed.

(** X7: whatever a reader in range hands out starts inside its frame.
    In range means that [pos], rounded up to a multiple of 8 and added to
    the address of [data], stays below 2^64, so that neither aligning
    [pos] nor forming [data + pos] wraps.  Then the item [next_item]
    returns starts at [data + q] for some [pos <= q < len], less than 8
    bytes past [pos]; the pointer [next_basic] stores for a string-like
    type is such a start and a NUL-terminated string is readable there;
    the frame of the child reader of an [enter] operation begins at such
    a start. *)
Theorem X7_items_start_inside_the_frame :
  forall (m : mem) (it : l_dbus_message_iter),
    pos_in_range m it ->
    (forall start item_size it',
        next_item m it = Ok (Some (start, item_size), it') ->
        exists q, start = ptr_add (data it) q /\
                  pos it <= q < len it /\ q < pos it + 8) /\
    (forall t it' p,
        _gvariant_iter_next_entry_basic m it t = Ok (true, it', VString p) ->
        exists q str,
          p = ptr_add (data it) q /\ pos it <= q < len it /\
          load_cstring m p = Ok str /\ ~ In 0 str) /\
    (forall c it' c',
        _gvariant_iter_enter_struct m it c = Ok (true, it', c') \/
        _gvariant_iter_enter_array m it c = Ok (true, it', c') \/
        _gvariant_iter_enter_variant m it c = Ok (true, it', c') ->
        exists q, data c' = ptr_add (data it) q /\ pos it <= q < len it).
Proof.
  intros m it Hrange.
  assert (Hitem : forall start item_size it',
             next_item m it = Ok (Some (start, item_size), it') ->
             exists q, start = ptr_add (data it) q /\
                       pos it <= q < len it /\ q < pos it + 8).
  { intros start item_size it' H.
    destruct (next_item_success _ _ _ _ _ H)
      as (bytes & p & al & _ & _ & _ & Hal & _ & Hst & Hlt & _).
    destruct (aligned_pos_in_range m it al Hrange Hal)
      as (Hs & Hle & Hfit & _).
    pose proof (align_len_bounds (pos it) al Hal) as Hb'.
    rewrite Hs in Hst, Hlt.
    destruct Hrange as (Hp0 & Hl0 & _). destruct Hlt as [_ Hlt].
    apply addr_lt_pos_lt in Hlt; [| lia | lia | exact Hfit].
    exists (align_len (pos it) al). split; [exact Hst | lia]. }
  split; [exact Hitem |]. split.
  - intros t it' p H. unfold _gvariant_iter_next_entry_basic in H.
    destruct (pos it >=? len it); [discriminate |].
    inv_bind H. destruct (negb (a =? t)); [discriminate |].
    inv_bind H. destruct a0 as [[[start item_size] |] it1]; [| discriminate].
    inv_bind H. destruct a0 as [v |]; [| discriminate].
    inversion H; subst; clear H.
    destruct (Hitem _ _ _ E0) as (q & Hq & Hr & _).
    unfold decode_basic in E1.
    destruct (is_chr t "o" || is_chr t "s" || is_chr t "g").
    + inv_bind E1. destruct a0 as [k |]; [| discriminate].
      inversion E1; subst p.
      match goal with
      | Hm : memchr0 _ _ _ = Ok (Some _) |- _ =>
        destruct (memchr0_found_cstring _ _ _ _ Hm) as (str & Hs & Hnot & _)
      end.
      exists q, str. repeat split; try assumption; lia.
    + inv_res E1; unfold ret in E1; discriminate.
  - intros c it' c' [H | [H | H]].
    + unfold _gvariant_iter_enter_struct in H.
      inv_res H; subst; unfold ret in H; inversion H; subst.
      match goal with
      | Hi : gvariant_iter_init_internal _ _ _ _ _ _ _ _ = Ok _,
        Hn : next_item _ _ = Ok _ |- _ =>
        apply gvariant_iter_init_internal_success in Hi;
          destruct Hi as (_ & _ & _ & Hd & _);
          destruct (Hitem _ _ _ Hn) as (q & Hq & Hr & _)
      end.
      exists q. rewrite Hd. split; [exact Hq | exact Hr].
    + unfold _gvariant_iter_enter_array in H.
      inv_res H; subst; unfold ret in H; inversion H; subst.
      match goal with
      | Hi : gvariant_iter_init_internal _ _ _ _ _ _ _ _ = Ok _,
        Hn : next_item _ _ = Ok _ |- _ =>
        apply gvariant_iter_init_internal_success in Hi;
          destruct Hi as (_ & _ & _ & Hd & _);
          destruct (Hitem _ _ _ Hn) as (q & Hq & Hr & _)
      end.
      exists q. rewrite Hd. split; [exact Hq | exact Hr].
    + destruct (_gvariant_iter_enter_variant_success _ _ _ _ _ H)
        as (start & sz & k & bytes & _ & Hn & _ & _ & _ & _ & _ & Hd & _).
      destruct (Hitem _ _ _ Hn) as (q & Hq & Hr & _).
      exists q. rewrite Hd. split; [exact Hq | exact Hr].
Qed.

Lemma X7_items_start_inside_the_frame_witness :
  pos_in_range junk_mem (junk_iter 0 0) /\
  _gvariant_iter_next_entry_basic junk_mem (junk_iter 0 0) (chr "o")
  = Ok (true, junk_iter 1 5, VString (Ptr 1 0)) /\
  exists q str,
    Ptr 1 0 = ptr_add (data (junk_iter 0 0)) q /\
    pos (junk_iter 0 0) <= q < len (junk_iter 0 0) /\
    load_cstring junk_mem (Ptr 1 0) = Ok str /\ ~ In 0 str.
Proof.
  assert (R : pos_in_range junk_mem (junk_iter 0 0))
    by (unfold pos_in_range; vm_compute; repeat split; discriminate).
  assert (H : _gvariant_iter_next_entry_basic junk_mem (junk_iter 0 0)
                (chr "o") = Ok (true, junk_iter 1 5, VString (Ptr 1 0)))
    by (vm_compute; reflexivity).
  split; [exact R |]. split; [exact H |].
  exact (proj1 (proj2 (X7_items_start_inside_the_frame
                         junk_mem (junk_iter 0 0) R))
               (chr "o") (junk_iter 1 5) (Ptr 1 0) H).
Defined.

(** ** Initialisation and descent *)

Lemma strlen_list_bound (l : list Z) :
  forall n, strlen_list l = Ok n -> 0 <= n < Z.of_nat (length l).
Proof.
  induction l as [| c tl IH]; intros n H; simpl in H; [discriminate |].
  destruct (c =? 0).
  - inversion H; subst. simpl length. lia.
  - inv_bind H. inversion H; subst. apply IH in E. simpl length. lia.
Qed.

Lemma copy_window_length (m : mem) (ss se : ptr) (sub : list Z) :
  copy_window m ss se = Ok sub -> Z.of_nat (length sub) <= 256.
Proof.
  unfold copy_window. intros H.
  inv_res H; unfold ret in H; inversion H; subst;
    match goal with
    | Hl : load_bytes _ _ _ = Ok _, Hn : (255 <? _) = false |- _ =>
      apply load_bytes_length in Hl; apply Z.ltb_ge in Hn;
        rewrite length_app; simpl; lia
    end.
Qed.

Lemma strlen_list_split (l : list Z) :
  forall n, strlen_list l = Ok n ->
            exists pre rest, l = pre ++ 0 :: rest /\ ~ In 0 pre /\
                             Z.of_nat (length pre) = n.
Proof.
  induction l as [| c tl IH]; intros n H; simpl in H; [discriminate |].
  destruct (Z.eqb_spec c 0) as [Hc | Hc].
  - inversion H; subst. exists [], tl.
    split; [reflexivity |]. split; [intros [] | reflexivity].
  - inv_bind H. inversion H; subst.
    destruct (IH _ E) as (pre & rest & Hl & Hno & Hlen).
    exists (c :: pre), rest. split; [rewrite Hl; reflexivity |].
    split; [| simpl length; lia].
    intros [Hin | Hin]; [congruence | exact (Hno Hin)].
Qed.

(** The first NUL of a terminated copy lies in the copied bytes or is the
    terminator. *)
Lemma terminated_copy_split (pre : list Z) :
  forall bytes rest,
    bytes ++ [0] = pre ++ 0 :: rest -> ~ In 0 pre ->
    bytes = pre \/ exists rest', bytes = pre ++ 0 :: rest'.
Proof.
  induction pre as [| x pre IH]; intros bytes rest H Hno.
  - destruct bytes as [| c tl]; [left; reflexivity |].
    right. exists tl. simpl in H. inversion H; subst. reflexivity.
  - destruct bytes as [| c tl]; simpl in H.
    + inversion H; subst. exfalso. apply Hno. left. reflexivity.
    + inversion H; subst c.
      destruct (IH tl rest) as [-> | (r' & ->)];
        [assumption | intros Hin; apply Hno; right; exact Hin | |].
      * left; reflexivity.
      * right. exists r'. reflexivity.
Qed.

(** The bytes that follow a pointer: a load returns a prefix of them,
    and a single load the byte after the prefix. *)
Lemma skipn_split_load (m : mem) (b : nat) (o : Z) (pre rest : list Z) :
  0 <= o <= Z.of_nat (length (m b)) ->
  skipn (Z.to_nat o) (m b) = pre ++ rest ->
  load_bytes m (Ptr b o) (Z.of_nat (length pre)) = Ok pre /\
  forall c rest', rest = c :: rest' ->
                  load m (Ptr b (o + Z.of_nat (length pre))) = Ok c.
Proof.
  intros Ho Hsk.
  assert (Hlen : (length (m b) - Z.to_nat o
                  = length pre + length rest)%nat).
  { rewrite <- length_skipn, Hsk, length_app. reflexivity. }
  unfold load_bytes, load. split.
  - destruct (Z.ltb_spec (Z.of_nat (length pre)) 0); [lia |].
    destruct (Z.ltb_spec o 0); [lia |].
    destruct (Z.ltb_spec (Z.of_nat (length (m b)))
                         (o + Z.of_nat (length pre))); [lia |].
    cbn [orb]. rewrite Nat2Z.id, Hsk.
    rewrite firstn_app, Nat.sub_diag, firstn_all. simpl.
    rewrite app_nil_r. reflexivity.
  - intros c rest' ->. unfold rd.
    destruct (Z.ltb_spec (o + Z.of_nat (length pre)) 0); [lia |].
    replace (Z.to_nat (o + Z.of_nat (length pre)))
      with (Z.to_nat o + length pre)%nat by lia.
    rewrite <- nth_error_skipn, Hsk.
    rewrite nth_error_app2 by lia. rewrite Nat.sub_diag. reflexivity.
Qed.

Lemma load_bytes_skipn (m : mem) (b : nat) (o n : Z) (bytes : list Z) :
  load_bytes m (Ptr b o) n = Ok bytes ->
  0 <= o <= Z.of_nat (length (m b)) /\
  exists tail, skipn (Z.to_nat o) (m b) = bytes ++ tail.
Proof.
  unfold load_bytes.
  destruct (Z.ltb_spec n 0) as [Hn | Hn]; [discriminate |].
  destruct (Z.ltb_spec o 0) as [Ho | Ho]; [discriminate |].
  destruct (Z.ltb_spec (Z.of_nat (length (m b))) (o + n)) as [Hl | Hl];
    [discriminate |].
  cbn [orb]. intros H. inversion H as [Hb]; clear H.
  split; [lia |].
  exists (skipn (Z.to_nat n) (skipn (Z.to_nat o) (m b))).
  symmetry. apply firstn_skipn.
Qed.

(** What [strlen] of the copied window counts. *)
Lemma copy_window_strlen (m : mem) (ss se : ptr) (sub : list Z) (k : Z) :
  copy_window m ss se = Ok sub -> strlen_list sub = Ok k ->
  0 <= k <= 255 /\
  (exists window, load_bytes m ss k = Ok window /\ ~ In 0 window) /\
  match se with
  | NULL => load m (ptr_add ss k) = Ok 0
  | Ptr _ _ =>
    exists n, ptr_diff se ss = Ok n /\ k <= n <= 255 /\
              (k < n -> load m (ptr_add ss k) = Ok 0)
  end.
Proof.
  intros Hc Hs.
  assert (Hk : 0 <= k <= 255).
  { apply copy_window_length in Hc. apply strlen_list_bound in Hs. lia. }
  split; [exact Hk |].
  unfold copy_window in Hc. destruct se as [| be oe].
  - destruct ss as [| b o]; [discriminate |].
    destruct (Z.ltb_spec o 0) as [Ho | Ho]; [discriminate |].
    inv_bind Hc. destruct (255 <? a); [discriminate |].
    inv_bind Hc. unfold ret in Hc. inversion Hc as [Hw]; clear Hc.
    destruct (strlen_list_split _ _ E) as (pre & rest & Hsk & Hno & Hlen).
    assert (Hin : 0 <= o <= Z.of_nat (length (m b))).
    { assert (Hl : length (skipn (Z.to_nat o) (m b))
                   = length (pre ++ 0 :: rest)) by (rewrite Hsk; reflexivity).
      rewrite length_skipn, length_app in Hl. simpl in Hl. lia. }
    destruct (skipn_split_load m b o pre (0 :: rest) Hin Hsk)
      as [Hload Hnul].
    rewrite Hlen in Hload, Hnul. rewrite Hload in E0.
    inversion E0; subst a0.
    rewrite <- Hw, (strlen_list_prefix pre [] Hno) in Hs.
    inversion Hs; subst k. rewrite Hlen.
    split; [exists pre; split; [exact Hload | exact Hno] |].
    exact (Hnul 0 rest eq_refl).
  - inv_bind Hc. destruct (Z.ltb_spec 255 a) as [Hbig | Hbig];
      [discriminate |].
    inv_bind Hc. unfold ret in Hc. inversion Hc as [Hw]; clear Hc.
    rewrite <- Hw in Hs.
    destruct (strlen_list_split _ _ Hs) as (pre & rest & Hsub & Hno & Hlen).
    pose proof (load_bytes_length _ _ _ _ E0) as Hn.
    destruct ss as [| b o]; [discriminate E0 |].
    destruct (load_bytes_skipn _ _ _ _ _ E0) as (Hin & tail & Hsk).
    destruct (terminated_copy_split _ _ _ Hsub Hno) as [-> | (r' & ->)].
    + destruct (skipn_split_load m b o pre tail Hin Hsk) as [Hload _].
      rewrite Hlen in Hload.
      split; [exists pre; split; [exact Hload | exact Hno] |].
      exists a. split; [exact E |]. split; [lia |]. lia.
    + rewrite <- app_assoc in Hsk.
      destruct (skipn_split_load m b o pre _ Hin Hsk) as [Hload Hnul].
      rewrite Hlen in Hload, Hnul.
      split; [exists pre; split; [exact Hload | exact Hno] |].
      exists a. split; [exact E |].
      rewrite length_app in Hn. simpl length in Hn.
      split; [lia |]. intros _. simpl.
      exact (Hnul 0 _ eq_refl).
Qed.

(** X8: whenever [gvariant_iter_init_internal] returns, with either
    verdict, it has overwritten the output reader.  [message],
    [sig_start], [data] and [len] are the arguments, [sig_pos] and [pos]
    are 0, and [container_type] is the requested type on success and the
    old content of the output reader on failure.  [sig_len] is the length
    of the copied window, at most 255: the [sig_len] bytes at [sig_start]
    hold no NUL, and they are followed by a NUL unless they reach
    [sig_end]; without a [sig_end] the window is the string at
    [sig_start]. *)
Theorem X8_init_overwrites_the_output_reader :
  forall (m : mem) (iter iter' : l_dbus_message_iter) (msg : Z)
         (type : dbus_container_type) (ss se d : ptr) (l : Z) (ok : bool),
    gvariant_iter_init_internal m iter msg type ss se d l = Ok (ok, iter') ->
    message iter' = msg /\ sig_start iter' = ss /\ data iter' = d /\
    len iter' = l /\ sig_pos iter' = 0 /\ pos iter' = 0 /\
    container_type iter' = (if ok then type else container_type iter) /\
    0 <= sig_len iter' <= 255 /\
    (exists window,
        load_bytes m ss (sig_len iter') = Ok window /\ ~ In 0 window) /\
    match se with
    | NULL => load m (ptr_add ss (sig_len iter')) = Ok 0
    | Ptr _ _ =>
      exists n, ptr_diff se ss = Ok n /\ sig_len iter' <= n <= 255 /\
                (sig_len iter' < n ->
                 load m (ptr_add ss (sig_len iter')) = Ok 0)
    end.
Proof.
  intros m iter iter' msg type ss se d l ok H.
  unfold gvariant_iter_init_internal in H.
  inv_bind H. inv_bind H.
  pose proof (copy_window_strlen _ _ _ _ _ E E0) as Hwin.
  assert (Hfields : message iter' = msg /\ sig_start iter' = ss /\
                    data iter' = d /\ len iter' = l /\ sig_pos iter' = 0 /\
                    pos iter' = 0 /\
                    container_type iter'
                    = (if ok then type else container_type iter) /\
                    sig_len iter' = a0).
  { inv_res H; unfold ret in H; inversion H; subst; simpl;
      repeat split; reflexivity. }
  destruct Hfields as (F1 & F2 & F3 & F4 & F5 & F6 & F7 & F8).
  rewrite F8. repeat (split; [assumption |]). exact Hwin.
Qed.

Lemma X8_init_overwrites_the_output_reader_witness :
  gvariant_iter_init_internal (mem_of (cstring "yi") [1; 0; 0])
    (junk_iter 1 5) 7 DBUS_CONTAINER_TYPE_ARRAY (Ptr 0 0) NULL (Ptr 1 0) 3
  = Ok (false, mk_iter 7 (Ptr 0 0) 2 0 (Ptr 1 0) 3 0
                       DBUS_CONTAINER_TYPE_STRUCT NULL) /\
  sig_len (mk_iter 7 (Ptr 0 0) 2 0 (Ptr 1 0) 3 0
                   DBUS_CONTAINER_TYPE_STRUCT NULL) = 2 /\
  (exists window,
      load_bytes (mem_of (cstring "yi") [1; 0; 0]) (Ptr 0 0) 2 = Ok window /\
      ~ In 0 window) /\
  load (mem_of (cstring "yi") [1; 0; 0]) (ptr_add (Ptr 0 0) 2) = Ok 0.
Proof.
  assert (H : gvariant_iter_init_internal (mem_of (cstring "yi") [1; 0; 0])
                (junk_iter 1 5) 7 DBUS_CONTAINER_TYPE_ARRAY (Ptr 0 0) NULL
                (Ptr 1 0) 3
              = Ok (false, mk_iter 7 (Ptr 0 0) 2 0 (Ptr 1 0) 3 0
                                   DBUS_CONTAINER_TYPE_STRUCT NULL))
    by (vm_compute; reflexivity).
  split; [exact H |]. split; [reflexivity |].
  exact (proj2 (proj2 (proj2 (proj2 (proj2 (proj2 (proj2 (proj2
           (X8_init_overwrites_the_output_reader _ _ _ _ _ _ _ _ _ _
              H))))))))).
Defined.

(** X9: when [enter_struct] or [enter_array] returns true, the parent
    reader is exactly as [next_item] left it after handing out one item,
    and the child reader is at its start ([sig_pos = 0], [pos = 0]) over
    that item: its frame is the item, its signature window begins one
    character after the parent's cursor, it carries the parent's message
    handle, and its container type is DICT_ENTRY for '{', STRUCT for '('
    and ARRAY for 'a'. *)
Theorem X9_enter_struct_and_array_configure_the_child :
  forall (m : mem) (it it' c c' : l_dbus_message_iter),
    (_gvariant_iter_enter_struct m it c = Ok (true, it', c') ->
     exists ch start item_size,
       sig_char m it = Ok ch /\ (ch = chr "(" \/ ch = chr "{") /\
       next_item m it = Ok (Some (start, item_size), it') /\
       data c' = start /\ len c' = item_size /\
       sig_start c' = ptr_add (ptr_add (sig_start it) (sig_pos it)) 1 /\
       sig_pos c' = 0 /\ pos c' = 0 /\ message c' = message it /\
       container_type c' = (if ch =? chr "{"
                            then DBUS_CONTAINER_TYPE_DICT_ENTRY
                            else DBUS_CONTAINER_TYPE_STRUCT)) /\
    (_gvariant_iter_enter_array m it c = Ok (true, it', c') ->
     exists start item_size,
       sig_char m it = Ok (chr "a") /\
       next_item m it = Ok (Some (start, item_size), it') /\
       data c' = start /\ len c' = item_size /\
       sig_start c' = ptr_add (ptr_add (sig_start it) (sig_pos it)) 1 /\
       sig_pos c' = 0 /\ pos c' = 0 /\ message c' = message it /\
       container_type c' = DBUS_CONTAINER_TYPE_ARRAY).
Proof.
  intros m it it' c c'. split; intros H.
  - unfold _gvariant_iter_enter_struct in H.
    inv_bind H.
    destruct (negb (is_chr a "{") && negb (is_chr a "(")) eqn:Hg;
      [discriminate |].
    inv_bind H. destruct a0 as [[[start item_size] |] it1]; [| discriminate].
    inv_bind H. destruct a0 as [ok child]. inversion H; subst; clear H.
    destruct (next_item_frame _ _ _ _ E0) as [(Hm & _) _].
    apply gvariant_iter_init_internal_success in E1.
    destruct E1 as (Hmsg & Hss & Hsp & Hd & Hl & Hp & Hct).
    exists a, start, item_size.
    split; [exact E |]. split.
    { unfold is_chr in Hg.
      destruct (Z.eqb_spec a (chr "{")); [right; assumption |].
      destruct (Z.eqb_spec a (chr "(")); [left; assumption |].
      discriminate. }
    split; [exact E0 |].
    repeat (split; [assumption || congruence |]).
    exact Hct.
  - unfold _gvariant_iter_enter_array in H.
    inv_bind H. destruct (is_chr a "a") eqn:Hg; simpl in H; [| discriminate].
    apply Z.eqb_eq in Hg. subst a.
    inv_bind H. destruct a as [[[start item_size] |] it1]; [| discriminate].
    inv_bind H. destruct a as [ok child]. inversion H; subst; clear H.
    destruct (next_item_frame _ _ _ _ E0) as [(Hm & _) _].
    apply gvariant_iter_init_internal_success in E1.
    destruct E1 as (Hmsg & Hss & Hsp & Hd & Hl & Hp & Hct).
    exists start, item_size.
    split; [exact E |]. split; [exact E0 |].
    repeat (split; [assumption || congruence |]).
    exact Hct.
Qed.

Lemma X9_enter_struct_and_array_configure_the_child_witness :
  _gvariant_iter_enter_array s4_mem
    (mk_iter 0 (Ptr 0 0) 2 0 (Ptr 1 0) 12 0 DBUS_CONTAINER_TYPE_STRUCT NULL)
    blank_iter
  = Ok (true,
        mk_iter 0 (Ptr 0 0) 2 2 (Ptr 1 0) 12 12
                DBUS_CONTAINER_TYPE_STRUCT NULL,
        s4_array 0) /\
  exists start item_size,
    sig_char s4_mem
      (mk_iter 0 (Ptr 0 0) 2 0 (Ptr 1 0) 12 0
               DBUS_CONTAINER_TYPE_STRUCT NULL) = Ok (chr "a") /\
    next_item s4_mem
      (mk_iter 0 (Ptr 0 0) 2 0 (Ptr 1 0) 12 0
               DBUS_CONTAINER_TYPE_STRUCT NULL)
    = Ok (Some (start, item_size),
          mk_iter 0 (Ptr 0 0) 2 2 (Ptr 1 0) 12 12
                  DBUS_CONTAINER_TYPE_STRUCT NULL) /\
    data (s4_array 0) = start /\ len (s4_array 0) = item_size /\
    sig_start (s4_array 0)
    = ptr_add (ptr_add (sig_start
                          (mk_iter 0 (Ptr 0 0) 2 0 (Ptr 1 0) 12 0
                                   DBUS_CONTAINER_TYPE_STRUCT NULL))
                       (sig_pos
                          (mk_iter 0 (Ptr 0 0) 2 0 (Ptr 1 0) 12 0
                                   DBUS_CONTAINER_TYPE_STRUCT NULL))) 1 /\
    sig_pos (s4_array 0) = 0 /\ pos (s4_array 0) = 0 /\
    message (s4_array 0)
    = message (mk_iter 0 (Ptr 0 0) 2 0 (Ptr 1 0) 12 0
                       DBUS_CONTAINER_TYPE_STRUCT NULL) /\
    container_type (s4_array 0) = DBUS_CONTAINER_TYPE_ARRAY.
Proof.
  assert (H : _gvariant_iter_enter_array s4_mem
                (mk_iter 0 (Ptr 0 0) 2 0 (Ptr 1 0) 12 0
                         DBUS_CONTAINER_TYPE_STRUCT NULL) blank_iter
              = Ok (true,
                    mk_iter 0 (Ptr 0 0) 2 2 (Ptr 1 0) 12 12
                            DBUS_CONTAINER_TYPE_STRUCT NULL,
                    s4_array 0))
    by (vm_compute; reflexivity).
  split; [exact H |].
  exact (proj2 (X9_enter_struct_and_array_configure_the_child
                  s4_mem _ _ blank_iter (s4_array 0)) H).
Defined.

(** ** How [next_item] sizes an item *)

Lemma size_t_add_sub (q w : Z) : size_t (q + size_t (w - q)) = size_t w.
Proof.
  unfold size_t. rewrite Z.add_mod_idemp_r by (vm_compute; discriminate).
  f_equal. lia.
Qed.

(** X10: an item [next_item] hands out is sized in one of three ways.
    Let [sub] be the copy of the signature window cut after its first
    complete type, and [q] the aligned cursor; for a reader in range the
    item starts at [data + q] with [pos <= q < len].  Either [sub] is of
    fixed size and the item has that size; or [sub] is not of fixed size,
    the reader is not an array reader, the type is the last of the window
    and the item runs to the end of the frame, leaving [pos = len] (the
    bytes of an offset table at the tail of the frame included); or [sub]
    is not of fixed size, the reader is an array reader or the type is
    not the last, [offsets] lies (as an address) below [data + len], the
    word under [offsets], of width [offset_length(len, 0)], has been
    read, the item ends at the offset stored there ([pos] becomes that
    word), and [offsets] has moved by one word, forward in an array
    reader and backward otherwise.  In the first two cases [offsets] is
    untouched. *)
Theorem X10_next_item_sizes_an_item_three_ways :
  forall (m : mem) (it it' : l_dbus_message_iter) (start : ptr)
         (item_size : Z),
    len it < 2 ^ 64 -> pos_in_range m it ->
    next_item m it = Ok (Some (start, item_size), it') ->
    exists bytes p al sub q,
      load_bytes m (ptr_add (sig_start it) (sig_pos it))
                 (sig_len it - sig_pos it) = Ok bytes /\
      validate_next_type (bytes ++ [0]) 0 = Ok (Some (p, al)) /\
      sub = buf_set (bytes ++ [0]) (Z.to_nat p) 0 /\
      q = align_len (pos it) al /\
      start = ptr_add (data it) q /\ pos it <= q < len it /\
      ((_gvariant_is_fixed_size sub 0 = Ok true /\
        _gvariant_get_fixed_size sub 0 = Ok item_size /\
        pos it' = size_t (q + item_size) /\ offsets it' = offsets it) \/
       (_gvariant_is_fixed_size sub 0 = Ok false /\
        is_array (container_type it) = false /\
        rd (bytes ++ [0]) p = Ok 0 /\
        item_size = len it - q /\ pos it' = len it /\
        offsets it' = offsets it) \/
       (_gvariant_is_fixed_size sub 0 = Ok false /\
        (is_array (container_type it) = true \/
         exists c, rd (bytes ++ [0]) p = Ok c /\ c <> 0) /\
        addr m (offsets it) < addr_add m (data it) (len it) /\
        exists w,
          read_word_le m (offsets it) (offset_length (len it) 0) = Ok w /\
          item_size = size_t (w - q) /\ pos it' = size_t w /\
          offsets it' = ptr_add (offsets it)
                                (if is_array (container_type it)
                                 then offset_length (len it) 0
                                 else - offset_length (len it) 0))).
Proof.
  intros m it it' start item_size Hlen Hrange H.
  assert (Hlen' : len it < 18446744073709551616) by exact Hlen.
  clear Hlen.
  destruct (next_item_success _ _ _ _ _ H)
    as (bytes & p & al & Hb & Hv & _ & Hal & _ & Hst & Hlt & Hps).
  destruct (aligned_pos_in_range m it al Hrange Hal)
    as (Hsq & Hle & Hfit & _).
  destruct Hrange as (Hpos0 & Hlen0 & _).
  rewrite Hsq in *. destruct Hlt as [_ Hlt].
  apply addr_lt_pos_lt in Hlt; [| lia | lia | exact Hfit].
  exists bytes, p, al, (buf_set (bytes ++ [0]) (Z.to_nat p) 0),
    (align_len (pos it) al).
  split; [exact Hb |]. split; [exact Hv |]. split; [reflexivity |].
  split; [reflexivity |]. split; [exact Hst |]. split; [lia |].
  unfold next_item in H.
  destruct (255 <? sig_len it - sig_pos it); [discriminate |].
  rewrite Hb in H. simpl in H. rewrite Hv in H. simpl in H.
  inv_bind H. inv_bind H.
  assert (Hp2 : pos (if is_array (container_type it) then it
                     else set_sig_pos it (sig_pos it + p)) = pos it)
    by (destruct (is_array (container_type it)); reflexivity).
  assert (Hc2 : container_type
                  (if is_array (container_type it) then it
                   else set_sig_pos it (sig_pos it + p)) = container_type it)
    by (destruct (is_array (container_type it)); reflexivity).
  assert (Ho2 : offsets (if is_array (container_type it) then it
                         else set_sig_pos it (sig_pos it + p)) = offsets it)
    by (destruct (is_array (container_type it)); reflexivity).
  assert (Hl2 : len (if is_array (container_type it) then it
                     else set_sig_pos it (sig_pos it + p)) = len it)
    by (destruct (is_array (container_type it)); reflexivity).
  assert (Hd2 : data (if is_array (container_type it) then it
                      else set_sig_pos it (sig_pos it + p)) = data it)
    by (destruct (is_array (container_type it)); reflexivity).
  inv_res H; unfold ret in H;
    match type of H with
    | Ok (next_item_done _ _ _) = _ =>
      injection H as Hd; apply next_item_done_spec in Hd;
        destruct Hd as (_ & _ & Hof & Hsome);
        destruct (Hsome _ _ eq_refl) as (_ & _ & Hsz & _);
        simpl in *; rewrite ?Hp2, ?Hc2, ?Ho2, ?Hl2, ?Hd2, ?Hsq in *
    | _ => discriminate H
    end.
  - left. subst item_size.
    split; [assumption |]. split; [assumption |].
    split; [exact Hps | exact Hof].
  - right; left.
    match goal with
    | Hc : negb _ && _ = true |- _ =>
      apply andb_true_iff in Hc; destruct Hc as [Hc Hz];
        apply negb_true_iff in Hc; apply Z.eqb_eq in Hz
    end.
    subst a. split; [assumption |]. split; [assumption |].
    split; [assumption |].
    assert (Hsz' : item_size = len it - align_len (pos it) al)
      by (rewrite Hsz; apply size_t_small;
          change (2 ^ 64) with 18446744073709551616; lia).
    split; [exact Hsz' |]. split; [| exact Hof].
    rewrite Hps, Hsz'.
    replace (align_len (pos it) al + (len it - align_len (pos it) al))
      with (len it) by lia.
    apply size_t_small. change (2 ^ 64) with 18446744073709551616. lia.
  - right; right. split; [assumption |].
    split.
    { match goal with
      | Hc : negb _ && _ = false |- _ =>
        apply andb_false_iff in Hc; destruct Hc as [Hc | Hc];
          [left; apply negb_false_iff in Hc; exact Hc
          | right; exists a; split; [assumption |];
            apply Z.eqb_neq; exact Hc]
      end. }
    split.
    { match goal with
      | Hc : (addr _ _ >=? addr_add _ _ _) = false |- _ =>
        destruct (Z.geb_spec (addr m (offsets it))
                             (addr_add m (data it) (len it)));
          [discriminate Hc | assumption]
      end. }
    eexists. split; [eassumption |]. split; [exact Hsz |].
    split; [| exact Hof].
    rewrite Hps, Hsz. apply size_t_add_sub.
Qed.

Lemma X10_next_item_sizes_an_item_three_ways_witness :
  len (s5_array 0 5) < 2 ^ 64 /\
  pos_in_range s5_mem (s5_array 0 5) /\
  next_item s5_mem (s5_array 0 5)
  = Ok (Some (Ptr 1 0, 2), s5_array 2 6) /\
  exists bytes p al sub q,
    load_bytes s5_mem
               (ptr_add (sig_start (s5_array 0 5)) (sig_pos (s5_array 0 5)))
               (sig_len (s5_array 0 5) - sig_pos (s5_array 0 5))
    = Ok bytes /\
    validate_next_type (bytes ++ [0]) 0 = Ok (Some (p, al)) /\
    sub = buf_set (bytes ++ [0]) (Z.to_nat p) 0 /\
    q = align_len (pos (s5_array 0 5)) al /\
    Ptr 1 0 = ptr_add (data (s5_array 0 5)) q /\
    pos (s5_array 0 5) <= q < len (s5_array 0 5) /\
    ((_gvariant_is_fixed_size sub 0 = Ok true /\
      _gvariant_get_fixed_size sub 0 = Ok 2 /\
      pos (s5_array 2 6) = size_t (q + 2) /\
      offsets (s5_array 2 6) = offsets (s5_array 0 5)) \/
     (_gvariant_is_fixed_size sub 0 = Ok false /\
      is_array (container_type (s5_array 0 5)) = false /\
      rd (bytes ++ [0]) p = Ok 0 /\
      2 = len (s5_array 0 5) - q /\
      pos (s5_array 2 6) = len (s5_array 0 5) /\
      offsets (s5_array 2 6) = offsets (s5_array 0 5)) \/
     (_gvariant_is_fixed_size sub 0 = Ok false /\
      (is_array (container_type (s5_array 0 5)) = true \/
       exists c, rd (bytes ++ [0]) p = Ok c /\ c <> 0) /\
      addr s5_mem (offsets (s5_array 0 5))
      < addr_add s5_mem (data (s5_array 0 5)) (len (s5_array 0 5)) /\
      exists w,
        read_word_le s5_mem (offsets (s5_array 0 5))
                     (offset_length (len (s5_array 0 5)) 0) = Ok w /\
        2 = size_t (w - q) /\ pos (s5_array 2 6) = size_t w /\
        offsets (s5_array 2 6)
        = ptr_add (offsets (s5_array 0 5))
                  (if is_array (container_type (s5_array 0 5))
                   then offset_length (len (s5_array 0 5)) 0
                   else - offset_length (len (s5_array 0 5)) 0))).
Proof.
  assert (H1 : len (s5_array 0 5) < 2 ^ 64) by reflexivity.
  assert (H2 : pos_in_range s5_mem (s5_array 0 5))
    by (unfold pos_in_range; vm_compute; repeat split; discriminate).
  assert (H3 : next_item s5_mem (s5_array 0 5)
               = Ok (Some (Ptr 1 0, 2), s5_array 2 6))
    by (vm_compute; reflexivity).
  split; [exact H1 |]. split; [exact H2 |]. split; [exact H3 |].
  exact (X10_next_item_sizes_an_item_three_ways
           s5_mem (s5_array 0 5) (s5_array 2 6) (Ptr 1 0) 2 H1 H2 H3).
Defined.

(** ** Arrays of fixed-size basic elements *)

Lemma load_bytes_one (m : mem) (p : ptr) (c : Z) :
  load m p = Ok c -> load_bytes m p 1 = Ok [c].
Proof.
  unfold load, load_bytes, rd. destruct p as [| b o]; [discriminate |].
  destruct (Z.ltb_spec o 0) as [Ho | Ho]; [discriminate |].
  destruct (nth_error (m b) (Z.to_nat o)) as [x |] eqn:Hn; [| discriminate].
  intros H; inversion H; subst x.
  assert (Hlt : (Z.to_nat o < length (m b))%nat)
    by (apply nth_error_Some; rewrite Hn; discriminate).
  destruct (Z.ltb_spec (Z.of_nat (length (m b))) (o + 1)) as [Hl | Hl];
    [lia |].
  simpl. f_equal.
  destruct (nth_error_split _ _ Hn) as (l1 & l2 & Hm & Hl1).
  rewrite Hm, <- Hl1, skipn_app, Nat.sub_diag, skipn_all.
  reflexivity.
Qed.

Lemma fixed_type_copy (t : Z) :
  t <> 0 -> strchr fixed_types t = true ->
  validate_next_type [t; 0] 0 = Ok (Some (1, get_basic_alignment t)) /\
  _gvariant_is_fixed_size [t; 0] 0 = Ok true /\
  _gvariant_get_fixed_size [t; 0] 0 = Ok (get_basic_fixed_size t) /\
  get_basic_alignment t = get_basic_fixed_size t /\
  is_alignment (get_basic_alignment t).
Proof.
  intros Hnz H. apply (strchr_in _ _ Hnz) in H.
  unfold fixed_types in H. simpl in H. unfold is_alignment.
  repeat (destruct H as [H | H];
          [subst t; vm_compute; repeat split; tauto |]).
  contradiction.
Qed.

Lemma align_len_aligned (x a : Z) :
  is_alignment a -> x mod a = 0 -> align_len x a = x.
Proof.
  unfold align_len, is_alignment.
  intros [-> | [-> | [-> | ->]]] Hx;
    Z.to_euclidean_division_equations; lia.
Qed.

Lemma decode_fixed_basic (m : mem) (t : Z) (start : ptr) (bs : list Z) :
  t <> 0 -> strchr fixed_types t = true ->
  load_bytes m start (get_basic_fixed_size t) = Ok bs ->
  exists v, decode_basic m t start (get_basic_fixed_size t) = Ok (Some v).
Proof.
  intros Hnz H Hb. apply (strchr_in _ _ Hnz) in H.
  unfold fixed_types in H. simpl in H.
  repeat (destruct H as [H | H];
          [subst t;
           match type of Hb with
           | load_bytes _ _ ?w = _ =>
             let v := eval vm_compute in w in change w with v in *
           end;
           unfold decode_basic, get_u, get_s, read_word_le; simpl;
           repeat match goal with
                  | |- context [?a / 8] =>
                    let v := eval vm_compute in (a / 8) in
                    change (a / 8) with v
                  end;
           rewrite Hb; simpl; eexists; reflexivity |]).
  contradiction.
Qed.

(** X11: an array reader whose element type is a fixed-size basic type
    steps through its frame by the width of that type.  [data] is not
    the null pointer and the frame is taken where [data + len] does not
    wrap: the address of [data] plus [len] is below 2^64.  With [pos] a
    multiple of the width and below
    [len], [next_item] hands out the [width] bytes at [data + pos] and
    only adds the width to [pos] ([sig_pos] and [offsets] are untouched),
    and [next_basic] with that type returns true when those bytes are
    readable.  Only the start of the element is compared with the end of
    the frame. *)
Theorem X11_array_of_fixed_basic_type_steps_by_width :
  forall (m : mem) (it : l_dbus_message_iter) (t : Z),
    container_type it = DBUS_CONTAINER_TYPE_ARRAY ->
    sig_len it = sig_pos it + 1 ->
    sig_char m it = Ok t -> t <> 0 -> strchr fixed_types t = true ->
    0 <= pos it < len it -> len it <= 2 ^ 64 - 8 ->
    0 < addr m (data it) -> addr m (data it) + len it < 2 ^ 64 ->
    pos it mod get_basic_fixed_size t = 0 ->
    let w := get_basic_fixed_size t in
    let start := ptr_add (data it) (pos it) in
    let it' := set_pos it (pos it + w) in
    next_item m it = Ok (Some (start, w), it') /\
    (forall bs, load_bytes m start w = Ok bs ->
                exists v, _gvariant_iter_next_entry_basic m it t
                          = Ok (true, it', v)).
Proof.
  intros m it t Hct Hsl Hc Hnz Hft Hpos Hlen Hnull Hfit Hmod w start it'.
  destruct (fixed_type_copy t Hnz Hft) as (Hv & Hif & Hgf & Haw & Hal).
  assert (Hlen' : len it <= 18446744073709551608) by exact Hlen.
  assert (Hlt : addr_add m (data it) (pos it)
                < addr_add m (data it) (len it))
    by (apply addr_lt_of_pos_lt; [lia | lia | exact Hfit]).
  assert (Hitem : next_item m it = Ok (Some (start, w), it')).
  { unfold next_item.
    replace (sig_len it - sig_pos it) with 1 by lia. simpl.
    unfold sig_char in Hc. rewrite (load_bytes_one _ _ _ Hc). simpl.
    rewrite Hv. simpl. change (buf_set [t; 0] 1 0) with [t; 0].
    rewrite Hif. simpl. rewrite Hgf. simpl.
    rewrite Hct. simpl.
    rewrite Haw in Hal. rewrite Haw, (align_len_aligned _ _ Hal Hmod).
    rewrite size_t_small
      by (change (2 ^ 64) with 18446744073709551616; lia).
    unfold next_item_done. simpl.
    assert (Hge : (addr_add m (data it) (pos it)
                   >=? addr_add m (data it) (len it)) = false)
      by (destruct (Z.geb_spec (addr_add m (data it) (pos it))
                               (addr_add m (data it) (len it)));
          [lia | reflexivity]).
    assert (Hnn : (addr_add m (data it) (pos it) =? 0) = false)
      by (apply Z.eqb_neq; rewrite addr_add_exact by lia; lia).
    rewrite Hge, Hnn. unfold ret. f_equal. f_equal.
    unfold it', w, set_pos. simpl. f_equal.
    apply size_t_small.
    assert (0 < get_basic_fixed_size t <= 8)
      by (unfold is_alignment in Hal; lia).
    change (2 ^ 64) with 18446744073709551616. lia. }
  split; [exact Hitem |].
  intros bs Hbs.
  destruct (decode_fixed_basic _ _ _ _ Hnz Hft Hbs) as [v Hv'].
  exists v. unfold _gvariant_iter_next_entry_basic.
  assert (Hge : (pos it >=? len it) = false)
    by (destruct (Z.geb_spec (pos it) (len it)); [lia | reflexivity]).
  rewrite Hge, Hc. simpl. rewrite Z.eqb_refl. simpl.
  rewrite Hitem. simpl. fold w in Hv'. fold start in Hv'.
  rewrite Hv'. reflexivity.
Qed.

Lemma X11_array_of_fixed_basic_type_steps_by_width_witness :
  container_type (s4_array 4) = DBUS_CONTAINER_TYPE_ARRAY /\
  sig_len (s4_array 4) = sig_pos (s4_array 4) + 1 /\
  sig_char s4_mem (s4_array 4) = Ok (chr "i") /\
  chr "i" <> 0 /\ strchr fixed_types (chr "i") = true /\
  0 <= pos (s4_array 4) < len (s4_array 4) /\
  len (s4_array 4) <= 2 ^ 64 - 8 /\
  0 < addr s4_mem (data (s4_array 4)) /\
  addr s4_mem (data (s4_array 4)) + len (s4_array 4) < 2 ^ 64 /\
  pos (s4_array 4) mod get_basic_fixed_size (chr "i") = 0 /\
  next_item s4_mem (s4_array 4) = Ok (Some (Ptr 1 4, 4), s4_array 8).
Proof.
  assert (H1 : container_type (s4_array 4) = DBUS_CONTAINER_TYPE_ARRAY)
    by reflexivity.
  assert (H2 : sig_len (s4_array 4) = sig_pos (s4_array 4) + 1)
    by reflexivity.
  assert (H3 : sig_char s4_mem (s4_array 4) = Ok (chr "i"))
    by (vm_compute; reflexivity).
  assert (H4 : chr "i" <> 0) by (vm_compute; discriminate).
  assert (H5 : strchr fixed_types (chr "i") = true) by reflexivity.
  assert (H6 : 0 <= pos (s4_array 4) < len (s4_array 4)) by (simpl; lia).
  assert (H7 : len (s4_array 4) <= 2 ^ 64 - 8)
    by (simpl; vm_compute; discriminate).
  assert (H8 : pos (s4_array 4) mod get_basic_fixed_size (chr "i") = 0)
    by reflexivity.
  assert (H9 : addr s4_mem (data (s4_array 4)) + len (s4_array 4) < 2 ^ 64)
    by reflexivity.
  assert (H10 : 0 < addr s4_mem (data (s4_array 4))) by reflexivity.
  repeat (split; [assumption |]).
  exact (proj1 (X11_array_of_fixed_basic_type_steps_by_width
                  s4_mem (s4_array 4) (chr "i") H1 H2 H3 H4 H5 H6 H7 H10
                  H9 H8)).
Defined.

(** ** The validator only depends on more budget by returning sooner *)

Lemma struct_members_mono (rec1 rec2 : Z -> res (option (Z * Z)))
      (buf : list Z) :
  (forall q r, rec1 q = Ok r -> rec2 q = Ok r) ->
  forall (n n' : nat) p mx r,
    (n <= n')%nat ->
    struct_members rec1 buf n p mx = Ok r ->
    struct_members rec2 buf n' p mx = Ok r.
Proof.
  intros Hrec. induction n as [| n IH]; intros n' p mx r Hle H;
    [discriminate |].
  destruct n' as [| n']; [lia |].
  simpl in *. inv_bind H. rewrite E. simpl.
  destruct (is_chr a ")"); [exact H |].
  inv_bind H. rewrite (Hrec _ _ E0). simpl.
  destruct a0 as [[p' al] |]; [| exact H].
  apply IH; [lia | exact H].
Qed.

Lemma validate_fuel_mono (buf : list Z) (n : nat) :
  forall n' s r,
    (n <= n')%nat ->
    validate_next_type_fuel n buf s = Ok r ->
    validate_next_type_fuel n' buf s = Ok r.
Proof.
  induction n as [| n IH]; intros n' s r Hle H; [discriminate |].
  destruct n' as [| n']; [lia |].
  rewrite validate_fuel_S in *. inv_bind H. rewrite E. cbn [bind].
  destruct (a =? 0); [exact H |].
  destruct (strchr simple_types a || is_chr a "v"); [exact H |].
  destruct (is_chr a "a"); [apply IH; [lia | exact H] |].
  destruct (is_chr a "{").
  { inv_bind H. rewrite E0. cbn [bind].
    destruct (negb (strchr simple_types a0)); [exact H |].
    inv_bind H. rewrite (IH n' _ _ ltac:(lia) E1). cbn [bind]. exact H. }
  destruct (is_chr a "("); [| exact H].
  eapply struct_members_mono; [| | exact H]; [| lia].
  intros q r' Hq. apply IH; [lia | exact Hq].
Qed.

(** A validation below the full budget is a validation. *)
Lemma validate_fuel_full (buf : list Z) (s : Z) (r : option (Z * Z)) :
  validate_next_type_fuel (length buf) buf s = Ok r ->
  validate_next_type buf s = Ok r.
Proof.
  intros H. unfold validate_next_type.
  eapply validate_fuel_mono; [| exact H]. lia.
Qed.

(** ** The shape of an accepted type *)

Lemma struct_members_members (rec : Z -> res (option (Z * Z)))
      (buf : list Z) :
  (forall q r, rec q = Ok r -> validate_next_type buf q = Ok r) ->
  forall (n : nat) q mx p al,
    struct_members rec buf n q mx = Ok (Some (p, al)) ->
    members buf q (p - 1) /\ rd buf (p - 1) = Ok (chr ")").
Proof.
  intros Hrec. induction n as [| n IH]; intros q mx p al H; simpl in H;
    [discriminate |].
  inv_bind H. destruct (is_chr a ")") eqn:Hc.
  - inversion H; subst. rewrite Z.add_simpl_r.
    apply Z.eqb_eq in Hc. subst a.
    split; [apply members_nil | exact E].
  - inv_bind H. destruct a0 as [[q' a'] |]; [| discriminate].
    apply IH in H. destruct H as [Hm Hr].
    split; [| exact Hr].
    eapply members_cons; [apply Hrec; exact E0 | exact Hm].
Qed.

(** The four ways [validate_next_type] accepts a type. *)
Lemma validate_cases (buf : list Z) (s p al : Z) :
  validate_next_type buf s = Ok (Some (p, al)) ->
  exists c,
    rd buf s = Ok c /\ c <> 0 /\
    ((strchr simple_types c || is_chr c "v" = true /\ p = s + 1 /\
      al = get_basic_alignment c) \/
     (c = chr "a" /\ validate_next_type buf (s + 1) = Ok (Some (p, al))) \/
     (c = chr "{" /\
      exists k p' alv,
        rd buf (s + 1) = Ok k /\ strchr simple_types k = true /\
        validate_next_type buf (s + 2) = Ok (Some (p', alv)) /\
        rd buf p' = Ok (chr "}") /\ p = p' + 1) \/
     (c = chr "(" /\ members buf (s + 1) (p - 1) /\
      rd buf (p - 1) = Ok (chr ")"))).
Proof.
  unfold validate_next_type at 1. rewrite validate_fuel_S. intros H.
  inv_bind H. exists a. split; [exact E |].
  destruct (Z.eqb_spec a 0) as [Hz | Hz]; [discriminate |].
  split; [exact Hz |].
  destruct (strchr simple_types a || is_chr a "v") eqn:Hb.
  { inversion H; subst. left. tauto. }
  destruct (is_chr a "a") eqn:Ha.
  { right; left. apply Z.eqb_eq in Ha.
    split; [exact Ha | apply validate_fuel_full; exact H]. }
  destruct (is_chr a "{") eqn:Hd.
  { right; right; left. apply Z.eqb_eq in Hd. split; [exact Hd |].
    inv_bind H. destruct (strchr simple_types a0) eqn:Hk; simpl in H;
      [| discriminate].
    inv_bind H. destruct a1 as [[p' alv] |]; [| discriminate].
    inv_bind H. destruct (is_chr a1 "}") eqn:Hc; simpl in H; [| discriminate].
    inversion H; subst. apply Z.eqb_eq in Hc. subst a1.
    exists a0, p', alv. split; [exact E0 |]. split; [exact Hk |].
    split; [| split; [exact E2 | reflexivity]].
    replace (s + 2) with (s + 1 + 1) by lia.
    apply validate_fuel_full; exact E1. }
  destruct (is_chr a "(") eqn:Hs; [| discriminate].
  right; right; right. apply Z.eqb_eq in Hs. split; [exact Hs |].
  eapply struct_members_members; [| exact H].
  intros q r. apply validate_fuel_full.
Qed.

Lemma validate_simple (buf : list Z) (q k : Z) :
  rd buf q = Ok k -> k <> 0 -> strchr simple_types k = true ->
  validate_next_type buf q = Ok (Some (q + 1, get_basic_alignment k)).
Proof.
  intros Hk Hnz Hs. unfold validate_next_type.
  rewrite validate_fuel_S, Hk. cbn [bind].
  apply Z.eqb_neq in Hnz. rewrite Hnz, Hs. reflexivity.
Qed.

Lemma members_le (buf : list Z) (s e : Z) : members buf s e -> s <= e.
Proof.
  induction 1 as [s | s p e al Hv _ IH]; [lia |].
  destruct (validate_next_type_progress _ _ _ _ Hv). lia.
Qed.

Lemma simple_or_v_split (c : Z) :
  c <> 0 -> strchr simple_types c || is_chr c "v" = true ->
  strchr fixed_types c = true \/ strchr variable_types c = true.
Proof.
  intros Hc H. apply orb_true_iff in H. destruct H as [H | H].
  - apply (strchr_in _ _ Hc) in H. unfold simple_types in H. simpl in H.
    repeat (destruct H as [H | H]; [subst c; vm_compute; tauto |]).
    contradiction.
  - apply Z.eqb_eq in H. subst c. right. reflexivity.
Qed.

Lemma fixed_not_variable (c : Z) :
  c <> 0 -> strchr fixed_types c = true -> strchr variable_types c = false.
Proof.
  intros Hc H. apply (strchr_in _ _ Hc) in H.
  unfold fixed_types in H. simpl in H.
  repeat (destruct H as [H | H]; [subst c; reflexivity |]).
  contradiction.
Qed.

Lemma valid_signature_loop_members (buf : list Z) (n : nat) :
  forall s, valid_signature_loop n buf s = Ok true ->
            exists e, members buf s e /\ rd buf e = Ok 0 /\ s < e.
Proof.
  induction n as [| n IH]; intros s H; simpl in H; [discriminate |].
  inv_bind H. destruct a as [[p al] |]; [| discriminate].
  inv_bind H. destruct (validate_next_type_progress _ _ _ _ E) as [Hp _].
  destruct (Z.eqb_spec a 0) as [Ha | Ha].
  - subst a. exists p. split; [| split; [exact E0 | lia]].
    eapply members_cons; [exact E | apply members_nil].
  - destruct (IH _ H) as (e & Hm & He & Hlt).
    exists e. split; [| split; [exact He | lia]].
    eapply members_cons; [exact E | exact Hm].
Qed.

(** ** The fixed-size scan over an accepted sequence of types *)

Lemma fixed_type_size_pos (c : Z) :
  c <> 0 -> strchr fixed_types c = true -> 1 <= get_basic_fixed_size c.
Proof.
  intros Hc H. apply (strchr_in _ _ Hc) in H.
  unfold fixed_types in H. simpl in H.
  repeat (destruct H as [H | H]; [subst c; vm_compute; discriminate |]).
  contradiction.
Qed.

Lemma closing_not_listed (c : Z) :
  is_chr c "}" || is_chr c ")" = true ->
  c <> 0 /\ strchr variable_types c = false /\ strchr fixed_types c = false.
Proof.
  intros H. apply orb_true_iff in H.
  destruct H as [H | H]; apply Z.eqb_eq in H; subst c;
    (split; [discriminate | split; reflexivity]).
Qed.

Lemma scan_stop (rec : Z -> res Z) (buf : list Z) (n : nat)
      (s size mx c : Z) :
  rd buf s = Ok c -> c = 0 \/ is_chr c "}" || is_chr c ")" = true ->
  fixed_size_scan rec buf (S n) s size mx = Ok (align_len size mx).
Proof.
  intros Hc Hs. cbn [fixed_size_scan]. rewrite Hc. cbn [bind].
  destruct Hs as [-> | Hs]; [reflexivity |].
  destruct (closing_not_listed _ Hs) as (Hz & Hv & Hf).
  apply Z.eqb_neq in Hz. rewrite Hz, Hv, Hf, Hs. reflexivity.
Qed.

Lemma scan_fixed (rec : Z -> res Z) (buf : list Z) (n : nat)
      (s size mx c : Z) :
  rd buf s = Ok c -> c <> 0 -> strchr fixed_types c = true ->
  fixed_size_scan rec buf (S n) s size mx =
  fixed_size_scan rec buf n (s + 1)
    (align_len size (get_basic_alignment c) + get_basic_fixed_size c)
    (if get_basic_alignment c >? mx then get_basic_alignment c else mx).
Proof.
  intros Hc Hz Hf. cbn [fixed_size_scan]. rewrite Hc. cbn [bind].
  rewrite (fixed_not_variable _ Hz Hf), Hf.
  apply Z.eqb_neq in Hz. rewrite Hz. reflexivity.
Qed.

Lemma scan_container (rec : Z -> res Z) (buf : list Z) (n : nat)
      (s size mx c p al : Z) :
  rd buf s = Ok c -> c = chr "{" \/ c = chr "(" ->
  validate_next_type buf s = Ok (Some (p, al)) ->
  fixed_size_scan rec buf (S n) s size mx =
  (unit <- (if is_chr c "("
            then c1 <- rd buf (s + 1) ;; ret (is_chr c1 ")")
            else ret false) ;;
   r <- (if unit : bool then ret 1 else rec (s + 1)) ;;
   if r =? 0 then ret 0
   else fixed_size_scan rec buf n p (align_len size al + r)
          (if al >? mx then al else mx)).
Proof.
  intros Hc Hk Hv. cbn [fixed_size_scan]. rewrite Hc. cbn [bind].
  destruct Hk as [-> | ->].
  - change (chr "{" =? 0) with false.
    change (strchr variable_types (chr "{")) with false.
    change (strchr fixed_types (chr "{")) with false.
    change (is_chr (chr "{") "}" || is_chr (chr "{") ")") with false.
    cbv iota. rewrite Hv. reflexivity.
  - change (chr "(" =? 0) with false.
    change (strchr variable_types (chr "(")) with false.
    change (strchr fixed_types (chr "(")) with false.
    change (is_chr (chr "(") "}" || is_chr (chr "(") ")") with false.
    cbv iota. rewrite Hv. reflexivity.
Qed.

Lemma no_variable_split (buf : list Z) (s p e : Z) :
  no_variable buf s p -> no_variable buf p e -> no_variable buf s e.
Proof.
  intros H1 H2 i c Hi Hc. destruct (Z_lt_le_dec i p) as [Hlt | Hge].
  - apply (H1 i c); [lia | exact Hc].
  - apply (H2 i c); [lia | exact Hc].
Qed.

Lemma no_variable_sub (buf : list Z) (s e s' e' : Z) :
  s <= s' -> e' <= e -> no_variable buf s e -> no_variable buf s' e'.
Proof. intros Hs He H i c Hi Hc. apply (H i c); [lia | exact Hc]. Qed.

Lemma no_nul_sub (buf : list Z) (s e s' e' : Z) :
  s <= s' -> e' <= e -> no_nul buf s e -> no_nul buf s' e'.
Proof. intros Hs He H i c Hi Hc. apply (H i c); [lia | exact Hc]. Qed.

Lemma no_variable_one (buf : list Z) (s c : Z) :
  rd buf s = Ok c -> strchr variable_types c = false ->
  no_variable buf s (s + 1).
Proof.
  intros Hc Hv i c' Hi Hc'. assert (i = s) by lia. subst i.
  rewrite Hc in Hc'. inversion Hc'; subst. exact Hv.
Qed.

(** The rest of a round of the scan once the item at [s] has been sized:
    [r0] is the size found for the item, [p] the position after it. *)
Lemma scan_tail (buf : list Z) (k n : nat) (s p e size mx r0 al : Z) :
  s < p <= e -> is_alignment al -> is_alignment mx -> 0 <= size ->
  (no_variable buf s p -> 1 <= r0) ->
  (~ no_variable buf s p -> r0 = 0) ->
  (forall size' mx', is_alignment mx' -> 0 <= size' ->
     exists r,
       fixed_size_scan (get_fixed_size_fuel k buf) buf n p size' mx' = Ok r /\
       (no_variable buf p e -> size' <= r /\ (p < e -> size' + 1 <= r)) /\
       (~ no_variable buf p e -> r = 0)) ->
  exists r,
    (if r0 =? 0 then ret 0
     else fixed_size_scan (get_fixed_size_fuel k buf) buf n p
            (align_len size al + r0) (if al >? mx then al else mx)) = Ok r /\
    (no_variable buf s e -> size <= r /\ (s < e -> size + 1 <= r)) /\
    (~ no_variable buf s e -> r = 0).
Proof.
  intros Hsp Hal Hmx Hsz Hpos Hzero Hrest.
  pose proof (align_len_bounds size al Hal) as Hb.
  destruct (Z.eqb_spec r0 0) as [Hr | Hr].
  - exists 0. split; [reflexivity |]. split; [| reflexivity].
    intros Hnv.
    assert (1 <= r0)
      by (apply Hpos; eapply no_variable_sub; [| | exact Hnv]; lia).
    lia.
  - assert (H1 : 1 <= r0).
    { destruct (Z_lt_le_dec r0 1) as [Hlt | Hge]; [| exact Hge].
      exfalso. apply Hr. apply Hzero. intros Hall.
      apply Hpos in Hall. lia. }
    destruct (Hrest (align_len size al + r0) (if al >? mx then al else mx))
      as (r & Hrun & Hfix & Hvar);
      [apply max_alignment_ok; assumption | lia |].
    exists r. split; [exact Hrun |]. split.
    + intros Hnv.
      assert (Hnv' : no_variable buf p e)
        by (eapply no_variable_sub; [| | exact Hnv]; lia).
      destruct (Hfix Hnv') as [Hle _]. lia.
    + intros Hnv. apply Hvar. intros Hrestnv. apply Hnv.
      intros i c Hi Hc.
      destruct (Z_lt_le_dec i p) as [Hip | Hip].
      * destruct (strchr variable_types c) eqn:Hv; [| reflexivity].
        exfalso. apply Hr. apply Hzero. intros Hall.
        rewrite (Hall i c) in Hv; [discriminate | lia | exact Hc].
      * apply (Hrestnv i c); [lia | exact Hc].
Qed.

Lemma scan_variable (rec : Z -> res Z) (buf : list Z) (n : nat)
      (s size mx c : Z) :
  rd buf s = Ok c -> c <> 0 -> strchr variable_types c = true ->
  fixed_size_scan rec buf (S n) s size mx = Ok 0.
Proof.
  intros Hc Hz Hv. cbn [fixed_size_scan]. rewrite Hc. cbn [bind].
  apply Z.eqb_neq in Hz. rewrite Hz, Hv. reflexivity.
Qed.

Lemma members_inv (buf : list Z) (s e : Z) :
  members buf s e ->
  s = e \/ exists p al, validate_next_type buf s = Ok (Some (p, al)) /\
                        members buf p e.
Proof.
  intros [s' | s' p e' al Hv Hm]; [left; reflexivity |].
  right. exists p, al. split; assumption.
Qed.

Lemma no_variable_brackets (buf : list Z) (s e c c' : Z) :
  rd buf s = Ok c -> strchr variable_types c = false ->
  rd buf e = Ok c' -> strchr variable_types c' = false ->
  no_variable buf (s + 1) e -> no_variable buf s (e + 1).
Proof.
  intros Hc Hv Hc' Hv' H i x Hi Hx.
  destruct (Z.eq_dec i s) as [-> | Hs].
  { rewrite Hc in Hx. inversion Hx; subst. exact Hv. }
  destruct (Z.eq_dec i e) as [-> | He].
  { rewrite Hc' in Hx. inversion Hx; subst. exact Hv'. }
  apply (H i x); [lia | exact Hx].
Qed.

(** Over an accepted sequence of types that ends at a NUL or at a closing
    bracket, and holds no NUL, the scan returns: 0 when a character of
    [variable_types] occurs in the sequence, and otherwise a size that grows
    by at least one for a non-empty sequence. *)
Lemma fixed_size_scan_members (buf : list Z) (N : nat) :
  forall s e,
    e - s <= Z.of_nat N -> members buf s e -> no_nul buf s e ->
    forall ce,
      rd buf e = Ok ce -> (ce = 0 \/ is_chr ce "}" || is_chr ce ")" = true) ->
      forall (n k : nat) size mx,
        is_alignment mx -> 0 <= size ->
        Z.of_nat (length buf) - s < Z.of_nat n ->
        Z.of_nat (length buf) - s - 1 < Z.of_nat k ->
        exists r,
          fixed_size_scan (get_fixed_size_fuel k buf) buf n s size mx = Ok r /\
          (no_variable buf s e -> size <= r /\ (s < e -> size + 1 <= r)) /\
          (~ no_variable buf s e -> r = 0).
Proof.
  induction N as [| N IH];
    intros s e HN Hm Hnn ce Hce Hstop n k size mx Hmx Hsz Hn Hk;
    pose proof (rd_Ok_range _ _ _ Hce) as Hrange;
    pose proof (members_le _ _ _ Hm) as Hse;
    (destruct n as [| n]; [lia |]);
    destruct (members_inv _ _ _ Hm) as [<- | (p & al & Hv & Hm')].
  1, 3: rewrite (scan_stop _ _ _ _ _ _ _ Hce Hstop);
    exists (align_len size mx); (split; [reflexivity |]);
    pose proof (align_len_bounds size mx Hmx);
    (split; [intros _; split; lia |]);
    intros Hno; exfalso; apply Hno; intros i c Hi; lia.
  { destruct (validate_next_type_progress _ _ _ _ Hv) as [Hp _].
    pose proof (members_le _ _ _ Hm'). lia. }
  destruct (validate_next_type_progress _ _ _ _ Hv) as [Hp Hal].
  pose proof (members_le _ _ _ Hm') as Hpe.
  destruct (validate_cases _ _ _ _ Hv) as (c & Hc & Hnz & Hcase).
  assert (Hrest : forall size' mx', is_alignment mx' -> 0 <= size' ->
            exists r,
              fixed_size_scan (get_fixed_size_fuel k buf) buf n p size' mx'
              = Ok r /\
              (no_variable buf p e ->
               size' <= r /\ (p < e -> size' + 1 <= r)) /\
              (~ no_variable buf p e -> r = 0)).
  { intros size' mx' Hmx' Hsz'.
    apply (IH p e ltac:(lia) Hm'
              ltac:(eapply no_nul_sub; [| | exact Hnn]; lia)
              ce Hce Hstop); try assumption; lia. }
  assert (Hinner : forall e' ce',
            s + 1 < e' -> e' < e -> members buf (s + 1) e' ->
            rd buf e' = Ok ce' -> is_chr ce' "}" || is_chr ce' ")" = true ->
            exists r0,
              get_fixed_size_fuel k buf (s + 1) = Ok r0 /\
              (no_variable buf (s + 1) e' -> 1 <= r0) /\
              (~ no_variable buf (s + 1) e' -> r0 = 0)).
  { intros e' ce' Hlo Hhi Hmem Hce' Hcl.
    destruct k as [| k]; [lia |]. rewrite get_fixed_size_fuel_S.
    destruct (IH (s + 1) e' ltac:(lia) Hmem
                 ltac:(eapply no_nul_sub; [| | exact Hnn]; lia)
                 ce' Hce' (or_intror Hcl) (S k) k 0 1)
      as (r0 & Hrun & Hfix & Hvar);
      [unfold is_alignment; tauto | lia | lia | lia |].
    exists r0. split; [exact Hrun |]. split; [| exact Hvar].
    intros Hnv. destruct (Hfix Hnv) as [_ H1]. lia. }
  destruct Hcase as
      [(Hb & -> & ->) |
       [(-> & Hv') |
        [(-> & k0 & p' & alv & Hk0 & Hks & Hvv & Hcl & ->) |
         (-> & Hmem & Hcl)]]].
  - (* a basic type *)
    destruct (simple_or_v_split _ Hnz Hb) as [Hf | Hvar].
    + rewrite (scan_fixed _ _ _ _ _ _ _ Hc Hnz Hf).
      pose proof (fixed_type_size_pos _ Hnz Hf) as Hw.
      destruct (scan_tail buf k n s (s + 1) e size mx
                  (get_basic_fixed_size c) (get_basic_alignment c))
        as (r & Hrun & Hres); try assumption; try lia.
      * intros Hno. exfalso. apply Hno.
        eapply no_variable_one; [exact Hc |].
        apply fixed_not_variable; assumption.
      * destruct (Z.eqb_spec (get_basic_fixed_size c) 0) as [H0 | _];
          [lia |].
        exists r. split; [exact Hrun | exact Hres].
    + rewrite (scan_variable _ _ _ _ _ _ _ Hc Hnz Hvar).
      exists 0. split; [reflexivity |]. split; [| reflexivity].
      intros Hnv. rewrite (Hnv s c) in Hvar by (lia || exact Hc).
      discriminate.
  - (* an array *)
    rewrite (scan_variable _ _ _ _ _ _ _ Hc Hnz eq_refl).
    exists 0. split; [reflexivity |]. split; [| reflexivity].
    intros Hnv. pose proof (Hnv s _ ltac:(lia) Hc) as Hbad. discriminate.
  - (* a dict entry *)
    rewrite (scan_container _ _ _ _ _ _ _ _ _ Hc (or_introl eq_refl) Hv).
    change (is_chr (chr "{") "(") with false. cbn [bind ret].
    destruct (validate_next_type_progress _ _ _ _ Hvv) as [Hp' _].
    assert (Hk0z : k0 <> 0) by (apply (Hnn (s + 1) k0); [lia | exact Hk0]).
    assert (Hmem : members buf (s + 1) p').
    { eapply members_cons; [apply (validate_simple _ _ _ Hk0 Hk0z Hks) |].
      replace (s + 1 + 1) with (s + 2) by lia.
      eapply members_cons; [exact Hvv | apply members_nil]. }
    destruct (Hinner p' (chr "}") ltac:(lia) ltac:(lia) Hmem Hcl eq_refl)
      as (r0 & Hrun & Hfix & Hvar).
    rewrite Hrun. cbn [bind].
    apply scan_tail; try assumption; try lia.
    + intros Hnv. apply Hfix. eapply no_variable_sub; [| | exact Hnv]; lia.
    + intros Hno. apply Hvar. intros Hin. apply Hno.
      eapply no_variable_brackets;
        [exact Hc | reflexivity | exact Hcl | reflexivity | exact Hin].
  - (* a struct *)
    rewrite (scan_container _ _ _ _ _ _ _ _ _ Hc (or_intror eq_refl) Hv).
    change (is_chr (chr "(") "(") with true. cbv iota.
    assert (Hbr : no_variable buf (s + 1) (p - 1) -> no_variable buf s p).
    { intros Hin. replace p with (p - 1 + 1) by lia.
      eapply no_variable_brackets;
        [exact Hc | reflexivity | exact Hcl | reflexivity | exact Hin]. }
    destruct (members_inv _ _ _ Hmem) as [Hunit | (q & aq & Hvq & Hmq)].
    + (* the unit type *)
      rewrite Hunit, Hcl. cbn [bind ret].
      change (is_chr (chr ")") ")") with true. cbv iota. cbn [bind ret].
      apply (scan_tail buf k n s p e size mx 1 al); try assumption; try lia.
      intros Hno. exfalso. apply Hno, Hbr. intros i x Hi. lia.
    + destruct (validate_Ok_first _ _ _ Hvq) as (c1 & Hc1 & _).
      assert (Hnc : is_chr c1 ")" = false).
      { destruct (is_chr c1 ")") eqn:Hcc; [| reflexivity].
        rewrite (validate_closing _ _ _ Hc1) in Hvq; [discriminate |].
        rewrite Hcc. apply orb_true_r. }
      rewrite Hc1. cbn [bind ret]. rewrite Hnc.
      destruct (validate_next_type_progress _ _ _ _ Hvq) as [Hq _].
      pose proof (members_le _ _ _ Hmq) as Hqe.
      destruct (Hinner (p - 1) (chr ")") ltac:(lia) ltac:(lia) Hmem Hcl
                       eq_refl) as (r0 & Hrun & Hfix & Hvar).
      rewrite Hrun. cbn [bind].
      apply scan_tail; try assumption; try lia.
      * intros Hnv. apply Hfix. eapply no_variable_sub; [| | exact Hnv]; lia.
      * intros Hno. apply Hvar. intros Hin. apply Hno, Hbr, Hin.
Qed.

Lemma rd_readable (buf : list Z) (i : Z) :
  0 <= i < Z.of_nat (length buf) -> exists c, rd buf i = Ok c.
Proof.
  intros Hi. unfold rd. destruct (Z.ltb_spec i 0) as [Hn | _]; [lia |].
  destruct (nth_error buf (Z.to_nat i)) as [c |] eqn:Hc;
    [exists c; reflexivity |].
  apply nth_error_None in Hc. lia.
Qed.

Lemma rd_nul_is_terminator (bytes : list Z) (i : Z) :
  ~ In 0 bytes -> rd (bytes ++ [0]) i = Ok 0 ->
  i = Z.of_nat (length bytes).
Proof.
  intros Hno H. pose proof (rd_Ok_range _ _ _ H) as Hr.
  rewrite length_app in Hr. simpl in Hr.
  destruct (Z_lt_le_dec i (Z.of_nat (length bytes))) as [Hlt | Hge]; [| lia].
  exfalso. apply Hno. unfold rd in H.
  destruct (Z.ltb_spec i 0) as [Hn | _]; [discriminate |].
  rewrite nth_error_app1 in H by lia.
  destruct (nth_error bytes (Z.to_nat i)) as [c |] eqn:Hc; [| discriminate].
  inversion H; subst c. eapply nth_error_In; exact Hc.
Qed.

(** [_gvariant_is_fixed_size] looks for a character of [variable_types]
    before the first NUL. *)
Lemma is_fixed_size_loop_spec (buf : list Z) (e : Z) :
  rd buf e = Ok 0 ->
  forall (n : nat) s,
    0 <= s <= e -> no_nul buf s e -> e - s < Z.of_nat n ->
    exists b, is_fixed_size_loop n buf s = Ok b /\
              (b = true -> no_variable buf s e) /\
              (b = false -> ~ no_variable buf s e).
Proof.
  intros He. pose proof (rd_Ok_range _ _ _ He) as Hr.
  induction n as [| n IH]; intros s Hs Hnn Hn; [lia |].
  cbn [is_fixed_size_loop].
  destruct (Z.eq_dec s e) as [-> | Hne].
  { rewrite He. exists true. split; [reflexivity |].
    split; [intros _ i c Hi; lia | discriminate]. }
  destruct (rd_readable buf s) as [c Hc]; [lia |].
  rewrite Hc. cbn [bind].
  assert (Hz : c <> 0) by (apply (Hnn s c); [lia | exact Hc]).
  apply Z.eqb_neq in Hz. rewrite Hz.
  destruct (strchr variable_types c) eqn:Hv.
  { exists false. split; [reflexivity |]. split; [discriminate |].
    intros _ Hall. rewrite (Hall s c) in Hv by (lia || exact Hc).
    discriminate. }
  destruct (IH (s + 1)) as (b & Hrun & Ht & Hf); [lia | | lia |].
  { eapply no_nul_sub; [| | exact Hnn]; lia. }
  exists b. split; [exact Hrun |]. split.
  - intros Hb. apply (no_variable_split buf s (s + 1) e);
      [eapply no_variable_one; eassumption | apply Ht; exact Hb].
  - intros Hb Hall. apply (Hf Hb).
    eapply no_variable_sub; [| | exact Hall]; lia.
Qed.

(** X12: over a valid signature that holds no NUL before its terminator,
    [_gvariant_get_fixed_size] and [_gvariant_is_fixed_size] agree: both
    return, the size is not negative, and [_gvariant_is_fixed_size] answers
    true exactly when the size is not 0. *)
Theorem X12_fixed_size_is_nonzero_exactly_for_fixed_signatures :
  forall (bytes : list Z) (sig : Z),
    ~ In 0 bytes ->
    _gvariant_valid_signature (bytes ++ [0]) sig = Ok true ->
    exists r,
      _gvariant_get_fixed_size (bytes ++ [0]) sig = Ok r /\ 0 <= r /\
      _gvariant_is_fixed_size (bytes ++ [0]) sig = Ok (negb (r =? 0)).
Proof.
  intros bytes sig Hno Hvalid.
  destruct (valid_signature_loop_members _ _ _ Hvalid)
    as (e & Hm & He & Hlt).
  pose proof (rd_nul_is_terminator _ _ Hno He) as Hend.
  assert (Hsig : 0 <= sig).
  { inversion Hm as [| s p e' al Hv Hm']; subst; [lia |].
    destruct (validate_Ok_first _ _ _ Hv) as (c & Hc & _).
    apply rd_Ok_range in Hc. lia. }
  assert (Hnn : no_nul (bytes ++ [0]) sig e).
  { intros i c Hi Hc Hz. subst c.
    apply (rd_nul_is_terminator _ _ Hno) in Hc. lia. }
  pose proof (rd_Ok_range _ _ _ He) as Hr.
  unfold _gvariant_get_fixed_size. rewrite get_fixed_size_fuel_S.
  destruct (fixed_size_scan_members (bytes ++ [0]) (Z.to_nat (e - sig))
              sig e ltac:(lia) Hm Hnn 0 He (or_introl eq_refl)
              (S (length (bytes ++ [0]))) (length (bytes ++ [0])) 0 1)
    as (r & Hrun & Hfix & Hvar);
    [unfold is_alignment; tauto | lia | lia | lia |].
  destruct (is_fixed_size_loop_spec _ _ He (S (length (bytes ++ [0]))) sig)
    as (b & Hb & Ht & Hf); [lia | exact Hnn | lia |].
  exists r. split; [exact Hrun |].
  unfold _gvariant_is_fixed_size. rewrite Hb.
  destruct b.
  - destruct (Hfix (Ht eq_refl)) as [_ H1]. specialize (H1 Hlt).
    split; [lia |]. destruct (Z.eqb_spec r 0); [lia | reflexivity].
  - rewrite (Hvar (Hf eq_refl)). split; [lia | reflexivity].
Qed.

Lemma X12_fixed_size_is_nonzero_exactly_for_fixed_signatures_witness :
  ~ In 0 (bytes_of_string "(y{ni})x") /\
  _gvariant_valid_signature (bytes_of_string "(y{ni})x" ++ [0]) 0 = Ok true /\
  exists r,
    _gvariant_get_fixed_size (bytes_of_string "(y{ni})x" ++ [0]) 0 = Ok r /\
    0 <= r /\
    _gvariant_is_fixed_size (bytes_of_string "(y{ni})x" ++ [0]) 0
    = Ok (negb (r =? 0)).
Proof.
  assert (Hno : ~ In 0 (bytes_of_string "(y{ni})x")).
  { simpl. intros H.
    repeat (destruct H as [H | H]; [discriminate H |]). exact H. }
  assert (Hv : _gvariant_valid_signature
                 (bytes_of_string "(y{ni})x" ++ [0]) 0 = Ok true)
    by (vm_compute; reflexivity).
  split; [exact Hno |]. split; [exact Hv |].
  exact (X12_fixed_size_is_nonzero_exactly_for_fixed_signatures
           (bytes_of_string "(y{ni})x") 0 Hno Hv).
Defined.

(** ** The variant contract *)

Lemma skipn_length_app (A : Type) (l1 l2 : list A) :
  skipn (length l1) (l1 ++ l2) = l2.
Proof. induction l1 as [| x l1 IH]; [reflexivity | exact IH]. Qed.

Lemma firstn_length_app (A : Type) (l1 l2 : list A) :
  firstn (length l1) (l1 ++ l2) = l1.
Proof.
  induction l1 as [| x l1 IH]; [reflexivity |]. simpl. rewrite IH.
  reflexivity.
Qed.

(** [memrchr] finds the last NUL: the byte at the offset it returns is 0
    and no byte after it, up to the end of the extent, is. *)
Lemma memrchr0_found (m : mem) (b : nat) (o n k : Z) :
  memrchr0 m (Ptr b o) n = Ok (Some k) ->
  0 <= k < n /\
  load_bytes m (Ptr b (o + k)) 1 = Ok [0] /\
  exists bytes, load_bytes m (Ptr b (o + k + 1)) (n - k - 1) = Ok bytes /\
                ~ In 0 bytes.
Proof.
  unfold memrchr0.
  destruct (Z.leb_spec n 0) as [Hn | Hn]; [discriminate |].
  destruct (Z.ltb_spec (o + n) 0) as [Hlo | Hlo]; [discriminate |].
  destruct (Z.ltb_spec (Z.of_nat (length (m b))) (o + n)) as [Hhi | Hhi];
    [discriminate |].
  cbn [orb]. intros H. inv_bind H.
  destruct a as [j |]; [| discriminate]. inversion H; subst k; clear H.
  destruct (memchr_list_found _ _ _ _ E)
    as (pre & rest & Hl & Hno & Hlen & Hj).
  assert (HL : firstn (Z.to_nat (o + n)) (m b)
               = rev rest ++ 0 :: rev pre).
  { rewrite <- (rev_involutive (firstn _ (m b))), Hl, rev_app_distr.
    simpl. rewrite <- app_assoc. reflexivity. }
  assert (Hm : m b = rev rest ++ 0 :: rev pre
                     ++ skipn (Z.to_nat (o + n)) (m b)).
  { rewrite <- (firstn_skipn (Z.to_nat (o + n)) (m b)) at 1.
    rewrite HL, <- app_assoc. reflexivity. }
  assert (Hcount : (length (rev rest) + S (length (rev pre)))%nat
                   = Z.to_nat (o + n)).
  { pose proof (length_firstn (Z.to_nat (o + n)) (m b)) as Hf.
    rewrite HL, length_app in Hf. simpl in Hf. lia. }
  rewrite (length_rev pre) in Hcount.
  assert (Hk : Z.to_nat (o + (n - 1 - j)) = length (rev rest)) by lia.
  split; [lia |]. split.
  - unfold load_bytes.
    destruct (Z.ltb_spec (o + (n - 1 - j)) 0); [lia |].
    destruct (Z.ltb_spec (Z.of_nat (length (m b))) (o + (n - 1 - j) + 1));
      [lia |].
    cbn [orb Z.ltb Z.compare]. rewrite Hk, Hm, skipn_length_app.
    reflexivity.
  - exists (rev pre). split; [| rewrite <- in_rev; exact Hno].
    unfold load_bytes.
    destruct (Z.ltb_spec (n - (n - 1 - j) - 1) 0); [lia |].
    destruct (Z.ltb_spec (o + (n - 1 - j) + 1) 0); [lia |].
    destruct (Z.ltb_spec (Z.of_nat (length (m b)))
                         (o + (n - 1 - j) + 1 + (n - (n - 1 - j) - 1)));
      [lia |].
    cbn [orb].
    replace (Z.to_nat (o + (n - 1 - j) + 1))
      with (length (rev rest ++ [0])) by (rewrite length_app; simpl; lia).
    replace (Z.to_nat (n - (n - 1 - j) - 1)) with (length (rev pre))
      by (rewrite length_rev; lia).
    rewrite Hm.
    change (rev rest ++ 0 :: rev pre ++ skipn (Z.to_nat (o + n)) (m b))
      with (rev rest ++ [0] ++ rev pre ++ skipn (Z.to_nat (o + n)) (m b)).
    rewrite app_assoc, skipn_length_app, firstn_length_app. reflexivity.
Qed.

(** X13: [enter_variant] returns true only for an item that holds a NUL
    followed by its signature.  With [k] the offset of the last NUL of the
    item, the bytes after it hold no NUL, are between 1 and 254, form a
    valid signature and count exactly one complete type; the child reader
    is at its start over the [k] bytes before that NUL, under the
    signature window that begins right after it. *)
Theorem X13_enter_variant_splits_the_item_at_its_last_nul :
  forall (m : mem) (it it' c c' : l_dbus_message_iter),
    _gvariant_iter_enter_variant m it c = Ok (true, it', c') ->
    exists start item_size k bytes,
      sig_char m it = Ok (chr "v") /\
      next_item m it = Ok (Some (start, item_size), it') /\
      0 <= k /\ item_size = k + 1 + Z.of_nat (length bytes) /\
      load_bytes m (ptr_add start k) 1 = Ok [0] /\
      load_bytes m (ptr_add start (k + 1)) (Z.of_nat (length bytes))
      = Ok bytes /\
      ~ In 0 bytes /\ (1 <= length bytes <= 254)%nat /\
      _gvariant_valid_signature (bytes ++ [0]) 0 = Ok true /\
      _gvariant_num_children (bytes ++ [0]) 0 = Ok 1 /\
      data c' = start /\ len c' = k /\
      sig_start c' = ptr_add start (k + 1) /\
      sig_pos c' = 0 /\ pos c' = 0 /\
      container_type c' = DBUS_CONTAINER_TYPE_VARIANT.
Proof.
  intros m it it' c c' H.
  destruct (_gvariant_iter_enter_variant_success _ _ _ _ _ H)
    as (start & sz & k & bytes & Hc & Hn & Hr & Hle & Hb & Hv & Hnc
        & Hd & Hl & Hs & Hsp & Hp & Hct).
  destruct start as [| b o]; [discriminate Hr |].
  destruct (memrchr0_found _ _ _ _ _ Hr)
    as (Hk & Hnul & bytes' & Hb' & Hno).
  change (ptr_add (Ptr b o) (k + 1)) with (Ptr b (o + (k + 1))) in Hb.
  replace (o + k + 1) with (o + (k + 1)) in Hb' by lia.
  rewrite Hb in Hb'. inversion Hb'; subst bytes'; clear Hb'.
  pose proof (load_bytes_length _ _ _ _ Hb) as Hlen.
  assert (Hne : (1 <= length bytes)%nat).
  { destruct bytes as [| x tl]; [| simpl; lia].
    vm_compute in Hv. discriminate. }
  exists (Ptr b o), sz, k, bytes. simpl.
  rewrite Hlen.
  repeat split; solve [assumption | lia].
Qed.

Lemma X13_enter_variant_splits_the_item_at_its_last_nul_witness :
  _gvariant_iter_enter_variant byte_variant_mem (byte_variant_iter 0 0)
    blank_iter
  = Ok (true, byte_variant_iter 1 3, byte_variant_child) /\
  exists start item_size k bytes,
    sig_char byte_variant_mem (byte_variant_iter 0 0) = Ok (chr "v") /\
    next_item byte_variant_mem (byte_variant_iter 0 0)
    = Ok (Some (start, item_size), byte_variant_iter 1 3) /\
    0 <= k /\ item_size = k + 1 + Z.of_nat (length bytes) /\
    load_bytes byte_variant_mem (ptr_add start k) 1 = Ok [0] /\
    load_bytes byte_variant_mem (ptr_add start (k + 1))
               (Z.of_nat (length bytes)) = Ok bytes /\
    ~ In 0 bytes /\ (1 <= length bytes <= 254)%nat /\
    _gvariant_valid_signature (bytes ++ [0]) 0 = Ok true /\
    _gvariant_num_children (bytes ++ [0]) 0 = Ok 1 /\
    data byte_variant_child = start /\ len byte_variant_child = k /\
    sig_start byte_variant_child = ptr_add start (k + 1) /\
    sig_pos byte_variant_child = 0 /\ pos byte_variant_child = 0 /\
    container_type byte_variant_child = DBUS_CONTAINER_TYPE_VARIANT.
Proof.
  assert (H : _gvariant_iter_enter_variant byte_variant_mem
                (byte_variant_iter 0 0) blank_iter
              = Ok (true, byte_variant_iter 1 3, byte_variant_child))
    by (vm_compute; reflexivity).
  split; [exact H |].
  exact (X13_enter_variant_splits_the_item_at_its_last_nul
           byte_variant_mem (byte_variant_iter 0 0) (byte_variant_iter 1 3)
           blank_iter byte_variant_child H).
Defined.

(** ** The child count and its 8-bit copy *)

Lemma num_children_loop_bound (buf : list Z) (n : nat) :
  forall s c k,
    num_children_loop n buf s c = Ok k ->
    k = -1 \/ c + 1 <= k <= c + (Z.of_nat (length buf) - 1 - s).
Proof.
  induction n as [| n IH]; intros s c k H; simpl in H; [discriminate |].
  inv_bind H. destruct a as [[s' al] |];
    [| inversion H; left; reflexivity].
  inv_bind H.
  destruct (validate_next_type_progress _ _ _ _ E) as [Hp _].
  pose proof (rd_Ok_range _ _ _ E0) as Hr.
  destruct (a =? 0).
  - inversion H; subst. right. lia.
  - apply IH in H. destruct H as [H | H]; [left; exact H | right; lia].
Qed.

(** X14: [_gvariant_num_children] returns -1 or a count between 1 and the
    number of bytes between the signature and the end of its buffer, the
    terminator excluded.  Over the 256-byte buffer of
    [gvariant_iter_init_internal] the count is therefore at most 255 and
    the 8-bit [n_children] holds it exactly; only the error value -1 is
    changed by the conversion, into 255. *)
Theorem X14_num_children_is_bounded_by_the_signature_length :
  forall (buf : list Z) (sig n : Z),
    0 <= sig ->
    _gvariant_num_children buf sig = Ok n ->
    (n = -1 \/ 1 <= n <= Z.of_nat (length buf) - 1 - sig) /\
    ((length buf <= 256)%nat ->
     (n = -1 /\ uint8_t n = 255) \/ (1 <= n <= 255 /\ uint8_t n = n)).
Proof.
  intros buf sig n Hsig H. unfold _gvariant_num_children in H.
  apply num_children_loop_bound in H.
  split; [destruct H as [H | H]; [left; exact H | right; lia] |].
  intros Hlen. destruct H as [-> | H].
  - left. split; reflexivity.
  - right. split; [lia |]. unfold uint8_t.
    change (2 ^ 8) with 256. apply Z.mod_small. lia.
Qed.

Lemma X14_num_children_is_bounded_by_the_signature_length_witness :
  0 <= 0 /\
  _gvariant_num_children (cstring "a{s(iy)}x") 0 = Ok 2 /\
  (2 = -1 \/ 1 <= 2 <= Z.of_nat (length (cstring "a{s(iy)}x")) - 1 - 0) /\
  ((length (cstring "a{s(iy)}x") <= 256)%nat ->
   (2 = -1 /\ uint8_t 2 = 255) \/ (1 <= 2 <= 255 /\ uint8_t 2 = 2)).
Proof.
  assert (H : _gvariant_num_children (cstring "a{s(iy)}x") 0 = Ok 2)
    by (vm_compute; reflexivity).
  split; [lia |]. split; [exact H |].
  exact (X14_num_children_is_bounded_by_the_signature_length
           (cstring "a{s(iy)}x") 0 2 ltac:(lia) H).
Defined.
